(** * FunSearch: population store, simulation, evaluator and search loop

    A shallow embedding of the Python package [funsearch]:

    - [core/program_db.py]   ([Program], [ProgramDatabase]) together with
      the two [heapq] operations it calls;
    - [environment/predator_prey_env.py] ([Agent],
      [PredatorPreyEnvironment]);
    - [core/evaluator.py]    ([Evaluator]);
    - [core/sampler.py]      ([Sampler]);
    - [funsearch.py]         ([FunSearch]).

    Conventions of the embedding.

    - The floats the package computes itself (positions, distances,
      fitness values, statistics) are idealised as real numbers [R]:
      the rounding of a result to 53 bits is outside the model.  Python
      [int]s that are counts or sizes are [Z].
    - What candidate code hands to the package is modelled as Python has
      it: the value a behaviour returns is a [PyVal] (numbers, among them
      the infinities and NaN, strings, bytes, tuples, lists, dicts), and the
      statements that unpack it and compute with it raise where Python
      raises and leave the range of the doubles where Python does
      (overflow to an infinity or to [OverflowError], underflow to zero).
      Instances of classes that candidate code defines are not values of
      [PyVal].
    - A Python exception is a value of [PyExc]; a computation that may raise
      returns a [Result].  [is_Exception] tells the classes derived from
      [Exception] (the ones an [except Exception] clause catches) from the
      others.  The text of an exception is the message it was made with,
      or what a [__str__] of candidate code returns or raises.
    - Everything mutable that lives outside an object under study (the
      state of the global [random] generator, and whatever else candidate
      code can reach) is the [World] of a [Runtime]; code that touches it is
      written in the state-and-exception monad [M].
    - In-place mutation of an object is explicit state passing: a method
      takes [self] and returns the updated [self]. *)

From Stdlib Require Import Reals Lra Lia ZArith String Bool Arith List.
From Stdlib Require Import Permutation Sorted.
Import ListNotations.
Local Open Scope string_scope.
Local Open Scope list_scope.
Local Open Scope R_scope.

(* ================================================================== *)
(** * Part I: the embedding                                            *)
(* ================================================================== *)

(** ** Exceptions and results *)

Inductive ExcClass : Type :=
| TypeError | ValueError | IndexError | ZeroDivisionError | OverflowError
| NotImplementedError | SyntaxError | NameError | RuntimeError
| SystemExit | KeyboardInterrupt | GeneratorExit.

(** Where [str(e)] takes the text of an exception from: the message the
    exception was made with, or a [__str__] that candidate code defines
    (the exception's own, or that of the object it was made with); a tag
    tells such methods apart. *)
Inductive ExcText : Type :=
| Message (msg : string)
| OwnStr (tag : nat).

Record PyExc : Type := mkPyExc { exc_class : ExcClass; exc_text : ExcText }.

(** An exception made with a message, as the interpreter and the builtins
    raise them. *)
Definition mkExc (c : ExcClass) (msg : string) : PyExc := mkPyExc c (Message msg).

(** [isinstance(e, Exception)]: every class above derives from [Exception]
    except the three that derive from [BaseException] directly. *)
Definition is_Exception (e : PyExc) : bool :=
  match exc_class e with
  | SystemExit | KeyboardInterrupt | GeneratorExit => false
  | _ => true
  end.

Inductive Result (A : Type) : Type :=
| Ok (a : A)
| Raise (e : PyExc).
Arguments Ok {A} a.
Arguments Raise {A} e.

(** Comparisons of floats, as booleans. *)
Definition float_lt (a b : R) : bool := if Rlt_dec a b then true else false.
Definition float_gt (a b : R) : bool := float_lt b a.

(** Values stored in the dictionaries of metadata, outcomes and
    statistics. *)
#[warnings="-register-all"]
Inductive DictVal : Type :=
| DNone
| DBool (b : bool)
| DInt (z : Z)
| DFloat (r : R)
| DStr (s : string)
| DFloats (l : list R)
| DDict (d : list (string * DictVal)).

(** A [dict] with string keys, as the literal that builds it. *)
Definition PyDict : Type := list (string * DictVal).

Fixpoint dict_get (d : PyDict) (k : string) : option DictVal :=
  match d with
  | [] => None
  | (k', v) :: d' => if String.eqb k k' then Some v else dict_get d' k
  end.

(** ** [heapq]: the two operations [ProgramDatabase] calls

    The list is the array of the binary heap; [lt] is the [<] of the items
    ([Program.__lt__] below). *)

Module Heapq.
Section Defs.
Context {A : Type} (lt : A -> A -> bool).

(** [heap[pos] = x] for [pos] in range. *)
Fixpoint set_item (heap : list A) (pos : nat) (x : A) : list A :=
  match heap, pos with
  | [], _ => []
  | _ :: t, O => x :: t
  | h :: t, S p => h :: set_item t p x
  end.

(** The [while pos > startpos] loop of [_siftdown]; [pos] decreases at
    every turn, so [pos] turns of fuel are enough and the last branch is
    the exit at [pos = 0]. *)
Fixpoint siftdown_loop (fuel : nat) (heap : list A) (startpos pos : nat)
         (newitem : A) : list A :=
  match fuel with
  | O => set_item heap pos newitem
  | S fuel' =>
      if (startpos <? pos)%nat then
        let parentpos := Nat.shiftr (pos - 1) 1 in
        let parent := nth parentpos heap newitem in
        if lt newitem parent then
          siftdown_loop fuel' (set_item heap pos parent) startpos parentpos newitem
        else set_item heap pos newitem
      else set_item heap pos newitem
  end.

Definition _siftdown (heap : list A) (startpos pos : nat) : list A :=
  match nth_error heap pos with
  | None => heap
  | Some newitem => siftdown_loop pos heap startpos pos newitem
  end.

(** The [while childpos < endpos] loop of [_siftup]: the smaller child
    moves up into the hole at [pos]; returns the heap and the final
    position of the hole. *)
Fixpoint siftup_loop (fuel : nat) (heap : list A) (endpos pos : nat)
         (newitem : A) : list A * nat :=
  match fuel with
  | O => (heap, pos)
  | S fuel' =>
      let childpos := (2 * pos + 1)%nat in
      if (childpos <? endpos)%nat then
        let rightpos := (childpos + 1)%nat in
        let childpos :=
          if (rightpos <? endpos)%nat
             && negb (lt (nth childpos heap newitem) (nth rightpos heap newitem))
          then rightpos else childpos in
        siftup_loop fuel' (set_item heap pos (nth childpos heap newitem))
                    endpos childpos newitem
      else (heap, pos)
  end.

Definition _siftup (heap : list A) (pos : nat) : list A :=
  match nth_error heap pos with
  | None => heap
  | Some newitem =>
      let endpos := length heap in
      let startpos := pos in
      let '(heap', pos') := siftup_loop endpos heap endpos pos newitem in
      _siftdown (set_item heap' pos' newitem) startpos pos'
  end.

(** [heappush(heap, item)] *)
Definition heappush (heap : list A) (item : A) : list A :=
  let heap := heap ++ [item] in
  _siftdown heap 0 (length heap - 1).

(** [heapreplace(heap, item)]: the new heap and the item returned. *)
Definition heapreplace (heap : list A) (item : A) : Result (list A * A) :=
  match heap with
  | [] => Raise (mkExc IndexError "index out of range")
  | returnitem :: _ => Ok (_siftup (set_item heap 0 item) 0, returnitem)
  end.
End Defs.
End Heapq.

(** ** The runtime the package runs on *)

(** The [state] dictionary a behaviour receives. *)
Record StateDict : Type := mkState {
  st_step : Z;
  st_width : R;
  st_height : R;
  st_num_alive : Z
}.

(** What a behaviour may return: [None], a [bool], an [int], a [float]
    (finite, infinite or NaN), a [str], a [bytes] object, a [tuple], a
    [list] or a [dict] (of which the code sees the keys, in order). *)
#[warnings="-register-all"]
Inductive PyVal : Type :=
| PyNone
| PyBool (b : bool)
| PyInt (z : Z)
| PyFloat (r : R)
| PyInf (negative : bool)
| PyNan
| PyStr (s : string)
| PyBytes (l : list Z)
| PyTuple (items : list PyVal)
| PyList (items : list PyVal)
| PyKeys (keys : list PyVal).

Section RuntimeTypes.
Variable W : Type.

(** A callable of signature [(state, mouse_pos, predator_pos)]: it may
    read and change the world, return any value, or raise. *)
Definition BehaviorOn : Type :=
  StateDict -> R * R -> R * R -> W -> Result PyVal * W.
End RuntimeTypes.

Class Runtime : Type := {
  World : Type;
(** [random.random()] *)
random_random : World -> R * World;
(** the index [random.choice] draws for a sequence of length [n > 0] *)
random_randbelow : nat -> World -> nat * World;
randbelow_lt : forall n w, (0 < n)%nat -> (fst (random_randbelow n w) < n)%nat;
(** [random.seed(s)] *)
random_seed : Z -> World -> World;
(** after [random.seed(s)] the values [random.random()] goes on to
    return depend on [s] only *)
random_seed_draws : forall s w1 w2 k,
  fst (random_random (Nat.iter k (fun w => snd (random_random w)) (random_seed s w1)))
  = fst (random_random (Nat.iter k (fun w => snd (random_random w)) (random_seed s w2)));
(** [exec(source, {}, local_scope)]: raises, or fills [local_scope];
    a bound name is kept with what calling its value does (calling a
    value that is not callable raises [TypeError]) *)
py_exec : string -> World -> Result (list (string * BehaviorOn World)) * World;
(** [compile(source, '<string>', 'exec')] *)
py_compile : string -> Result unit;
(** [traceback.format_exc()] while handling [e] *)
format_exc : PyExc -> string;
(** running the [__str__] of candidate code that a tag stands for *)
py_own_str : nat -> World -> Result string * World;
(** [id(obj)] *)
py_id : forall {A : Type}, A -> Z
}.

Definition Behavior `{Runtime} : Type := BehaviorOn World.

(** ** The state-and-exception monad *)

Section Monad.
Context `{Runtime}.

Definition M (A : Type) : Type := World -> Result A * World.

Definition ret {A} (a : A) : M A := fun w => (Ok a, w).
Definition raise {A} (e : PyExc) : M A := fun w => (Raise e, w).
Definition bind {A B} (m : M A) (k : A -> M B) : M B :=
  fun w => match m w with
           | (Ok a, w') => k a w'
           | (Raise e, w') => (Raise e, w')
           end.
Definition lift {A} (r : Result A) : M A := fun w => (r, w).

(** [try: body  except Exception as e: handler(e)] *)
Definition try_except_Exception {A} (body : M A) (handler : PyExc -> M A) : M A :=
  fun w => match body w with
           | (Ok a, w') => (Ok a, w')
           | (Raise e, w') =>
               if is_Exception e then handler e w' else (Raise e, w')
           end.

(** [str(e)] *)
Definition py_str_exc (e : PyExc) : M string :=
  match exc_text e with
  | Message msg => ret msg
  | OwnStr tag => py_own_str tag
  end.

(** [random.uniform(a, b)] *)
Definition random_uniform (a b : R) : M R :=
  fun w => let '(u, w') := random_random w in (Ok (a + (b - a) * u), w').

(** [random.choice(seq)] *)
Definition random_choice {A} (seq : list A) : M A :=
  match seq with
  | [] => raise (mkExc IndexError "Cannot choose from an empty sequence")
  | d :: _ =>
      fun w => let '(i, w') := random_randbelow (length seq) w in
               (Ok (nth i seq d), w')
  end.
End Monad.

Declare Scope monad_scope.
Notation "x <- m ;; k" := (bind m (fun x => k))
  (at level 61, m at next level, right associativity) : monad_scope.
Notation "' p <- m ;; k" := (bind m (fun x => match x with p => k end))
  (at level 61, p pattern, m at next level, right associativity) : monad_scope.
Local Open Scope monad_scope.

(** ** Builtins on lists of floats *)

(** [sum(l)], [min(l)], [max(l)] on a list of floats.  The sum is the
    real one: the float the code computes differs from it by rounding. *)
Definition py_sum (l : list R) : R := fold_left Rplus l 0.

Definition py_min (l : list R) : Result R :=
  match l with
  | [] => Raise (mkExc ValueError "min() arg is an empty sequence")
  | a :: t => Ok (fold_left (fun best v => if float_lt v best then v else best) t a)
  end.

Definition py_max (l : list R) : Result R :=
  match l with
  | [] => Raise (mkExc ValueError "max() arg is an empty sequence")
  | a :: t => Ok (fold_left (fun best v => if float_gt v best then v else best) t a)
  end.

(** [total / len(l)]: the real quotient, from which the float the code
    computes differs by rounding (so a mean computed in floats can fall
    just outside the range of its terms). *)
Definition py_div_len (total : R) (l : list R) : Result R :=
  match l with
  | [] => Raise (mkExc ZeroDivisionError "division by zero")
  | _ => Ok (total / INR (length l))
  end.

(** ** [core/program_db.py] *)

Record Program : Type := mkProgram {
  code : string;
  fitness : R;
  metadata : PyDict;
  generation : Z;
  parent_id : option Z
}.

(** [Program.__lt__] *)
Definition Program_lt (self other : Program) : bool :=
  float_lt (fitness self) (fitness other).

(** [sorted(l, key=key, reverse=True)]: the stable sort by descending key
    (items with equal keys keep their order in [l]). *)
Section Sorted.
Context {A : Type} (key : A -> R).

Fixpoint insert_desc (x : A) (l : list A) : list A :=
  match l with
  | [] => [x]
  | y :: t => if float_lt (key x) (key y) then y :: insert_desc x t
              else x :: y :: t
  end.

Fixpoint sorted_reverse (l : list A) : list A :=
  match l with
  | [] => []
  | x :: t => insert_desc x (sorted_reverse t)
  end.
End Sorted.

(** [l[:n]] *)
Definition slice_to {A} (l : list A) (n : Z) : list A :=
  if (0 <=? n)%Z then firstn (Z.to_nat n) l
  else firstn (length l - Z.to_nat (- n)) l.

Module ProgramDatabase.

Record t : Type := mk {
  max_size : Z;
  programs : list Program;
  _best_program : option Program;
  _generation : Z
}.

Definition __init__ (max_size : Z) : t :=
  {| max_size := max_size; programs := []; _best_program := None;
     _generation := 0 |}.

Definition set_programs (self : t) (ps : list Program) : t :=
  {| max_size := max_size self; programs := ps;
     _best_program := _best_program self; _generation := _generation self |}.

Definition set_best_program (self : t) (p : Program) : t :=
  {| max_size := max_size self; programs := programs self;
     _best_program := Some p; _generation := _generation self |}.

(** [add_program]: the updated database and what the call returns.  The
    update of [_best_program] happens before the heap is looked at and
    stays in place when the lookup of [programs[0]] raises. *)
Definition add_program (self : t) (code0 : string) (fitness0 : R)
           (metadata0 : option PyDict) (parent_id0 : option Z)
  : t * Result bool :=
  let metadata0 := match metadata0 with None => [] | Some m => m end in
  let program :=
    {| code := code0; fitness := fitness0; metadata := metadata0;
       generation := _generation self; parent_id := parent_id0 |} in
  let self :=
    if match _best_program self with
       | None => true
       | Some best => float_gt fitness0 (fitness best)
       end
    then set_best_program self program else self in
  if (Z.of_nat (length (programs self)) <? max_size self)%Z then
    (set_programs self (Heapq.heappush Program_lt (programs self) program),
     Ok true)
  else
    match programs self with
    | [] => (self, Raise (mkExc IndexError "list index out of range"))
    | worst :: _ =>
        if float_gt fitness0 (fitness worst) then
          match Heapq.heapreplace Program_lt (programs self) program with
          | Ok (heap, _) => (set_programs self heap, Ok true)
          | Raise e => (self, Raise e)
          end
        else (self, Ok false)
    end.

Definition get_best (self : t) (n : Z) : list Program :=
  let sorted_programs := sorted_reverse fitness (programs self) in
  slice_to sorted_programs n.

Definition get_best_program (self : t) : option Program :=
  _best_program self.

Definition sample_program `{Runtime} (self : t) : M (option Program) :=
  match programs self with
  | [] => ret None
  | _ =>
      let n := Z.max 1 (Z.of_nat (length (programs self)) / 5) in
      let top_programs := get_best self n in
      p <- random_choice top_programs ;;
      ret (Some p)
  end.

Definition increment_generation (self : t) : t :=
  {| max_size := max_size self; programs := programs self;
     _best_program := _best_program self;
     _generation := (_generation self + 1)%Z |}.

(** [get_statistics]: the dictionary, or what a builtin raises while it
    is built. *)
Definition get_statistics (self : t) : Result PyDict :=
  match programs self with
  | [] =>
      Ok [("size", DInt 0); ("generation", DInt (_generation self));
          ("best_fitness", DNone); ("avg_fitness", DNone);
          ("worst_fitness", DNone)]
  | _ =>
      let fitnesses := map fitness (programs self) in
      match py_max fitnesses with
      | Raise e => Raise e
      | Ok best =>
          match py_div_len (py_sum fitnesses) fitnesses with
          | Raise e => Raise e
          | Ok avg =>
              match py_min fitnesses with
              | Raise e => Raise e
              | Ok worst =>
                  Ok [("size", DInt (Z.of_nat (length (programs self))));
                      ("generation", DInt (_generation self));
                      ("best_fitness", DFloat best); ("avg_fitness", DFloat avg);
                      ("worst_fitness", DFloat worst)]
              end
          end
      end
  end.

End ProgramDatabase.

(** ** [environment/predator_prey_env.py] *)

Module Agent.
Record t : Type := mk { x : R; y : R; alive : bool }.

Definition distance_to (self other : t) : R :=
  let dx := x self - x other in
  let dy := y self - y other in
  sqrt (dx ^ 2 + dy ^ 2).

Definition set_position (self : t) (p : R * R) : t :=
  {| x := fst p; y := snd p; alive := alive self |}.

Definition set_alive (self : t) (a : bool) : t :=
  {| x := x self; y := y self; alive := a |}.
End Agent.

(** [min(l, key=key)]: the first item of least key. *)
Fixpoint min_from {A} (key : A -> R) (best : A) (l : list A) : A :=
  match l with
  | [] => best
  | a :: t => if float_lt (key a) (key best) then min_from key a t
              else min_from key best t
  end.

Definition py_min_by {A} (key : A -> R) (l : list A) : Result A :=
  match l with
  | [] => Raise (mkExc ValueError "min() arg is an empty sequence")
  | a :: t => Ok (min_from key a t)
  end.

(** [a / b] on two [int]s. *)
Definition py_true_div (a b : Z) : Result R :=
  if (b =? 0)%Z then Raise (mkExc ZeroDivisionError "division by zero")
  else Ok (IZR a / IZR b).

(** [a % b] on two [int]s. *)
Definition py_mod (a b : Z) : Result Z :=
  if (b =? 0)%Z then Raise (mkExc ZeroDivisionError "integer modulo by zero")
  else Ok (a mod b)%Z.

(** [range(n)] *)
Definition py_range (n : Z) : list Z := map Z.of_nat (seq 0 (Z.to_nat n)).

(** ** Numbers a behaviour returns, and the arithmetic on them *)

(** A [float]: finite, infinite or NaN. *)
Inductive Float : Type :=
| Fin (r : R)
| Inf (negative : bool)
| NaN.

(** A number: an [int] (a [bool] counts as 0 or 1) or a [float]. *)
Inductive Num : Type :=
| NInt (z : Z)
| NFloat (f : Float).

(** The least magnitude that does not round to a finite double,
    [2^1024 - 2^970]: a result of that magnitude or more overflows. *)
Definition float_overflow : R := IZR (2 ^ 1024 - 2 ^ 970).

Definition overflows (r : R) : bool :=
  if Rle_dec float_overflow (Rabs r) then true else false.

(** The greatest magnitude that rounds to zero, [2^-1075]: a result of
    that magnitude or less underflows. *)
Definition float_underflow : R := / IZR (2 ^ 1075).

Definition underflows (r : R) : bool :=
  if Rle_dec (Rabs r) float_underflow then true else false.

(** The float a sum is stored as: the sum itself, or an infinity when it
    overflows (a sum of two doubles does not underflow). *)
Definition round_sum (r : R) : Float :=
  if overflows r then Inf (float_lt r 0) else Fin r.

(** The float a product, a quotient or a power is stored as: the result
    itself, an infinity when it overflows, zero when it underflows. *)
Definition round_float (r : R) : Float :=
  if overflows r then Inf (float_lt r 0)
  else if underflows r then Fin 0
  else Fin r.

(** [a + b] on floats. *)
Definition float_add (a b : Float) : Float :=
  match a, b with
  | NaN, _ | _, NaN => NaN
  | Inf s, Inf s' => if Bool.eqb s s' then Inf s else NaN
  | Inf s, Fin _ | Fin _, Inf s => Inf s
  | Fin x, Fin y => round_sum (x + y)
  end.

(** [a * b] on floats. *)
Definition float_mul (a b : Float) : Float :=
  match a, b with
  | NaN, _ | _, NaN => NaN
  | Inf s, Inf s' => Inf (xorb s s')
  | Inf s, Fin y | Fin y, Inf s =>
      if Req_EM_T y 0 then NaN else Inf (xorb s (float_lt y 0))
  | Fin x, Fin y => round_float (x * y)
  end.

(** [a / b] on floats. *)
Definition float_div (a b : Float) : Result Float :=
  match a, b with
  | _, Fin y =>
      if Req_EM_T y 0 then Raise (mkExc ZeroDivisionError "float division by zero")
      else match a with
           | NaN => Ok NaN
           | Inf s => Ok (Inf (xorb s (float_lt y 0)))
           | Fin x => Ok (round_float (x / y))
           end
  | NaN, _ | _, NaN => Ok NaN
  | Inf _, Inf _ => Ok NaN
  | Fin _, Inf _ => Ok (Fin 0)
  end.

(** [a ** 2] on a float: the power raises where it overflows. *)
Definition float_pow2 (a : Float) : Result Float :=
  match a with
  | Fin x =>
      if overflows (x * x)
      then Raise (mkExc OverflowError "(34, 'Numerical result out of range')")
      else Ok (round_float (x * x))
  | Inf _ => Ok (Inf false)
  | NaN => Ok NaN
  end.

(** [math.sqrt(a)] on a float. *)
Definition float_sqrt (a : Float) : Result Float :=
  match a with
  | Fin x => if float_lt x 0 then Raise (mkExc ValueError "math domain error")
             else Ok (Fin (sqrt x))
  | Inf false => Ok (Inf false)
  | Inf true => Raise (mkExc ValueError "math domain error")
  | NaN => Ok NaN
  end.

(** [a > 0] on a float: no comparison with NaN holds. *)
Definition float_gt0 (a : Float) : bool :=
  match a with
  | Fin x => float_gt x 0
  | Inf s => negb s
  | NaN => false
  end.

(** The float an [int] is converted to when it meets a float. *)
Definition to_float (n : Num) : Result Float :=
  match n with
  | NInt z =>
      if overflows (IZR z)
      then Raise (mkExc OverflowError "int too large to convert to float")
      else Ok (Fin (IZR z))
  | NFloat f => Ok f
  end.

(** [a ** 2] on a number: exact on an [int]. *)
Definition py_pow2 (a : Num) : Result Num :=
  match a with
  | NInt z => Ok (NInt (z * z))
  | NFloat f => match float_pow2 f with
                | Ok f2 => Ok (NFloat f2)
                | Raise e => Raise e
                end
  end.

(** [a + b] on numbers. *)
Definition py_add (a b : Num) : Result Num :=
  match a, b with
  | NInt x, NInt y => Ok (NInt (x + y))
  | _, _ =>
      match to_float a with
      | Raise e => Raise e
      | Ok fa => match to_float b with
                 | Raise e => Raise e
                 | Ok fb => Ok (NFloat (float_add fa fb))
                 end
      end
  end.

(** [math.sqrt(a)] on a number. *)
Definition math_sqrt (a : Num) : Result Float :=
  match to_float a with
  | Raise e => Raise e
  | Ok f => float_sqrt f
  end.

(** [a / b] for a number and a float. *)
Definition py_truediv (a : Num) (b : Float) : Result Float :=
  match to_float a with
  | Raise e => Raise e
  | Ok fa => float_div fa b
  end.

(** [a + b] for a float and a number. *)
Definition py_add_float (a : Float) (b : Num) : Result Float :=
  match to_float b with
  | Raise e => Raise e
  | Ok fb => Ok (float_add a fb)
  end.

(** [max(0, min(bound, v))] for a finite [bound].  [min(bound, v)] is [v]
    when [v < bound] and [bound] otherwise, and [max(0, m)] is [m] when
    [m > 0] and [0] otherwise; no comparison with NaN holds. *)
Definition clip_coordinate (bound : R) (v : Float) : R :=
  match v with
  | Fin x => Rmax 0 (Rmin bound x)
  | Inf true => 0
  | Inf false | NaN => Rmax 0 bound
  end.

(** [dx, dy = v] *)
Definition unpack_pair (v : PyVal) : Result (PyVal * PyVal) :=
  match v with
  | PyTuple [a; b] | PyList [a; b] | PyKeys [a; b] => Ok (a, b)
  | PyStr (String a (String b EmptyString)) =>
      Ok (PyStr (String a EmptyString), PyStr (String b EmptyString))
  | PyBytes [a; b] => Ok (PyInt a, PyInt b)
  | PyTuple _ | PyList _ | PyKeys _ | PyStr _ | PyBytes _ =>
      Raise (mkExc ValueError "wrong number of values to unpack (expected 2)")
  | PyNone | PyBool _ | PyInt _ | PyFloat _ | PyInf _ | PyNan =>
      Raise (mkExc TypeError "cannot unpack non-iterable object")
  end.

(** The operand of [** 2]: a number, or [TypeError]. *)
Definition as_number (v : PyVal) : Result Num :=
  match v with
  | PyBool b => Ok (NInt (Z.b2z b))
  | PyInt z => Ok (NInt z)
  | PyFloat r => Ok (NFloat (Fin r))
  | PyInf s => Ok (NFloat (Inf s))
  | PyNan => Ok (NFloat NaN)
  | PyNone | PyStr _ | PyBytes _ | PyTuple _ | PyList _ | PyKeys _ =>
      Raise (mkExc TypeError "unsupported operand type(s) for ** or pow()")
  end.

(** Sequencing of computations that may raise and leave the world
    alone. *)
Definition rbind {A B} (r : Result A) (k : A -> Result B) : Result B :=
  match r with
  | Ok a => k a
  | Raise e => Raise e
  end.

(** [sum(1 for m in mice if m.alive)] *)
Definition count_alive (mice : list Agent.t) : Z :=
  Z.of_nat (length (filter Agent.alive mice)).

Module PredatorPreyEnvironment.

Record t : Type := mk {
  width : R;
  height : R;
  num_mice : Z;
  num_predators : Z;
  max_steps : Z;
  predator_speed : R;
  mouse_speed : R;
  capture_distance : R
}.

(** The defaults of [__init__]. *)
Definition default : t :=
  {| width := 100; height := 100; num_mice := 5; num_predators := 2;
     max_steps := 200; predator_speed := 1.5; mouse_speed := 1;
     capture_distance := 2 |}.

(** The locals of [run_simulation] that the loop changes. *)
Record SimState : Type := mkSim {
  mice : list Agent.t;
  predators : list Agent.t;
  total_survival_steps : Z;
  total_distance_score : R
}.

(** A frame of [visualize_simulation]: the step, [(x, y, alive)] for each
    mouse and [(x, y)] for each predator. *)
Record Frame : Type := mkFrame {
  frame_step : Z;
  frame_mice : list (R * R * bool);
  frame_predators : list (R * R)
}.

Definition _clip_position (self : t) (x y : Float) : R * R :=
  (clip_coordinate (width self) x, clip_coordinate (height self) y).

(** The statements of the [try] after the call: the direction is
    unpacked, normalised, scaled by the speed, added to the position and
    clipped. *)
Definition apply_direction (self : t) (mouse : Agent.t) (v : PyVal)
  : Result Agent.t :=
  rbind (unpack_pair v) (fun '(dx, dy) =>
  rbind (as_number dx) (fun dx =>
  rbind (py_pow2 dx) (fun dx2 =>
  rbind (as_number dy) (fun dy =>
  rbind (py_pow2 dy) (fun dy2 =>
  rbind (py_add dx2 dy2) (fun total =>
  rbind (math_sqrt total) (fun distance =>
  rbind (if float_gt0 distance then
           rbind (py_truediv dx distance) (fun qx =>
           rbind (py_truediv dy distance) (fun qy =>
           Ok (NFloat (float_mul qx (Fin (mouse_speed self))),
               NFloat (float_mul qy (Fin (mouse_speed self))))))
         else Ok (dx, dy)) (fun '(dx, dy) =>
  rbind (py_add_float (Fin (Agent.x mouse)) dx) (fun x' =>
  rbind (py_add_float (Fin (Agent.y mouse)) dy) (fun y' =>
  Ok (Agent.set_position mouse (_clip_position self x' y')))))))))))).

Definition _predator_behavior (predator : Agent.t) (mice : list Agent.t) : R * R :=
  let alive_mice := filter Agent.alive mice in
  match alive_mice with
  | [] => (0, 0)
  | m0 :: rest =>
      let nearest_mouse := min_from (fun m => Agent.distance_to predator m) m0 rest in
      let dx := Agent.x nearest_mouse - Agent.x predator in
      let dy := Agent.y nearest_mouse - Agent.y predator in
      let distance := sqrt (dx ^ 2 + dy ^ 2) in
      if float_gt distance 0 then (dx / distance, dy / distance) else (0, 0)
  end.

Section WithRuntime.
Context `{Runtime}.

(** One of the two loops of [_initialize_agents]. *)
Fixpoint spawn_agents (self : t) (n : nat) : M (list Agent.t) :=
  match n with
  | O => ret []
  | S n' =>
      x <- random_uniform 0 (width self) ;;
      y <- random_uniform 0 (height self) ;;
      rest <- spawn_agents self n' ;;
      ret ({| Agent.x := x; Agent.y := y; Agent.alive := true |} :: rest)
  end.

Definition _initialize_agents (self : t) : M (list Agent.t * list Agent.t) :=
  mice <- spawn_agents self (Z.to_nat (num_mice self)) ;;
  predators <- spawn_agents self (Z.to_nat (num_predators self)) ;;
  ret (mice, predators).

(** The [try] statement of the loop over the mice: the mouse after
    it. *)
Definition try_move (self : t) (mouse_behavior : Behavior) (state : StateDict)
           (mouse nearest_predator : Agent.t) : M Agent.t :=
  try_except_Exception
    (let mouse_pos := (Agent.x mouse, Agent.y mouse) in
     let predator_pos := (Agent.x nearest_predator, Agent.y nearest_predator) in
     v <- mouse_behavior state mouse_pos predator_pos ;;
     lift (apply_direction self mouse v))
    (fun _ => ret mouse).

(** The loop over the mice, with the two running totals. *)
Fixpoint update_mice (self : t) (mouse_behavior : Behavior) (state : StateDict)
         (predators : list Agent.t) (mice : list Agent.t) (totals : Z * R)
  : M (list Agent.t * (Z * R)) :=
  match mice with
  | [] => ret ([], totals)
  | mouse :: rest =>
      if negb (Agent.alive mouse) then
        ' (rest', totals') <- update_mice self mouse_behavior state predators rest totals ;;
        ret (mouse :: rest', totals')
      else
        nearest_predator <-
          lift (py_min_by (fun p => Agent.distance_to mouse p) predators) ;;
        mouse' <- try_move self mouse_behavior state mouse nearest_predator ;;
        let totals' := ((fst totals + 1)%Z,
                        snd totals + Agent.distance_to mouse' nearest_predator) in
        ' (rest', totals'') <-
          update_mice self mouse_behavior state predators rest totals' ;;
        ret (mouse' :: rest', totals'')
  end.

(** The loop over the predators. *)
Definition update_predators (self : t) (mice predators : list Agent.t)
  : list Agent.t :=
  map (fun predator =>
         let '(dx, dy) := _predator_behavior predator mice in
         Agent.set_position predator
           (_clip_position self
              (Fin (Agent.x predator + dx * predator_speed self))
              (Fin (Agent.y predator + dy * predator_speed self))))
      predators.

(** The two nested loops that check for captures. *)
Definition check_captures (self : t) (mice predators : list Agent.t)
  : list Agent.t :=
  fold_left
    (fun mice predator =>
       map (fun mouse =>
              if Agent.alive mouse
                 && float_lt (Agent.distance_to predator mouse) (capture_distance self)
              then Agent.set_alive mouse false else mouse)
           mice)
    predators mice.

(** The body of the [for step] loop, up to the [break] test. *)
Definition step_body (self : t) (mouse_behavior : Behavior) (step : Z)
           (s : SimState) : M SimState :=
  let state := {| st_step := step; st_width := width self;
                  st_height := height self;
                  st_num_alive := count_alive (mice s) |} in
  ' (mice1, totals) <-
    update_mice self mouse_behavior state (predators s) (mice s)
                (total_survival_steps s, total_distance_score s) ;;
  let predators1 := update_predators self mice1 (predators s) in
  let mice2 := check_captures self mice1 predators1 in
  ret {| mice := mice2; predators := predators1;
         total_survival_steps := fst totals;
         total_distance_score := snd totals |}.

(** The [for step in range(self.max_steps)] loop with its [break]. *)
Fixpoint run_steps (self : t) (mouse_behavior : Behavior) (steps : list Z)
         (s : SimState) : M SimState :=
  match steps with
  | [] => ret s
  | step :: rest =>
      s' <- step_body self mouse_behavior step s ;;
      if negb (existsb Agent.alive (mice s')) then ret s'
      else run_steps self mouse_behavior rest s'
  end.

(** The statements after the loop. *)
Definition fitness_of (self : t) (s : SimState) : M R :=
  avg_survival <-
    lift (py_true_div (total_survival_steps s) (num_mice self * max_steps self)) ;;
  let avg_distance :=
    total_distance_score s / IZR (Z.max 1 (total_survival_steps s)) in
  final_alive <- lift (py_true_div (count_alive (mice s)) (num_mice self)) ;;
  let fitness := (avg_survival * 100) + (avg_distance * 0.5) + (final_alive * 50) in
  ret fitness.

(** The state when the loop is left. *)
Definition simulate (self : t) (mouse_behavior : Behavior) : M SimState :=
  ' (mice, predators) <- _initialize_agents self ;;
  run_steps self mouse_behavior (py_range (max_steps self))
            {| mice := mice; predators := predators;
               total_survival_steps := 0; total_distance_score := 0 |}.

Definition run_simulation (self : t) (mouse_behavior : Behavior) : M R :=
  s <- simulate self mouse_behavior ;;
  fitness_of self s.

(** The loop over the mice of [visualize_simulation]: the same [try]
    statement, no running totals. *)
Fixpoint move_mice (self : t) (mouse_behavior : Behavior) (state : StateDict)
         (predators : list Agent.t) (mice : list Agent.t) : M (list Agent.t) :=
  match mice with
  | [] => ret []
  | mouse :: rest =>
      if negb (Agent.alive mouse) then
        rest' <- move_mice self mouse_behavior state predators rest ;;
        ret (mouse :: rest')
      else
        nearest_predator <-
          lift (py_min_by (fun p => Agent.distance_to mouse p) predators) ;;
        mouse' <- try_move self mouse_behavior state mouse nearest_predator ;;
        rest' <- move_mice self mouse_behavior state predators rest ;;
        ret (mouse' :: rest')
  end.

(** The frame [visualize_simulation] records at the start of a step. *)
Definition frame_of (step : Z) (mice predators : list Agent.t) : Frame :=
  {| frame_step := step;
     frame_mice := map (fun m => (Agent.x m, Agent.y m, Agent.alive m)) mice;
     frame_predators := map (fun p => (Agent.x p, Agent.y p)) predators |}.

(** The [for step in range(steps)] loop of [visualize_simulation]. *)
Fixpoint record_steps (self : t) (mouse_behavior : Behavior) (steps : list Z)
         (mice predators : list Agent.t) (frames : list Frame) : M (list Frame) :=
  match steps with
  | [] => ret frames
  | step :: rest =>
      let frames := frames ++ [frame_of step mice predators] in
      let state := {| st_step := step; st_width := width self;
                      st_height := height self;
                      st_num_alive := count_alive mice |} in
      mice1 <- move_mice self mouse_behavior state predators mice ;;
      let predators1 := update_predators self mice1 predators in
      let mice2 := check_captures self mice1 predators1 in
      if negb (existsb Agent.alive mice2) then ret frames
      else record_steps self mouse_behavior rest mice2 predators1 frames
  end.

Definition visualize_simulation (self : t) (mouse_behavior : Behavior)
           (steps : option Z) : M (list Frame) :=
  let steps := match steps with None => max_steps self | Some n => n end in
  ' (mice, predators) <- _initialize_agents self ;;
  record_steps self mouse_behavior (py_range steps) mice predators [].
End WithRuntime.

End PredatorPreyEnvironment.

(** ** [core/evaluator.py] *)

(** [name in local_scope] and [local_scope[name]] *)
Fixpoint scope_get {V : Type} (scope : list (string * V)) (name : string) : option V :=
  match scope with
  | [] => None
  | (k, v) :: rest => if String.eqb name k then Some v else scope_get rest name
  end.

Module Evaluator.
Section WithRuntime.
Context `{Runtime}.

Record t : Type := mk { environment : PredatorPreyEnvironment.t }.

(** The [for _ in range(num_trials)] loop. *)
Fixpoint run_trials (self : t) (behavior_fn : Behavior) (n : nat) : M (list R) :=
  match n with
  | O => ret []
  | S n' =>
      score <- PredatorPreyEnvironment.run_simulation (environment self) behavior_fn ;;
      scores <- run_trials self behavior_fn n' ;;
      ret (score :: scores)
  end.

(** The body of the [try] statement of [evaluate]. *)
Definition evaluate_body (self : t) (program_code : string) (num_trials : Z)
  : M (R * PyDict) :=
  local_scope <- py_exec program_code ;;
  match scope_get local_scope "mice_behavior" with
  | None => ret (-1.0, [("error", DStr "No mice_behavior function found")])
  | Some behavior_fn =>
      scores <- run_trials self behavior_fn (Z.to_nat num_trials) ;;
      avg_score <- lift (py_div_len (py_sum scores) scores) ;;
      min_score <- lift (py_min scores) ;;
      max_score <- lift (py_max scores) ;;
      let metadata :=
        [("trials", DInt num_trials); ("scores", DFloats scores);
         ("avg_score", DFloat avg_score); ("min_score", DFloat min_score);
         ("max_score", DFloat max_score)] in
      ret (avg_score, metadata)
  end.

Definition evaluate (self : t) (program_code : string) (num_trials : Z)
  : M (R * PyDict) :=
  try_except_Exception
    (evaluate_body self program_code num_trials)
    (fun e =>
       msg <- py_str_exc e ;;
       ret (-1.0, [("error", DStr msg); ("traceback", DStr (format_exc e))])).

(** [is_valid]: the bare [except] catches whatever [compile] raises. *)
Definition is_valid (self : t) (program_code : string) : bool :=
  match py_compile program_code with
  | Ok _ => true
  | Raise _ => false
  end.
End WithRuntime.
End Evaluator.

(** ** [core/sampler.py] *)

Module Sampler.
Record t : Type := mk {
  model_name : string;
  temperature : R;
  _use_mock : bool
}.

Definition __init__ (model_name : string) (temperature : R) : t :=
  {| model_name := model_name; temperature := temperature; _use_mock := true |}.

(** The three programs of [_mock_sample]. *)
Definition behaviors : list string :=
  ["def mice_behavior(state, mice_pos, predator_pos):
    # Move away from predator
    dx = mice_pos[0] - predator_pos[0]
    dy = mice_pos[1] - predator_pos[1]
    distance = (dx**2 + dy**2)**0.5
    if distance > 0:
        return (dx/distance, dy/distance)
    return (0, 0)
";
   "def mice_behavior(state, mice_pos, predator_pos):
    # Zigzag pattern when close to predator
    dx = mice_pos[0] - predator_pos[0]
    dy = mice_pos[1] - predator_pos[1]
    distance = (dx**2 + dy**2)**0.5
    if distance < 5:
        return (dy/distance, -dx/distance)
    elif distance > 0:
        return (dx/distance, dy/distance)
    return (0, 0)
";
   "def mice_behavior(state, mice_pos, predator_pos):
    # Move toward edges when threatened
    dx = mice_pos[0] - predator_pos[0]
    dy = mice_pos[1] - predator_pos[1]
    distance = (dx**2 + dy**2)**0.5
    if distance < 10:
        edge_x = 1 if mice_pos[0] < 50 else -1
        edge_y = 1 if mice_pos[1] < 50 else -1
        return (edge_x, edge_y)
    return (0, 0)
"].

Section WithRuntime.
Context `{Runtime}.

Definition _mock_sample (self : t) (prompt : string)
           (context : option (list string)) : M string :=
  random_choice behaviors.

Definition sample (self : t) (prompt : string)
           (context : option (list string)) : M string :=
  if _use_mock self then _mock_sample self prompt context
  else raise (mkExc NotImplementedError "Real LLM integration not yet implemented").
End WithRuntime.

Definition set_mock_mode (self : t) (use_mock : bool) : t :=
  {| model_name := model_name self; temperature := temperature self;
     _use_mock := use_mock |}.
End Sampler.

(** ** [funsearch.py] *)

(** A float or [-float('inf')]. *)
Inductive ExtFloat : Type :=
| NegInf
| Finite (r : R).

(** [a > b] for a float [a]. *)
Definition float_gt_ext (a : R) (b : ExtFloat) : bool :=
  match b with
  | NegInf => true
  | Finite r => float_gt a r
  end.

Module FunSearch.

Record Stats : Type := mkStats {
  total_samples : Z;
  valid_samples : Z;
  accepted_samples : Z;
  best_fitness : ExtFloat
}.

(** The calls an iteration makes on the sampler, the evaluator and the
    database, in order: a record kept beside the state, which the code
    does not keep. *)
Inductive Call : Type :=
| CallSampleProgram
| CallSample (context : option (list string))
| CallIsValid (program_code : string)
| CallEvaluate (program_code : string)
| CallAddProgram (program_code : string) (fitness : R).

Definition prompt : string :=
  "Generate a Python function named 'mice_behavior' that controls how mice move
in a predator-prey environment. The function should take three arguments:
- state: dict with 'step', 'width', 'height', 'num_alive'
- mouse_pos: tuple (x, y) of the mouse position
- predator_pos: tuple (x, y) of the nearest predator position

The function should return a tuple (dx, dy) indicating the direction to move.
Create a clever strategy to avoid predators and survive as long as possible.".

Section WithRuntime.
Context `{Runtime}.

(** The [sampler] argument: any object with a [sample] method. *)
Record SamplerObj : Type := mkSampler {
  sampler_sample : string -> option (list string) -> M string
}.

Definition of_Sampler (s : Sampler.t) : SamplerObj :=
  {| sampler_sample := Sampler.sample s |}.

Record t : Type := mk {
  environment : PredatorPreyEnvironment.t;
  sampler : SamplerObj;
  evaluator : Evaluator.t;
  database : ProgramDatabase.t;
  verbose : bool;
  stats : Stats
}.

Definition __init__ (environment : option PredatorPreyEnvironment.t)
           (sampler : option SamplerObj) (max_programs : Z) (verbose : bool) : t :=
  let environment :=
    match environment with Some e => e | None => PredatorPreyEnvironment.default end in
  {| environment := environment;
     sampler := match sampler with
                | Some s => s
                | None => of_Sampler (Sampler.__init__ "gpt-3.5-turbo" 0.8)
                end;
     evaluator := {| Evaluator.environment := environment |};
     database := ProgramDatabase.__init__ max_programs;
     verbose := verbose;
     stats := {| total_samples := 0; valid_samples := 0;
                 accepted_samples := 0; best_fitness := NegInf |} |}.

Definition set_stats (self : t) (s : Stats) : t :=
  {| environment := environment self; sampler := sampler self;
     evaluator := evaluator self; database := database self;
     verbose := verbose self; stats := s |}.

Definition set_database (self : t) (db : ProgramDatabase.t) : t :=
  {| environment := environment self; sampler := sampler self;
     evaluator := evaluator self; database := db;
     verbose := verbose self; stats := stats self |}.

(** [self.stats['total_samples'] += 1] and its two siblings. *)
Definition incr_total_samples (self : t) : t :=
  set_stats self
    {| total_samples := (total_samples (stats self) + 1)%Z;
       valid_samples := valid_samples (stats self);
       accepted_samples := accepted_samples (stats self);
       best_fitness := best_fitness (stats self) |}.

Definition incr_valid_samples (self : t) : t :=
  set_stats self
    {| total_samples := total_samples (stats self);
       valid_samples := (valid_samples (stats self) + 1)%Z;
       accepted_samples := accepted_samples (stats self);
       best_fitness := best_fitness (stats self) |}.

Definition incr_accepted_samples (self : t) : t :=
  set_stats self
    {| total_samples := total_samples (stats self);
       valid_samples := valid_samples (stats self);
       accepted_samples := (accepted_samples (stats self) + 1)%Z;
       best_fitness := best_fitness (stats self) |}.

Definition set_best_fitness (self : t) (f : R) : t :=
  set_stats self
    {| total_samples := total_samples (stats self);
       valid_samples := valid_samples (stats self);
       accepted_samples := accepted_samples (stats self);
       best_fitness := Finite f |}.

(** [run_iteration]: the object after the call, the calls made, and
    the dictionary returned or the exception raised.  What the call
    changed in [self] before an exception stays changed.  Printing is
    left out. *)
Definition run_iteration (self : t) (w : World)
  : (t * list Call * Result PyDict) * World :=
  match ProgramDatabase.sample_program (database self) w with
  | (Raise e, w1) => ((self, [CallSampleProgram], Raise e), w1)
  | (Ok parent_program, w1) =>
      let context := match parent_program with
                     | Some p => Some [code p]
                     | None => None
                     end in
      match sampler_sample (sampler self) prompt context w1 with
      | (Raise e, w2) =>
          ((self, [CallSampleProgram; CallSample context], Raise e), w2)
      | (Ok new_program, w2) =>
          let self := incr_total_samples self in
          if negb (Evaluator.is_valid (evaluator self) new_program) then
            ((self,
              [CallSampleProgram; CallSample context; CallIsValid new_program],
              Ok [("success", DBool false); ("reason", DStr "invalid_syntax");
                  ("fitness", DFloat (-1.0))]), w2)
          else
            let self := incr_valid_samples self in
            match Evaluator.evaluate (evaluator self) new_program 10 w2 with
            | (Raise e, w3) =>
                ((self,
                  [CallSampleProgram; CallSample context; CallIsValid new_program;
                   CallEvaluate new_program], Raise e), w3)
            | (Ok (fitness, metadata), w3) =>
                let calls :=
                  [CallSampleProgram; CallSample context; CallIsValid new_program;
                   CallEvaluate new_program; CallAddProgram new_program fitness] in
                let parent_id := match parent_program with
                                 | Some p => Some (py_id p)
                                 | None => None
                                 end in
                let '(db, accepted) :=
                  ProgramDatabase.add_program (database self) new_program fitness
                                              (Some metadata) parent_id in
                let self := set_database self db in
                match accepted with
                | Raise e => ((self, calls, Raise e), w3)
                | Ok accepted =>
                    let self :=
                      if accepted then incr_accepted_samples self else self in
                    let self :=
                      if float_gt_ext fitness (best_fitness (stats self))
                      then set_best_fitness self fitness else self in
                    ((self, calls,
                      Ok [("success", DBool true); ("accepted", DBool accepted);
                          ("fitness", DFloat fitness);
                          ("metadata", DDict metadata)]), w3)
                end
            end
      end
  end.

(** [get_best_program] *)
Definition get_best_program (self : t) : option string :=
  match ProgramDatabase.get_best_program (database self) with
  | Some best => Some (code best)
  | None => None
  end.

(** [initialize_with_seed]: the object after the call and whether the
    call raised.  Printing is left out. *)
Definition initialize_with_seed (self : t) (seed_program : string) (w : World)
  : (t * Result unit) * World :=
  match Evaluator.evaluate (evaluator self) seed_program 10 w with
  | (Raise e, w1) => ((self, Raise e), w1)
  | (Ok (fitness, metadata), w1) =>
      let '(db, added) :=
        ProgramDatabase.add_program (database self) seed_program fitness
                                    (Some metadata) None in
      let self := set_database self db in
      match added with
      | Raise e => ((self, Raise e), w1)
      | Ok _ => ((set_best_fitness self fitness, Ok tt), w1)
      end
  end.

(** The progress report of [run], as far as it can raise: the average
    fitness is formatted with [:.2f], which a float accepts and [None]
    does not. *)
Definition log_progress (self : t) : Result unit :=
  match ProgramDatabase.get_statistics (database self) with
  | Raise e => Raise e
  | Ok db_stats =>
      match dict_get db_stats "avg_fitness" with
      | Some (DFloat _) => Ok tt
      | _ => Raise (mkExc TypeError
                      "unsupported format string passed to NoneType.__format__")
      end
  end.

(** The [for iteration in range(num_iterations)] loop of [run]. *)
Fixpoint run_loop (self : t) (log_interval : Z) (iterations : list Z) (w : World)
  : (t * Result unit) * World :=
  match iterations with
  | [] => ((self, Ok tt), w)
  | iteration :: rest =>
      match run_iteration self w with
      | ((self, _, Raise e), w1) => ((self, Raise e), w1)
      | ((self, _, Ok result), w1) =>
          let logged :=
            if verbose self then
              match py_mod (iteration + 1) log_interval with
              | Raise e => Raise e
              | Ok r => if (r =? 0)%Z then log_progress self else Ok tt
              end
            else Ok tt in
          match logged with
          | Raise e => ((self, Raise e), w1)
          | Ok _ =>
              run_loop
                (set_database self
                   (ProgramDatabase.increment_generation (database self)))
                log_interval rest w1
          end
      end
  end.

Definition run (self : t) (num_iterations log_interval : Z) (w : World)
  : (t * Result unit) * World :=
  run_loop self log_interval (py_range num_iterations) w.
End WithRuntime.
End FunSearch.

(** ** Specification vocabulary for the heap *)

(** The parent of array position [i], as [_siftdown] computes it. *)
Definition parent (i : nat) : nat := Nat.shiftr (i - 1) 1.

Section HeapSpec.
Context {A : Type} (key : A -> R).

(** The item at [i] is not below its parent. *)
Definition edge_ok (h : list A) (i : nat) : Prop :=
  forall x p, (0 < i)%nat ->
    nth_error h i = Some x -> nth_error h (parent i) = Some p ->
    key p <= key x.

Definition heap_ordered (h : list A) : Prop := forall i, edge_ok h i.

(** The children of [pos] are not below the parent of [pos]. *)
Definition bridge_ok (h : list A) (pos : nat) : Prop :=
  forall c x g, (0 < pos)%nat -> (0 < c)%nat -> parent c = pos ->
    nth_error h c = Some x -> nth_error h (parent pos) = Some g ->
    key g <= key x.

(** Heap order everywhere but on the edge into [pos]. *)
Definition hole_up (h : list A) (pos : nat) : Prop :=
  (forall i, i <> pos -> edge_ok h i) /\ bridge_ok h pos.

(** Heap order everywhere but on the edges into and out of [pos]. *)
Definition hole_down (h : list A) (pos : nat) : Prop :=
  (forall i, i <> pos -> parent i <> pos -> edge_ok h i) /\ bridge_ok h pos.
End HeapSpec.

(** ** Specification vocabulary for the population store *)

(** The calls that change a [ProgramDatabase]. *)
Inductive db_op : Type :=
| AddProgram (code : string) (fitness : R) (metadata : option PyDict)
             (parent_id : option Z)
| IncrementGeneration.

Definition apply_op (db : ProgramDatabase.t) (op : db_op) : ProgramDatabase.t :=
  match op with
  | AddProgram c f m p => fst (ProgramDatabase.add_program db c f m p)
  | IncrementGeneration => ProgramDatabase.increment_generation db
  end.

Definition run_ops (db : ProgramDatabase.t) (ops : list db_op) : ProgramDatabase.t :=
  fold_left apply_op ops db.

(** [get_best_program().fitness], when there is a best program. *)
Definition best_fitness (db : ProgramDatabase.t) : option R :=
  option_map fitness (ProgramDatabase.get_best_program db).

(** Order on optional fitness values: no value is below every value. *)
Definition opt_le (a b : option R) : Prop :=
  match a, b with
  | None, _ => True
  | Some _, None => False
  | Some x, Some y => x <= y
  end.

(** [min(m.fitness for m in members)] and [max(...)], when there are members. *)
Fixpoint min_fitness (l : list Program) : option R :=
  match l with
  | [] => None
  | p :: t => match min_fitness t with
              | None => Some (fitness p)
              | Some m => Some (Rmin (fitness p) m)
              end
  end.

Fixpoint max_fitness (l : list Program) : option R :=
  match l with
  | [] => None
  | p :: t => match max_fitness t with
              | None => Some (fitness p)
              | Some m => Some (Rmax (fitness p) m)
              end
  end.

(** The [Program] object an [add_program] call builds. *)
Definition new_program (db : ProgramDatabase.t) (c : string) (f : R)
           (m : option PyDict) (p : option Z) : Program :=
  {| code := c; fitness := f;
     metadata := match m with None => [] | Some d => d end;
     generation := ProgramDatabase._generation db; parent_id := p |}.

(** The acceptance rule in the words of the specification: below capacity
    the candidate is inserted; at capacity a candidate above the minimum
    member fitness takes the place of a minimum-fitness member; otherwise
    the call returns false and the members stay as they are. *)
Definition acceptance_rule (db : ProgramDatabase.t) (c : string) (f : R)
           (m : option PyDict) (p : option Z) : Prop :=
  let '(db', r) := ProgramDatabase.add_program db c f m p in
  let members := ProgramDatabase.programs db in
  let members' := ProgramDatabase.programs db' in
  if (Z.of_nat (length members) <? ProgramDatabase.max_size db)%Z then
    r = Ok true /\ Permutation members' (new_program db c f m p :: members)
  else
    match min_fitness members with
    | Some mn =>
        if float_gt f mn then
          r = Ok true /\
          exists evicted, In evicted members /\ fitness evicted = mn /\
            Permutation (evicted :: members') (new_program db c f m p :: members)
        else r = Ok false /\ members' = members
    | None => r = Ok false /\ members' = members
    end.

(** The member an [add_program] call evicts, if it evicts one. *)
Definition evicted_by (db : ProgramDatabase.t) (f : R) : option Program :=
  if (Z.of_nat (length (ProgramDatabase.programs db)) <? ProgramDatabase.max_size db)%Z
  then None
  else match ProgramDatabase.programs db with
       | worst :: _ => if float_gt f (fitness worst) then Some worst else None
       | [] => None
       end.

(** A run of calls that also remembers the member most recently evicted. *)
Definition apply_op_tracking (s : ProgramDatabase.t * option Program) (op : db_op)
  : ProgramDatabase.t * option Program :=
  let '(db, last) := s in
  match op with
  | AddProgram c f m p =>
      (apply_op db op,
       match evicted_by db f with Some e => Some e | None => last end)
  | IncrementGeneration => (apply_op db op, last)
  end.

Definition run_ops_tracking (db : ProgramDatabase.t) (ops : list db_op)
  : ProgramDatabase.t * option Program :=
  fold_left apply_op_tracking ops (db, None).

(** The database after the first statement of [add_program], the update
    of [_best_program]. *)
Definition with_best_updated (db : ProgramDatabase.t) (program : Program)
  : ProgramDatabase.t :=
  if match ProgramDatabase._best_program db with
     | None => true
     | Some best => float_gt (fitness program) (fitness best)
     end
  then ProgramDatabase.set_best_program db program else db.

(** What holds of every database built by the constructor and changed by
    its methods only. *)
Record db_inv (db : ProgramDatabase.t) : Prop := {
  inv_heap : heap_ordered fitness (ProgramDatabase.programs db);
  inv_size : (Z.of_nat (length (ProgramDatabase.programs db))
              <= Z.max 0 (ProgramDatabase.max_size db))%Z;
  inv_best : forall p, In p (ProgramDatabase.programs db) ->
             exists b, ProgramDatabase._best_program db = Some b /\
                       fitness p <= fitness b
}.

(** The member most recently evicted is not above any member. *)
Definition track_inv (s : ProgramDatabase.t * option Program) : Prop :=
  db_inv (fst s) /\
  forall e, snd s = Some e ->
    (ProgramDatabase.max_size (fst s)
     <= Z.of_nat (length (ProgramDatabase.programs (fst s))))%Z /\
    forall q, In q (ProgramDatabase.programs (fst s)) -> fitness e <= fitness q.

(** The list [sample_program] hands to [random.choice]. *)
Definition sample_pool (db : ProgramDatabase.t) : list Program :=
  ProgramDatabase.get_best db
    (Z.max 1 (Z.of_nat (length (ProgramDatabase.programs db)) / 5)).

(** The size of the pool as the specification words it, [ceil(size / 5)]. *)
Definition ceil_fifth (size : nat) : nat := ((size + 4) / 5)%nat.

(** The size of the pool as the code computes it, [max(1, size // 5)]. *)
Definition floor_fifth_min1 (size : nat) : nat := Nat.max 1 (size / 5).

(** Descending fitness. *)
Definition fitness_ge (a b : Program) : Prop := fitness b <= fitness a.

(** Six candidates entered into a store of capacity ten. *)
Definition six_adds : list db_op :=
  [AddProgram "p1" 1 None None; AddProgram "p2" 2 None None;
   AddProgram "p3" 3 None None; AddProgram "p4" 4 None None;
   AddProgram "p5" 5 None None; AddProgram "p6" 6 None None].

Definition db_six : ProgramDatabase.t := run_ops (ProgramDatabase.__init__ 10) six_adds.

(** ** Specification vocabulary for the simulation *)






(** The predator [min] picks for a mouse. *)
Definition nearest_predator_of (mouse : Agent.t) (predators : list Agent.t) : Agent.t :=
  match predators with
  | [] => mouse
  | p :: t => min_from (fun p => Agent.distance_to mouse p) p t
  end.

(** Over the prey alive at the start of a step, the sum of the distances
    from where each stands after its move to its nearest predator. *)
Fixpoint distance_sum (predators mice moved : list Agent.t) : R :=
  match mice, moved with
  | m :: t, m' :: t' =>
      (if Agent.alive m
       then Agent.distance_to m' (nearest_predator_of m predators) else 0)
      + distance_sum predators t t'
  | _, _ => 0
  end.

(** What one executed step of a trial looked like: the agents at its
    start and the prey after the loop over the mice. *)
Record StepRecord : Type := mkStepRecord {
  rec_step : Z;
  rec_mice : list Agent.t;
  rec_predators : list Agent.t;
  rec_moved : list Agent.t
}.

Definition survival_steps_of (trace : list StepRecord) : Z :=
  fold_right (fun r acc => (count_alive (rec_mice r) + acc)%Z) 0%Z trace.

Definition distance_score_of (trace : list StepRecord) : R :=
  fold_right
    (fun r acc => distance_sum (rec_predators r) (rec_mice r) (rec_moved r) + acc)
    0 trace.

Section SimulationSpec.
Context `{Runtime}.
Import PredatorPreyEnvironment.

(** A behaviour that raises nothing but errors. *)
Definition raises_only_errors (b : Behavior) : Prop :=
  forall st mp pp w e w', b st mp pp w = (Raise e, w') -> is_Exception e = true.

(** A deterministic behaviour: a function of its arguments that leaves
    the world alone. *)
Definition deterministic (b : Behavior) : Prop :=
  exists f, forall st mp pp w, b st mp pp w = (f st mp pp, w).

(** The world after [k] calls of [random.random()], and the value the
    next call returns. *)
Definition world_after (k : nat) (w : World) : World :=
  Nat.iter k (fun w => snd (random_random w)) w.

Definition draw (w : World) (k : nat) : R := fst (random_random (world_after k w)).

(** Two worlds in which [random.random()] returns the same values. *)
Definition same_draws (w1 w2 : World) : Prop := forall k, draw w1 k = draw w2 k.




(** The records of the steps the loop of [run_simulation] executes. *)
Fixpoint steps_trace (self : t) (b : Behavior) (steps : list Z) (s : SimState)
         (w : World) : list StepRecord :=
  match steps with
  | [] => []
  | step :: rest =>
      let state := {| st_step := step; st_width := width self;
                      st_height := height self;
                      st_num_alive := count_alive (mice s) |} in
      match update_mice self b state (predators s) (mice s)
                        (total_survival_steps s, total_distance_score s) w with
      | (Ok (moved, _), _) =>
          {| rec_step := step; rec_mice := mice s;
             rec_predators := predators s; rec_moved := moved |}
          :: match step_body self b step s w with
             | (Ok s', w') =>
                 if negb (existsb Agent.alive (mice s')) then []
                 else steps_trace self b rest s' w'
             | (Raise _, _) => []
             end
      | (Raise _, _) => []
      end
  end.

Definition simulation_trace (self : t) (b : Behavior) (w : World)
  : list StepRecord :=
  match _initialize_agents self w with
  | (Ok (mice, predators), w') =>
      steps_trace self b (py_range (max_steps self))
                  {| mice := mice; predators := predators;
                     total_survival_steps := 0; total_distance_score := 0 |} w'
  | (Raise _, _) => []
  end.
End SimulationSpec.

(** ** A small runtime for the examples

    The world is a counter of the random values drawn so far.  The
    interpreter agrees with CPython on the sources listed here, which are
    the ones the examples use. *)

Module Example.

Definition src_exit : string := "raise SystemExit".
Definition src_no_entry : string := "x = 1".
Definition src_right : string :=
  "def mice_behavior(state, mouse_pos, predator_pos): return (1, 0)".
Definition src_none : string :=
  "def mice_behavior(state, mouse_pos, predator_pos): return None".
Definition src_broken : string := "def mice_behavior(:".
Definition src_bad_str : string :=
  "class Bad:
    def __str__(self): raise RuntimeError('no text')
raise ValueError(Bad())".

(** [return (1, 0)] *)
Definition go_right : BehaviorOn nat :=
  fun _ _ _ w => (Ok (PyTuple [PyInt 1; PyInt 0]), w).



(** [return None] *)
Definition return_none : BehaviorOn nat := fun _ _ _ w => (Ok PyNone, w).

(** [raise ValueError("bad")] *)
Definition always_raises : BehaviorOn nat :=
  fun _ _ _ w => (Raise (mkExc ValueError "bad"), w).

Definition exec_table (src : string) (w : nat)
  : Result (list (string * BehaviorOn nat)) * nat :=
  if String.eqb src src_exit then (Raise (mkExc SystemExit ""), w)
  else if String.eqb src src_bad_str then (Raise (mkPyExc ValueError (OwnStr 0)), w)
  else if String.eqb src src_no_entry then (Ok [], w)
  else if String.eqb src src_right then (Ok [("mice_behavior", go_right)], w)
  else if String.eqb src src_none then (Ok [("mice_behavior", return_none)], w)
  else (Raise (mkExc SyntaxError "invalid syntax"), w).

Definition compile_table (src : string) : Result unit :=
  if String.eqb src src_broken then Raise (mkExc SyntaxError "invalid syntax")
  else Ok tt.

Definition runtime : Runtime.
Proof.
  refine {| World := nat;
            random_random := fun w => (/ 2, S w);
            random_randbelow := fun n w => ((w mod n)%nat, S w);
            random_seed := fun s _ => Z.abs_nat s;
            py_exec := exec_table;
            py_compile := compile_table;
            format_exc := fun e =>
              String.append "Traceback (most recent call last): "
                (match exc_text e with
                 | Message msg => msg
                 | OwnStr _ => "<exception str() failed>"
                 end);
            py_own_str := fun tag w =>
              match tag with
              | O => (Raise (mkExc RuntimeError "no text"), w)
              | S _ => (Ok "", w)
              end;
            py_id := fun _ _ => 0%Z |}.
  - intros n w Hn. simpl. apply Nat.mod_upper_bound. lia.
  - intros s w1 w2 k. reflexivity.
Defined.

(** A sampler that proposes a source that does not parse, and a search
    that uses it. *)
Definition broken_sampler : @FunSearch.SamplerObj runtime :=
  @FunSearch.mkSampler runtime (fun _ _ w => (Ok src_broken, w)).

Definition broken_search : @FunSearch.t runtime :=
  @FunSearch.__init__ runtime None (Some broken_sampler) 100 true.

(** One prey, one predator, two steps. *)
Definition small_env : PredatorPreyEnvironment.t :=
  {| PredatorPreyEnvironment.width := 100;
     PredatorPreyEnvironment.height := 100;
     PredatorPreyEnvironment.num_mice := 1;
     PredatorPreyEnvironment.num_predators := 1;
     PredatorPreyEnvironment.max_steps := 2;
     PredatorPreyEnvironment.predator_speed := 1.5;
     PredatorPreyEnvironment.mouse_speed := 1;
     PredatorPreyEnvironment.capture_distance := 2 |}.

End Example.

(** A computation that neither reads nor changes the world. *)
Definition pure_M `{Runtime} {A : Type} (m : M A) : Prop :=
  exists r, forall w, m w = (r, w).

(** What [run_simulation] does once the agents are placed. *)
Definition after_placement `{Runtime} (self : PredatorPreyEnvironment.t) (b : Behavior)
           (agents : list Agent.t * list Agent.t) : M R :=
  s <- PredatorPreyEnvironment.run_steps self b
         (py_range (PredatorPreyEnvironment.max_steps self))
         {| PredatorPreyEnvironment.mice := fst agents;
            PredatorPreyEnvironment.predators := snd agents;
            PredatorPreyEnvironment.total_survival_steps := 0;
            PredatorPreyEnvironment.total_distance_score := 0 |} ;;
  PredatorPreyEnvironment.fitness_of self s.

(** A computation whose result depends on the world only through the
    values [random.random()] returns, and that keeps two such worlds
    alike. *)
Definition respects_draws `{Runtime} {A : Type} (m : M A) : Prop :=
  forall w1 w2, same_draws w1 w2 ->
    fst (m w1) = fst (m w2) /\ same_draws (snd (m w1)) (snd (m w2)).

(** ** Specification vocabulary for the further properties *)

(** [p.fitness == r] *)
Definition has_fitness (r : R) (p : Program) : bool :=
  if Req_EM_T (fitness p) r then true else false.

(** The number of [increment_generation] calls in a run of calls. *)
Fixpoint count_increments (ops : list db_op) : Z :=
  match ops with
  | [] => 0
  | IncrementGeneration :: t => (1 + count_increments t)%Z
  | AddProgram _ _ _ _ :: t => count_increments t
  end.

(** The generation counter and the generations the programs carry. *)
Definition generation_inv (db : ProgramDatabase.t) : Prop :=
  db_inv db
  /\ (0 <= ProgramDatabase._generation db)%Z
  /\ (forall q, In q (ProgramDatabase.programs db) ->
                (0 <= generation q <= ProgramDatabase._generation db)%Z)
  /\ (forall b, ProgramDatabase._best_program db = Some b ->
                (0 <= generation b <= ProgramDatabase._generation db)%Z).

(** A position inside the arena [[0, max(0, width)] x [0, max(0, height)]]. *)
Definition in_arena (self : PredatorPreyEnvironment.t) (a : Agent.t) : Prop :=
  0 <= Agent.x a <= Rmax 0 (PredatorPreyEnvironment.width self)
  /\ 0 <= Agent.y a <= Rmax 0 (PredatorPreyEnvironment.height self).

(** Some predator stands within the capture distance of the mouse. *)
Definition within_reach (self : PredatorPreyEnvironment.t)
           (predators : list Agent.t) (mouse : Agent.t) : bool :=
  existsb (fun predator =>
             float_lt (Agent.distance_to predator mouse)
                      (PredatorPreyEnvironment.capture_distance self))
          predators.

(** What a step may do to a mouse: a dead mouse stays as it is, and no
    mouse comes back to life. *)
Definition mouse_step (m m' : Agent.t) : Prop :=
  (Agent.alive m = false -> m' = m)
  /\ (Agent.alive m' = true -> Agent.alive m = true).

(** The diagonal of the arena. *)
Definition arena_diagonal (self : PredatorPreyEnvironment.t) : R :=
  sqrt (Rmax 0 (PredatorPreyEnvironment.width self) ^ 2
        + Rmax 0 (PredatorPreyEnvironment.height self) ^ 2).

(** The frame that shows the start of a recorded step. *)
Definition frame_of_record (r : StepRecord) : PredatorPreyEnvironment.Frame :=
  PredatorPreyEnvironment.frame_of (rec_step r) (rec_mice r) (rec_predators r).

(** A state of the loop with one mouse and one predator, both inside the
    arena of [Example.small_env]. *)
Definition example_state : PredatorPreyEnvironment.SimState :=
  {| PredatorPreyEnvironment.mice :=
       [{| Agent.x := 1; Agent.y := 1; Agent.alive := true |}];
     PredatorPreyEnvironment.predators :=
       [{| Agent.x := 5; Agent.y := 5; Agent.alive := true |}];
     PredatorPreyEnvironment.total_survival_steps := 0;
     PredatorPreyEnvironment.total_distance_score := 0 |}.

(** What the bound on the score needs of the state of the loop: the
    agents are in the arena, and the distances added up so far are at most
    one diagonal for each mouse counted. *)
Definition bounded_state (self : PredatorPreyEnvironment.t)
           (s : PredatorPreyEnvironment.SimState) : Prop :=
  Forall (in_arena self) (PredatorPreyEnvironment.mice s)
  /\ Forall (in_arena self) (PredatorPreyEnvironment.predators s)
  /\ (0 <= PredatorPreyEnvironment.total_survival_steps s)%Z
  /\ 0 <= PredatorPreyEnvironment.total_distance_score s
     <= IZR (PredatorPreyEnvironment.total_survival_steps s) * arena_diagonal self.


(** The [Program] object [initialize_with_seed] stores in a new database. *)
Definition seed_entry (seed_program : string) (f : R) (meta : PyDict) : Program :=
  {| code := seed_program; fitness := f; metadata := meta;
     generation := 0; parent_id := None |}.

(* ================================================================== *)
(** * Part II: properties                                              *)
(* ================================================================== *)

(** ** Lists as arrays *)

Section ArrayFacts.
Context {A : Type}.
Implicit Types (h : list A) (x y : A) (i j : nat).

Lemma set_item_length h i x : length (Heapq.set_item h i x) = length h.
Proof.
  revert i; induction h as [|a t IH]; intros [|i]; simpl; auto.
Qed.

Lemma nth_error_set_item h i j x :
  nth_error (Heapq.set_item h i x) j =
  if (j =? i)%nat then (if (j <? length h)%nat then Some x else None)
  else nth_error h j.
Proof.
  revert i j; induction h as [|a t IH]; intros i j.
  - destruct i, j; simpl; try reflexivity.
    destruct (j =? i)%nat; reflexivity.
  - destruct i as [|i], j as [|j]; simpl; try reflexivity.
    rewrite IH. destruct (j =? i)%nat; [|reflexivity].
    change (S j <? S (length t))%nat with (j <? length t)%nat. reflexivity.
Qed.

Lemma set_item_same h i x :
  nth_error h i = Some x -> Heapq.set_item h i x = h.
Proof.
  revert i; induction h as [|a t IH]; intros [|i]; simpl; intros E;
    try discriminate; [congruence | f_equal; auto].
Qed.

Lemma set_item_twice h i x y :
  Heapq.set_item (Heapq.set_item h i x) i y = Heapq.set_item h i y.
Proof.
  revert i; induction h as [|a t IH]; intros [|i]; simpl; auto.
  f_equal; auto.
Qed.

Lemma set_item_perm h j x y :
  nth_error h j = Some y ->
  Permutation (y :: Heapq.set_item h j x) (x :: h).
Proof.
  revert j; induction h as [|a t IH]; intros [|j]; simpl; intros E;
    try discriminate.
  - injection E as ->. apply perm_swap.
  - rewrite perm_swap. rewrite (IH _ E). apply perm_swap.
Qed.

(** Writing [y] at [i] and [x] at [j], where [x] and [y] were read at
    [i] and [j], permutes the array. *)
Lemma set_item_swap_perm h i j x y :
  nth_error h i = Some x -> nth_error h j = Some y ->
  Permutation (Heapq.set_item (Heapq.set_item h i y) j x) h.
Proof.
  revert i j; induction h as [|a t IH]; intros [|i] [|j]; simpl;
    intros Ei Ej; try discriminate.
  - injection Ei as ->. injection Ej as ->. reflexivity.
  - injection Ei as ->. apply set_item_perm; assumption.
  - injection Ej as ->. apply set_item_perm; assumption.
  - apply perm_skip. apply IH; assumption.
Qed.

Lemma nth_of_nth_error h i x d : nth_error h i = Some x -> nth i h d = x.
Proof. intros E. apply nth_error_nth; assumption. Qed.

Lemma nth_error_in_range h i : (i < length h)%nat -> exists x, nth_error h i = Some x.
Proof.
  intros L. destruct (nth_error h i) eqn:E; [eauto|].
  apply nth_error_None in E. lia.
Qed.
End ArrayFacts.

(** ** Index arithmetic *)

Lemma parent_div i : parent i = ((i - 1) / 2)%nat.
Proof. unfold parent. rewrite Nat.shiftr_div_pow2. reflexivity. Qed.

Lemma parent_lt i : (0 < i)%nat -> (parent i < i)%nat.
Proof.
  intros L. rewrite parent_div.
  pose proof (Nat.div_mod_eq (i - 1) 2). lia.
Qed.

Lemma parent_child c p :
  (0 < c)%nat -> parent c = p <-> (c = 2 * p + 1 \/ c = 2 * p + 2)%nat.
Proof.
  intros L. rewrite parent_div.
  pose proof (Nat.div_mod_eq (c - 1) 2).
  pose proof (Nat.mod_upper_bound (c - 1) 2).
  split.
  - lia.
  - intros [-> | ->].
    + replace (2 * p + 1 - 1)%nat with (p * 2)%nat by lia. apply Nat.div_mul. lia.
    + replace (2 * p + 2 - 1)%nat with (1 + p * 2)%nat by lia.
      rewrite Nat.div_add by lia. reflexivity.
Qed.

(** ** [heapq] keeps the heap order and the items *)

Ltac split_eqb :=
  repeat match goal with
  | H : context [(?a =? ?b)%nat] |- _ => destruct (Nat.eqb_spec a b); try lia
  | H : context [(?a <? ?b)%nat] |- _ => destruct (Nat.ltb_spec a b); try lia
  | |- context [(?a =? ?b)%nat] => destruct (Nat.eqb_spec a b); try lia
  | |- context [(?a <? ?b)%nat] => destruct (Nat.ltb_spec a b); try lia
  end.

Ltac inj_some :=
  repeat match goal with
  | H : Some _ = Some _ |- _ =>
      first [injection H as <- | injection H as -> | injection H as H]
  | H : None = Some _ |- _ => discriminate H
  end.

(** Reads of an array after writes: in a hypothesis, and as a goal. *)
Ltac nth_in H :=
  rewrite ?nth_error_set_item, ?set_item_length in H.
Ltac nth_solve :=
  rewrite ?nth_error_set_item, ?set_item_length; split_eqb;
  solve [assumption | congruence | lia].

Section HeapqFacts.
Context {A : Type} (lt : A -> A -> bool) (key : A -> R).
Hypothesis lt_key : forall a b, lt a b = true <-> key a < key b.

Lemma lt_false a b : lt a b = false -> key b <= key a.
Proof.
  intros E. destruct (Rle_dec (key b) (key a)) as [L|L]; [exact L|].
  assert (lt a b = true) by (apply lt_key; lra). congruence.
Qed.

(** One turn of the [_siftdown] loop: the hole moves to the parent. *)
Lemma hole_up_step h pos x pv :
  (0 < pos)%nat -> (pos < length h)%nat ->
  nth_error h (parent pos) = Some pv -> key x < key pv ->
  hole_up key (Heapq.set_item h pos x) pos ->
  hole_up key (Heapq.set_item (Heapq.set_item h pos pv) (parent pos) x) (parent pos).
Proof.
  intros Hpos Hlen Hpv Hlt [Hedges Hbridge].
  pose proof (parent_lt pos Hpos) as Hpp.
  split.
  - intros i Hi a b Hi0 Ea Eb.
    pose proof (parent_lt i Hi0) as Hpi.
    destruct (Nat.eq_dec i pos) as [->|Hne].
    { nth_in Ea. nth_in Eb. split_eqb. inj_some. lra. }
    assert (Ea' : nth_error h i = Some a) by (nth_in Ea; split_eqb; exact Ea).
    destruct (Nat.eq_dec (parent i) (parent pos)) as [E1|E1].
    { rewrite E1 in Eb. nth_in Eb. split_eqb. inj_some.
      assert (key pv <= key a); [|lra].
      apply (Hedges i Hne a pv Hi0); [nth_solve | rewrite E1; nth_solve]. }
    destruct (Nat.eq_dec (parent i) pos) as [E2|E2].
    { rewrite E2 in Eb. nth_in Eb. split_eqb. inj_some.
      apply (Hbridge i a pv Hpos Hi0 E2); nth_solve. }
    nth_in Eb. split_eqb.
    apply (Hedges i Hne a b Hi0); nth_solve.
  - intros c a g Hpp0 Hc0 Ec Ea Eg.
    pose proof (parent_lt _ Hpp0) as Hgp.
    pose proof (parent_lt c Hc0) as Hpc.
    assert (Hg : key g <= key pv).
    { nth_in Eg. split_eqb.
      apply (Hedges (parent pos) ltac:(lia) pv g Hpp0); nth_solve. }
    destruct (Nat.eq_dec c pos) as [->|Hne].
    { nth_in Ea. split_eqb. inj_some. lra. }
    nth_in Ea. split_eqb.
    assert (key pv <= key a); [|lra].
    apply (Hedges c Hne a pv Hc0); [nth_solve | rewrite Ec; nth_solve].
Qed.

Lemma hole_up_closed h pos :
  hole_up key h pos -> (pos = 0%nat \/ edge_ok key h pos) -> heap_ordered key h.
Proof.
  intros [Hedges _] Hpos i.
  destruct (Nat.eq_dec i pos) as [->|Hne]; [|auto].
  destruct Hpos as [->|Hp]; [|exact Hp].
  intros x p L. lia.
Qed.

Lemma siftdown_loop_S fuel h startpos pos x :
  Heapq.siftdown_loop lt (S fuel) h startpos pos x =
  if (startpos <? pos)%nat then
    if lt x (nth (parent pos) h x) then
      Heapq.siftdown_loop lt fuel (Heapq.set_item h pos (nth (parent pos) h x))
                          startpos (parent pos) x
    else Heapq.set_item h pos x
  else Heapq.set_item h pos x.
Proof. reflexivity. Qed.

Lemma siftdown_loop_length fuel h startpos pos x :
  length (Heapq.siftdown_loop lt fuel h startpos pos x) = length h.
Proof.
  revert h pos; induction fuel as [|fuel IH]; intros h pos.
  - apply set_item_length.
  - rewrite siftdown_loop_S.
    destruct (startpos <? pos)%nat; [|apply set_item_length].
    destruct (lt x _); [|apply set_item_length].
    rewrite IH. apply set_item_length.
Qed.

Lemma siftdown_loop_perm fuel h startpos pos x :
  (pos < length h)%nat ->
  Permutation (Heapq.siftdown_loop lt fuel h startpos pos x)
              (Heapq.set_item h pos x).
Proof.
  revert h pos; induction fuel as [|fuel IH]; intros h pos Hlen.
  - reflexivity.
  - rewrite siftdown_loop_S.
    destruct (Nat.ltb_spec startpos pos) as [Hpos|Hpos]; [|reflexivity].
    assert (Hpp : (parent pos < pos)%nat) by (apply parent_lt; lia).
    destruct (nth_error_in_range h (parent pos) ltac:(lia)) as [pv Hpv].
    rewrite (nth_of_nth_error _ _ _ x Hpv).
    destruct (lt x pv); [|reflexivity].
    rewrite IH by (rewrite set_item_length; lia).
    rewrite <- (set_item_twice h pos x pv).
    apply set_item_swap_perm; nth_solve.
Qed.

Lemma siftdown_loop_ordered fuel h pos x :
  (pos <= fuel)%nat -> (pos < length h)%nat ->
  hole_up key (Heapq.set_item h pos x) pos ->
  heap_ordered key (Heapq.siftdown_loop lt fuel h 0 pos x).
Proof.
  revert h pos; induction fuel as [|fuel IH]; intros h pos Hfuel Hlen Hinv.
  - apply (hole_up_closed _ pos Hinv). left; lia.
  - rewrite siftdown_loop_S.
    destruct (Nat.ltb_spec 0 pos) as [Hpos|Hpos];
      [|apply (hole_up_closed _ pos Hinv); left; lia].
    assert (Hpp : (parent pos < pos)%nat) by (apply parent_lt; lia).
    destruct (nth_error_in_range h (parent pos) ltac:(lia)) as [pv Hpv].
    rewrite (nth_of_nth_error _ _ _ x Hpv).
    destruct (lt x pv) eqn:Hlt.
    + apply IH; [lia | rewrite set_item_length; lia|].
      apply hole_up_step; auto. apply lt_key; exact Hlt.
    + apply (hole_up_closed _ pos Hinv). right.
      intros a b _ Ea Eb. nth_in Ea. nth_in Eb. split_eqb. inj_some.
      rewrite Hpv in Eb. inj_some. apply lt_false; exact Hlt.
Qed.

(** [heappush] keeps the heap order and adds exactly the item. *)
Lemma heappush_ordered h item :
  heap_ordered key h -> heap_ordered key (Heapq.heappush lt h item).
Proof.
  intros Hh. unfold Heapq.heappush, Heapq._siftdown.
  rewrite length_app; simpl.
  replace (length h + 1 - 1)%nat with (length h) by lia.
  assert (E : nth_error (h ++ [item]) (length h) = Some item).
  { rewrite nth_error_app2 by lia. rewrite Nat.sub_diag. reflexivity. }
  rewrite E.
  apply siftdown_loop_ordered; [lia | rewrite length_app; simpl; lia|].
  rewrite (set_item_same _ _ _ E).
  split.
  - intros i Hi a b Hi0 Ea Eb.
    pose proof (parent_lt i Hi0).
    assert (i < length (h ++ [item]))%nat by (apply nth_error_Some; congruence).
    rewrite length_app in *; simpl in *.
    rewrite nth_error_app1 in Ea, Eb by lia.
    apply (Hh i a b Hi0 Ea Eb).
  - intros c a g _ Hc0 Ec Ea _.
    assert (c < length (h ++ [item]))%nat by (apply nth_error_Some; congruence).
    rewrite length_app in *; simpl in *.
    pose proof (parent_lt c Hc0). lia.
Qed.

Lemma heappush_perm h item :
  Permutation (Heapq.heappush lt h item) (item :: h).
Proof.
  unfold Heapq.heappush, Heapq._siftdown.
  rewrite length_app; simpl.
  replace (length h + 1 - 1)%nat with (length h) by lia.
  assert (E : nth_error (h ++ [item]) (length h) = Some item).
  { rewrite nth_error_app2 by lia. rewrite Nat.sub_diag. reflexivity. }
  rewrite E.
  rewrite siftdown_loop_perm by (rewrite length_app; simpl; lia).
  rewrite (set_item_same _ _ _ E).
  symmetry. apply Permutation_cons_append.
Qed.

(** One turn of the [_siftup] loop: the smaller child [c] moves up. *)
Lemma hole_down_step h pos c x cv :
  (c < length h)%nat -> (0 < c)%nat -> parent c = pos ->
  nth_error h c = Some cv ->
  (forall s sv, (0 < s)%nat -> parent s = pos -> s <> c ->
                nth_error h s = Some sv -> key cv <= key sv) ->
  hole_down key (Heapq.set_item h pos x) pos ->
  hole_down key (Heapq.set_item (Heapq.set_item h pos cv) c x) c.
Proof.
  intros Hlen Hc0 Hpc Hcv Hsib [Hedges Hbridge].
  pose proof (parent_lt c Hc0) as Hlt. rewrite Hpc in Hlt.
  split.
  - intros i Hi Hpi a b Hi0 Ea Eb.
    pose proof (parent_lt i Hi0) as Hpi'.
    destruct (Nat.eq_dec i pos) as [->|Hne].
    { nth_in Ea. nth_in Eb. split_eqb. inj_some.
      apply (Hbridge c _ _ Hi0 Hc0 Hpc); nth_solve. }
    nth_in Ea. split_eqb.
    destruct (Nat.eq_dec (parent i) pos) as [E2|E2].
    { rewrite E2 in Eb. nth_in Eb. split_eqb. inj_some.
      apply (Hsib i _ Hi0 E2 Hi Ea). }
    nth_in Eb. split_eqb.
    apply (Hedges i Hne E2 _ _ Hi0); nth_solve.
  - intros d a g _ Hd0 Ed Ea Eg.
    pose proof (parent_lt d Hd0) as Hpd.
    rewrite Hpc in Eg. nth_in Eg. split_eqb. inj_some.
    nth_in Ea. split_eqb.
    apply (Hedges d ltac:(lia) ltac:(lia) _ _ Hd0); [nth_solve | rewrite Ed; nth_solve].
Qed.

Lemma siftup_loop_S fuel h endpos pos x :
  Heapq.siftup_loop lt (S fuel) h endpos pos x =
  if (2 * pos + 1 <? endpos)%nat then
    let c := if (2 * pos + 1 + 1 <? endpos)%nat
                && negb (lt (nth (2 * pos + 1) h x) (nth (2 * pos + 1 + 1) h x))
             then (2 * pos + 1 + 1)%nat else (2 * pos + 1)%nat in
    Heapq.siftup_loop lt fuel (Heapq.set_item h pos (nth c h x)) endpos c x
  else (h, pos).
Proof. reflexivity. Qed.

Lemma siftup_loop_spec fuel h pos x h' pos' :
  (length h - pos <= fuel)%nat -> (pos < length h)%nat ->
  hole_down key (Heapq.set_item h pos x) pos ->
  Heapq.siftup_loop lt fuel h (length h) pos x = (h', pos') ->
  length h' = length h /\ (pos' < length h)%nat /\
  hole_up key (Heapq.set_item h' pos' x) pos' /\
  Permutation (Heapq.set_item h' pos' x) (Heapq.set_item h pos x).
Proof.
  revert h pos; induction fuel as [|fuel IH]; intros h pos Hfuel Hlen Hinv E.
  - lia.
  - rewrite siftup_loop_S in E.
    destruct (Nat.ltb_spec (2 * pos + 1) (length h)) as [Hc|Hc].
    + cbv zeta in E.
      set (c := if (2 * pos + 1 + 1 <? length h)%nat
                   && negb (lt (nth (2 * pos + 1) h x) (nth (2 * pos + 1 + 1) h x))
                then (2 * pos + 1 + 1)%nat else (2 * pos + 1)%nat) in *.
      destruct (nth_error_in_range h (2 * pos + 1) Hc) as [lv Hlv].
      assert (Hchoice :
                (c = (2 * pos + 1)%nat /\
                 forall rv, nth_error h (2 * pos + 1 + 1) = Some rv -> key lv <= key rv)
                \/ (c = (2 * pos + 1 + 1)%nat /\ (c < length h)%nat /\
                    forall rv, nth_error h c = Some rv -> key rv <= key lv)).
      { subst c. destruct (Nat.ltb_spec (2 * pos + 1 + 1) (length h)) as [Hr|Hr];
          cbn [andb].
        - destruct (nth_error_in_range h _ Hr) as [rv Hrv].
          rewrite (nth_of_nth_error _ _ _ x Hlv), (nth_of_nth_error _ _ _ x Hrv).
          destruct (lt lv rv) eqn:Hcmp; cbn [negb].
          + left. split; [reflexivity|]. intros rv' Hrv'.
            rewrite Hrv in Hrv'. inj_some. apply lt_key in Hcmp. lra.
          + right. split; [reflexivity|]. split; [exact Hr|].
            intros rv' Hrv'. rewrite Hrv in Hrv'. inj_some.
            apply lt_false; exact Hcmp.
        - left. split; [reflexivity|]. intros rv Hrv.
          assert (2 * pos + 1 + 1 < length h)%nat by (apply nth_error_Some; congruence).
          lia. }
      assert (Hcr : (c < length h)%nat) by (destruct Hchoice as [[-> _]|[_ [? _]]]; lia).
      assert (Hc0 : (0 < c)%nat) by (destruct Hchoice as [[-> _]|[-> _]]; lia).
      assert (Hpc : parent c = pos)
        by (apply parent_child; [exact Hc0|]; destruct Hchoice as [[-> _]|[-> _]]; lia).
      destruct (nth_error_in_range h c Hcr) as [cv Hcv].
      rewrite (nth_of_nth_error _ _ _ x Hcv) in E.
      assert (Hstep : hole_down key (Heapq.set_item (Heapq.set_item h pos cv) c x) c).
      { apply hole_down_step; auto.
        intros s sv Hs0 Hps Hsc Hsv.
        apply parent_child in Hps; [|exact Hs0].
        destruct Hchoice as [[Ec Hle]|[Ec [_ Hle]]].
        - assert (s = 2 * pos + 1 + 1)%nat by lia. subst s.
          rewrite Ec in Hcv. rewrite Hlv in Hcv. inj_some. apply Hle; exact Hsv.
        - assert (s = 2 * pos + 1)%nat by lia. subst s.
          rewrite Hlv in Hsv. inj_some. apply Hle; exact Hcv. }
      rewrite <- (set_item_length h pos cv) in E.
      apply IH in E; rewrite ?set_item_length in *; try lia; [|exact Hstep].
      destruct E as (El & Ep & Eh & Eperm).
      split; [exact El|]. split; [exact Ep|]. split; [exact Eh|].
      eapply Permutation_trans; [exact Eperm|].
      rewrite <- (set_item_twice h pos x cv).
      apply set_item_swap_perm; nth_solve.
    + injection E as <- <-.
      split; [reflexivity|]. split; [exact Hlen|]. split; [|reflexivity].
      split.
      * intros i Hi a b Hi0 Ea Eb.
        destruct (Nat.eq_dec (parent i) pos) as [E2|E2].
        -- apply parent_child in E2; [|exact Hi0].
           assert (i < length (Heapq.set_item h pos x))%nat
             by (apply nth_error_Some; congruence).
           rewrite set_item_length in *. lia.
        -- apply (proj1 Hinv i Hi E2 a b Hi0 Ea Eb).
      * apply Hinv.
Qed.

(** [heapreplace] returns the root, keeps the heap order, and swaps the
    root for the item. *)
Lemma heapreplace_spec m t item :
  heap_ordered key (m :: t) ->
  exists h', Heapq.heapreplace lt (m :: t) item = Ok (h', m) /\
             heap_ordered key h' /\ Permutation h' (item :: t).
Proof.
  intros Hh. unfold Heapq.heapreplace.
  exists (Heapq._siftup lt (Heapq.set_item (m :: t) 0 item) 0).
  split; [reflexivity|].
  unfold Heapq._siftup. simpl Heapq.set_item. simpl nth_error.
  cbv beta iota.
  match goal with
  | |- context [Heapq.siftup_loop ?a ?b ?c ?d ?e ?f] =>
      destruct (Heapq.siftup_loop a b c d e f) as [h' pos'] eqn:E
  end.
  apply siftup_loop_spec in E; [|lia|simpl; lia|].
  - destruct E as (El & Ep & Eh & Eperm).
    simpl Heapq.set_item in Eperm.
    unfold Heapq._siftdown.
    assert (Enth : nth_error (Heapq.set_item h' pos' item) pos' = Some item)
      by nth_solve.
    rewrite Enth. split.
    + apply siftdown_loop_ordered;
        [lia | rewrite set_item_length; lia | rewrite set_item_twice; exact Eh].
    + rewrite siftdown_loop_perm by (rewrite set_item_length; lia).
      rewrite set_item_twice. exact Eperm.
  - simpl Heapq.set_item. split.
    + intros i Hi Hpi a b Hi0 Ea Eb.
      pose proof (parent_lt i Hi0).
      destruct i as [|i]; [lia|].
      destruct (parent (S i)) as [|pi] eqn:Epi; [congruence|].
      apply (Hh (S i) a b Hi0); [exact Ea | rewrite Epi; exact Eb].
    + intros c a g Hpos. lia.
Qed.

(** The root of a heap is a minimum. *)
Lemma heap_root_min h r :
  heap_ordered key h -> nth_error h 0 = Some r ->
  forall x, In x h -> key r <= key x.
Proof.
  intros Hh Hr x Hx. apply In_nth_error in Hx. destruct Hx as [i Hi].
  revert x Hi. induction i as [i IH] using lt_wf_ind. intros x Hi.
  destruct (Nat.eq_dec i 0) as [->|Hne].
  - rewrite Hr in Hi. inj_some. lra.
  - pose proof (parent_lt i ltac:(lia)) as Hp.
    assert (i < length h)%nat by (apply nth_error_Some; congruence).
    destruct (nth_error_in_range h (parent i) ltac:(lia)) as [p Hpv].
    pose proof (IH _ Hp p Hpv).
    pose proof (Hh i x p ltac:(lia) Hi Hpv). lra.
Qed.
End HeapqFacts.

(** ** The population store *)

Lemma float_lt_true a b : float_lt a b = true <-> a < b.
Proof. unfold float_lt. destruct (Rlt_dec a b); split; intros; try lra; congruence. Qed.

Lemma float_lt_false a b : float_lt a b = false <-> b <= a.
Proof. unfold float_lt. destruct (Rlt_dec a b); split; intros; try lra; congruence. Qed.

Lemma float_gt_true a b : float_gt a b = true <-> b < a.
Proof. apply float_lt_true. Qed.

Lemma float_gt_false a b : float_gt a b = false <-> a <= b.
Proof. apply float_lt_false. Qed.

Lemma Program_lt_key a b : Program_lt a b = true <-> fitness a < fitness b.
Proof. apply float_lt_true. Qed.

Lemma min_fitness_spec l m :
  min_fitness l = Some m ->
  (forall p, In p l -> m <= fitness p) /\ exists p, In p l /\ fitness p = m.
Proof.
  revert m; induction l as [|q t IH]; intros m E; simpl in E; [discriminate|].
  destruct (min_fitness t) as [mt|] eqn:Et.
  - injection E as <-. destruct (IH mt eq_refl) as [Hle [p [Hp Hpm]]].
    split.
    + intros p' [<-|Hin]; [apply Rmin_l|].
      apply Rle_trans with mt; [apply Rmin_r | auto].
    + unfold Rmin. destruct (Rle_dec (fitness q) mt).
      * exists q. simpl; auto.
      * exists p. simpl; auto.
  - injection E as <-. destruct t; [|simpl in Et; destruct (min_fitness t); discriminate].
    split.
    + intros p' [<-|[]]. lra.
    + exists q. simpl; auto.
Qed.

Lemma min_fitness_nonempty p t : exists m, min_fitness (p :: t) = Some m.
Proof. simpl. destruct (min_fitness t); eauto. Qed.

Lemma max_fitness_spec l m :
  max_fitness l = Some m -> exists p, In p l /\ fitness p = m.
Proof.
  revert m; induction l as [|q t IH]; intros m E; simpl in E; [discriminate|].
  destruct (max_fitness t) as [mt|] eqn:Et.
  - injection E as <-. destruct (IH mt eq_refl) as [p [Hp Hpm]].
    unfold Rmax. destruct (Rle_dec (fitness q) mt).
    + exists p. simpl; auto.
    + exists q. simpl; auto.
  - injection E as <-. exists q. simpl; auto.
Qed.

(** In a heap the root carries the minimum fitness. *)
Lemma heap_min_fitness w t :
  heap_ordered fitness (w :: t) -> min_fitness (w :: t) = Some (fitness w).
Proof.
  intros Hh. destruct (min_fitness_nonempty w t) as [m Em]. rewrite Em.
  destruct (min_fitness_spec _ _ Em) as [Hle [p [Hp Hpm]]].
  pose proof (heap_root_min fitness _ w Hh eq_refl p Hp).
  pose proof (Hle w (or_introl eq_refl)).
  f_equal. lra.
Qed.

(** The four ways through [add_program]. *)
Lemma add_program_cases db c f m p :
  let prog := new_program db c f m p in
  let db1 := with_best_updated db prog in
  let n := Z.of_nat (length (ProgramDatabase.programs db)) in
  ((n < ProgramDatabase.max_size db)%Z /\
   ProgramDatabase.add_program db c f m p =
   (ProgramDatabase.set_programs db1
      (Heapq.heappush Program_lt (ProgramDatabase.programs db) prog), Ok true))
  \/ ((ProgramDatabase.max_size db <= n)%Z /\ ProgramDatabase.programs db = [] /\
      ProgramDatabase.add_program db c f m p =
      (db1, Raise (mkExc IndexError "list index out of range")))
  \/ (exists worst t,
      (ProgramDatabase.max_size db <= n)%Z /\
      ProgramDatabase.programs db = worst :: t /\ fitness worst < f /\
      ProgramDatabase.add_program db c f m p =
      (ProgramDatabase.set_programs db1
         (Heapq._siftup Program_lt (prog :: t) 0), Ok true))
  \/ (exists worst t,
      (ProgramDatabase.max_size db <= n)%Z /\
      ProgramDatabase.programs db = worst :: t /\ f <= fitness worst /\
      ProgramDatabase.add_program db c f m p = (db1, Ok false)).
Proof.
  intros prog db1 n.
  assert (Eprogs : ProgramDatabase.programs db1 = ProgramDatabase.programs db).
  { unfold db1, with_best_updated. destruct (match _ with None => _ | Some _ => _ end); reflexivity. }
  assert (Emax : ProgramDatabase.max_size db1 = ProgramDatabase.max_size db).
  { unfold db1, with_best_updated. destruct (match _ with None => _ | Some _ => _ end); reflexivity. }
  unfold ProgramDatabase.add_program.
  fold (new_program db c f m p). fold prog.
  change (if match ProgramDatabase._best_program db with
             | None => true
             | Some best => float_gt f (fitness best)
             end
          then ProgramDatabase.set_best_program db prog else db) with db1.
  rewrite Eprogs, Emax. fold n.
  destruct (Z.ltb_spec n (ProgramDatabase.max_size db)) as [Hn|Hn].
  - left. split; [exact Hn | reflexivity].
  - right. destruct (ProgramDatabase.programs db) as [|worst t] eqn:Ep.
    + left. auto.
    + right. destruct (float_gt f (fitness worst)) eqn:Hf.
      * left. exists worst, t. apply float_gt_true in Hf.
        repeat split; auto; try lia.
      * right. exists worst, t. apply float_gt_false in Hf.
        repeat split; auto; try lia.
Qed.

Lemma with_best_updated_programs db prog :
  ProgramDatabase.programs (with_best_updated db prog) = ProgramDatabase.programs db.
Proof.
  unfold with_best_updated.
  destruct (match _ with None => _ | Some _ => _ end); reflexivity.
Qed.

Lemma with_best_updated_max_size db prog :
  ProgramDatabase.max_size (with_best_updated db prog) = ProgramDatabase.max_size db.
Proof.
  unfold with_best_updated.
  destruct (match _ with None => _ | Some _ => _ end); reflexivity.
Qed.

(** After the update the best program is at least the old best and at
    least the candidate. *)
Lemma with_best_updated_best db prog :
  exists b, ProgramDatabase._best_program (with_best_updated db prog) = Some b /\
            fitness prog <= fitness b /\
            forall b0, ProgramDatabase._best_program db = Some b0 ->
                       fitness b0 <= fitness b.
Proof.
  unfold with_best_updated.
  destruct (ProgramDatabase._best_program db) as [b0|] eqn:Eb.
  - destruct (float_gt (fitness prog) (fitness b0)) eqn:Hf.
    + apply float_gt_true in Hf. exists prog. simpl.
      repeat split; [lra|]. intros ? [= <-]. lra.
    + apply float_gt_false in Hf. exists b0. rewrite Eb.
      repeat split; [lra|]. intros ? [= <-]. lra.
  - exists prog. simpl. repeat split; [lra|]. intros ? [=].
Qed.

Lemma add_program_best db c f m p :
  ProgramDatabase._best_program (fst (ProgramDatabase.add_program db c f m p)) =
  ProgramDatabase._best_program (with_best_updated db (new_program db c f m p)).
Proof.
  destruct (add_program_cases db c f m p)
    as [[_ E]|[(_ & _ & E)|[(w & t & _ & _ & _ & E)|(w & t & _ & _ & _ & E)]]];
    rewrite E; reflexivity.
Qed.

Lemma db_inv_init max_size : db_inv (ProgramDatabase.__init__ max_size).
Proof.
  split; simpl.
  - intros i x p _ E. destruct i; discriminate.
  - lia.
  - intros p [].
Qed.

Lemma siftup_root_spec worst t prog :
  heap_ordered fitness (worst :: t) ->
  heap_ordered fitness (Heapq._siftup Program_lt (prog :: t) 0) /\
  Permutation (Heapq._siftup Program_lt (prog :: t) 0) (prog :: t).
Proof.
  intros Hh.
  destruct (heapreplace_spec Program_lt fitness Program_lt_key worst t prog Hh)
    as (h' & E & Ho & Hp).
  unfold Heapq.heapreplace in E. simpl Heapq.set_item in E.
  injection E as <-. auto.
Qed.

Lemma db_inv_add db c f m p :
  db_inv db -> db_inv (fst (ProgramDatabase.add_program db c f m p)).
Proof.
  intros [Hheap Hsize Hbest].
  set (prog := new_program db c f m p).
  destruct (with_best_updated_best db prog) as (b & Eb & Hfb & Hold).
  assert (Hmem : forall q, In q (ProgramDatabase.programs db) -> fitness q <= fitness b).
  { intros q Hq. destruct (Hbest q Hq) as (b0 & Eb0 & Hq0).
    specialize (Hold b0 Eb0). lra. }
  destruct (add_program_cases db c f m p)
    as [[Hn E]|[(Hn & Ep & E)|[(w & t & Hn & Ep & Hf & E)|(w & t & Hn & Ep & Hf & E)]]];
    rewrite E; simpl; fold prog.
  - split; simpl; rewrite ?with_best_updated_max_size.
    + apply (heappush_ordered Program_lt fitness Program_lt_key); exact Hheap.
    + rewrite (Permutation_length (heappush_perm Program_lt _ prog)). simpl length. lia.
    + intros q Hq. exists b. split; [exact Eb|].
      apply (Permutation_in _ (heappush_perm Program_lt _ prog)) in Hq.
      destruct Hq as [<-|Hq]; auto.
  - split; rewrite ?with_best_updated_programs, ?with_best_updated_max_size; auto.
    intros q Hq. exists b. auto.
  - rewrite Ep in *.
    destruct (siftup_root_spec w t prog Hheap) as [Ho Hp].
    split; simpl; rewrite ?with_best_updated_max_size.
    + exact Ho.
    + rewrite (Permutation_length Hp). simpl length in *. lia.
    + intros q Hq. exists b. split; [exact Eb|].
      apply (Permutation_in _ Hp) in Hq.
      destruct Hq as [<-|Hq]; [exact Hfb|]. apply Hmem. simpl; auto.
  - split; rewrite ?with_best_updated_programs, ?with_best_updated_max_size; auto.
    intros q Hq. exists b. auto.
Qed.

Lemma db_inv_apply_op db op : db_inv db -> db_inv (apply_op db op).
Proof.
  destruct op as [c f m p|]; simpl.
  - apply db_inv_add.
  - intros [Hh Hs Hb]. split; simpl; auto.
Qed.

Lemma db_inv_run_ops db ops : db_inv db -> db_inv (run_ops db ops).
Proof.
  unfold run_ops. revert db; induction ops as [|op ops IH]; intros db Hdb; simpl.
  - exact Hdb.
  - apply IH. apply db_inv_apply_op. exact Hdb.
Qed.

Lemma add_program_max_size db c f m p :
  ProgramDatabase.max_size (fst (ProgramDatabase.add_program db c f m p)) =
  ProgramDatabase.max_size db.
Proof.
  destruct (add_program_cases db c f m p)
    as [[_ E]|[(_ & _ & E)|[(w & t & _ & _ & _ & E)|(w & t & _ & _ & _ & E)]]];
    rewrite E; simpl; apply with_best_updated_max_size.
Qed.

Lemma run_ops_max_size db ops :
  ProgramDatabase.max_size (run_ops db ops) = ProgramDatabase.max_size db.
Proof.
  unfold run_ops. revert db; induction ops as [|op ops IH]; intros db; simpl.
  - reflexivity.
  - rewrite IH. destruct op; simpl; [apply add_program_max_size | reflexivity].
Qed.

Lemma opt_le_refl a : opt_le a a.
Proof. destruct a; simpl; auto. lra. Qed.

Lemma opt_le_trans a b c : opt_le a b -> opt_le b c -> opt_le a c.
Proof. destruct a, b, c; simpl; intros; try lra; try contradiction; auto. Qed.

Lemma best_fitness_add_mono db c f m p :
  opt_le (best_fitness db) (best_fitness (fst (ProgramDatabase.add_program db c f m p))).
Proof.
  unfold best_fitness, ProgramDatabase.get_best_program.
  rewrite add_program_best.
  destruct (with_best_updated_best db (new_program db c f m p)) as (b & Eb & _ & Hold).
  rewrite Eb. destruct (ProgramDatabase._best_program db) as [b0|]; simpl; auto.
Qed.

Lemma best_fitness_run_mono db ops :
  opt_le (best_fitness db) (best_fitness (run_ops db ops)).
Proof.
  unfold run_ops. revert db; induction ops as [|op ops IH]; intros db; simpl.
  - apply opt_le_refl.
  - eapply opt_le_trans; [|apply IH].
    destruct op; simpl; [apply best_fitness_add_mono | apply opt_le_refl].
Qed.

(** C1.  Over any sequence of [add_program] calls (interleaved or not with
    [increment_generation]) the fitness of [get_best_program()] never
    decreases; in every database reached from the constructor it is at
    least the maximum fitness of the stored members; and each call sets the
    best program to the candidate exactly when none was set or the
    candidate's fitness is strictly above it, whatever the call returns
    (accepted, rejected, or an error). *)
Theorem best_program_monotone_dominant :
  (forall db ops, opt_le (best_fitness db) (best_fitness (run_ops db ops)))
  /\ (forall max_size ops,
        let db := run_ops (ProgramDatabase.__init__ max_size) ops in
        opt_le (max_fitness (ProgramDatabase.programs db)) (best_fitness db))
  /\ (forall db c f m p,
        ProgramDatabase.get_best_program
          (fst (ProgramDatabase.add_program db c f m p)) =
        if match ProgramDatabase.get_best_program db with
           | None => true
           | Some best => float_gt f (fitness best)
           end
        then Some (new_program db c f m p)
        else ProgramDatabase.get_best_program db).
Proof.
  split; [exact best_fitness_run_mono|]. split.
  - intros max_size ops db.
    pose proof (db_inv_run_ops _ ops (db_inv_init max_size)) as [_ _ Hbest].
    fold db in Hbest.
    destruct (max_fitness (ProgramDatabase.programs db)) as [mx|] eqn:Emx;
      [|exact I].
    destruct (max_fitness_spec _ _ Emx) as (q & Hq & <-).
    destruct (Hbest q Hq) as (b & Eb & Hle).
    unfold best_fitness, ProgramDatabase.get_best_program. rewrite Eb. exact Hle.
  - intros db c f m p. unfold ProgramDatabase.get_best_program.
    rewrite add_program_best. unfold with_best_updated. simpl fitness.
    destruct (match ProgramDatabase._best_program db with
              | None => true | Some best => float_gt f (fitness best) end);
      reflexivity.
Qed.

Lemma acceptance_rule_inv db c f m p :
  db_inv db -> (0 < ProgramDatabase.max_size db)%Z -> acceptance_rule db c f m p.
Proof.
  intros [Hheap Hsize Hbest] Hpos. unfold acceptance_rule.
  set (prog := new_program db c f m p).
  destruct (add_program_cases db c f m p)
    as [[Hn E]|[(Hn & Ep & E)|[(w & t & Hn & Ep & Hf & E)|(w & t & Hn & Ep & Hf & E)]]];
    rewrite E; simpl ProgramDatabase.programs;
    rewrite ?with_best_updated_programs; fold prog.
  - destruct (Z.ltb_spec (Z.of_nat (length (ProgramDatabase.programs db)))
                         (ProgramDatabase.max_size db)); [|lia].
    split; [reflexivity | apply heappush_perm].
  - rewrite Ep in Hn. simpl in Hn. lia.
  - destruct (Z.ltb_spec (Z.of_nat (length (ProgramDatabase.programs db)))
                         (ProgramDatabase.max_size db)); [lia|].
    rewrite Ep in *. rewrite (heap_min_fitness w t Hheap).
    destruct (float_gt f (fitness w)) eqn:Hgt;
      [|apply float_gt_false in Hgt; lra].
    split; [reflexivity|]. exists w. split; [simpl; auto|]. split; [reflexivity|].
    destruct (siftup_root_spec w t prog Hheap) as [_ Hp].
    rewrite Hp. apply perm_swap.
  - destruct (Z.ltb_spec (Z.of_nat (length (ProgramDatabase.programs db)))
                         (ProgramDatabase.max_size db)); [lia|].
    rewrite Ep in *. rewrite (heap_min_fitness w t Hheap).
    destruct (float_gt f (fitness w)) eqn:Hgt;
      [apply float_gt_true in Hgt; lra|].
    split; reflexivity.
Qed.

Lemma add_program_length_at_capacity db c f m p :
  db_inv db ->
  (ProgramDatabase.max_size db
   <= Z.of_nat (length (ProgramDatabase.programs db)))%Z ->
  length (ProgramDatabase.programs (fst (ProgramDatabase.add_program db c f m p))) =
  length (ProgramDatabase.programs db).
Proof.
  intros [Hheap _ _] Hcap.
  destruct (add_program_cases db c f m p)
    as [[Hn E]|[(Hn & Ep & E)|[(w & t & Hn & Ep & Hf & E)|(w & t & Hn & Ep & Hf & E)]]];
    rewrite E; simpl ProgramDatabase.programs;
    rewrite ?with_best_updated_programs; try reflexivity; try lia.
  rewrite Ep in *.
  destruct (siftup_root_spec w t (new_program db c f m p) Hheap) as [_ Hp].
  rewrite (Permutation_length Hp). reflexivity.
Qed.

Lemma track_inv_step s op : track_inv s -> track_inv (apply_op_tracking s op).
Proof.
  destruct s as [db last]. intros [Hdb Hlast]. simpl in Hdb, Hlast.
  destruct op as [c f m p|]; simpl.
  - split; simpl; [apply db_inv_add; exact Hdb|].
    rewrite add_program_max_size.
    pose proof (inv_heap _ Hdb) as Hheap.
    unfold evicted_by.
    destruct (add_program_cases db c f m p)
      as [[Hn E]|[(Hn & Ep & E)|[(w & t & Hn & Ep & Hf & E)|(w & t & Hn & Ep & Hf & E)]]];
      rewrite E; simpl ProgramDatabase.programs;
      rewrite ?with_best_updated_programs.
    + destruct (Z.ltb_spec (Z.of_nat (length (ProgramDatabase.programs db)))
                           (ProgramDatabase.max_size db)); [|lia].
      intros e He. destruct (Hlast e He) as [Hcap _]. lia.
    + destruct (Z.ltb_spec (Z.of_nat (length (ProgramDatabase.programs db)))
                           (ProgramDatabase.max_size db)); [lia|].
      rewrite Ep. intros e He. rewrite Ep in Hlast. apply Hlast; exact He.
    + destruct (Z.ltb_spec (Z.of_nat (length (ProgramDatabase.programs db)))
                           (ProgramDatabase.max_size db)); [lia|].
      rewrite Ep in *.
      destruct (float_gt f (fitness w)) eqn:Hgt;
        [|apply float_gt_false in Hgt; lra].
      destruct (siftup_root_spec w t (new_program db c f m p) Hheap) as [_ Hp].
      intros e [= <-]. split.
      * rewrite (Permutation_length Hp). simpl length in *. lia.
      * intros q Hq. apply (Permutation_in _ Hp) in Hq.
        destruct Hq as [<-|Hq]; [simpl; lra|].
        apply (heap_root_min fitness _ w Hheap eq_refl). simpl; auto.
    + destruct (Z.ltb_spec (Z.of_nat (length (ProgramDatabase.programs db)))
                           (ProgramDatabase.max_size db)); [lia|].
      rewrite Ep in *.
      destruct (float_gt f (fitness w)) eqn:Hgt;
        [apply float_gt_true in Hgt; lra|].
      exact Hlast.
  - split; simpl.
    + apply (db_inv_apply_op db IncrementGeneration Hdb).
    + exact Hlast.
Qed.

Lemma track_inv_run s ops : track_inv s -> track_inv (fold_left apply_op_tracking ops s).
Proof.
  revert s; induction ops as [|op ops IH]; intros s Hs; simpl; auto.
  apply IH. apply track_inv_step. exact Hs.
Qed.

Lemma run_ops_tracking_fst_gen db last ops :
  fst (fold_left apply_op_tracking ops (db, last)) = run_ops db ops.
Proof.
  unfold run_ops. revert db last; induction ops as [|op ops IH]; intros db last; simpl.
  - reflexivity.
  - destruct op; simpl; apply IH.
Qed.

Lemma run_ops_tracking_fst db ops :
  fst (run_ops_tracking db ops) = run_ops db ops.
Proof. apply run_ops_tracking_fst_gen. Qed.

Lemma run_ops_app db ops1 ops2 :
  run_ops db (ops1 ++ ops2) = run_ops (run_ops db ops1) ops2.
Proof. unfold run_ops. apply fold_left_app. Qed.

(** The acceptance rule of C2 where the capacity is positive.  In a
    database of positive capacity, reached from the constructor by any
    calls: below capacity [add_program] inserts the
    candidate and returns true; at capacity a candidate strictly above the
    minimum member fitness takes the place of a member of minimum fitness
    and the call returns true; otherwise it returns false and leaves the
    members as they are.  At capacity the member count stays at capacity,
    and after the call the minimum member fitness is at least the fitness
    of the member most recently evicted. *)
Theorem acceptance_rule_positive_capacity max_size ops c f m p :
  (0 < max_size)%Z ->
  let db := run_ops (ProgramDatabase.__init__ max_size) ops in
  let db' := fst (ProgramDatabase.add_program db c f m p) in
  acceptance_rule db c f m p
  /\ (Z.of_nat (length (ProgramDatabase.programs db)) = max_size ->
      Z.of_nat (length (ProgramDatabase.programs db')) = max_size)
  /\ (forall e mn,
        snd (run_ops_tracking (ProgramDatabase.__init__ max_size)
                              (ops ++ [AddProgram c f m p])) = Some e ->
        min_fitness (ProgramDatabase.programs db') = Some mn ->
        fitness e <= mn).
Proof.
  intros Hpos db db'.
  pose proof (db_inv_run_ops _ ops (db_inv_init max_size)) as Hdb. fold db in Hdb.
  assert (Hmax : ProgramDatabase.max_size db = max_size)
    by (unfold db; rewrite run_ops_max_size; reflexivity).
  split; [apply acceptance_rule_inv; [exact Hdb | lia]|]. split.
  - intros Hcap. unfold db'.
    rewrite add_program_length_at_capacity; [exact Hcap | exact Hdb | lia].
  - intros e mn He Hmn.
    assert (Ht : track_inv (run_ops_tracking (ProgramDatabase.__init__ max_size)
                                             (ops ++ [AddProgram c f m p]))).
    { apply track_inv_run. split; [apply db_inv_init | intros ? [=]]. }
    destruct Ht as [_ Ht]. destruct (Ht e He) as [_ Hq].
    rewrite run_ops_tracking_fst, run_ops_app in Hq. simpl in Hq.
    fold db in Hq. fold db' in Hq.
    destruct (min_fitness_spec _ _ Hmn) as (_ & q & Hin & <-). auto.
Qed.

(** The instance of the theorem at capacity 3, for the first call. *)
Lemma acceptance_rule_positive_capacity_witness :
  acceptance_rule (run_ops (ProgramDatabase.__init__ 3) []) "p" 5 None None.
Proof.
  apply (acceptance_rule_positive_capacity 3 [] "p" 5 None None). lia.
Defined.

(** C2.  At capacity 0 the code leaves the rule: the empty database is
    not below capacity, so [add_program] looks at [programs[0]] and raises
    [IndexError], where the rule, and the docstring of the method ("True
    if program was added, False otherwise"), have it return false. *)
Lemma acceptance_rule_zero_capacity :
  snd (ProgramDatabase.add_program (ProgramDatabase.__init__ 0) "p" 5 None None)
  = Raise (mkExc IndexError "list index out of range")
  /\ ~ acceptance_rule (ProgramDatabase.__init__ 0) "p" 5 None None.
Proof.
  split; [reflexivity|].
  unfold acceptance_rule. simpl. intros [E _]. discriminate E.
Qed.

(** Decides the float comparisons between literals that a run meets. *)
Ltac float_cmp :=
  repeat match goal with
  | |- context [float_lt ?a ?b] =>
      first [ replace (float_lt a b) with true
                by (symmetry; apply float_lt_true; lra)
            | replace (float_lt a b) with false
                by (symmetry; apply float_lt_false; lra) ]
  end.

Ltac run_cmp :=
  repeat progress (try unfold Program_lt; cbn -[float_lt]; float_cmp).

(** Runs the innermost [add_program] call of the goal. *)
Ltac step_add :=
  match goal with
  | |- context [ProgramDatabase.add_program (ProgramDatabase.mk ?ms ?ps ?b ?g) ?c ?f ?m ?p] =>
      let H := fresh "H" in
      eassert (H : ProgramDatabase.add_program (ProgramDatabase.mk ms ps b g) c f m p = _);
      [ unfold ProgramDatabase.add_program, float_gt; run_cmp; reflexivity
      | rewrite H; clear H;
        try unfold ProgramDatabase.set_programs;
        try unfold ProgramDatabase.set_best_program;
        cbn [fst snd ProgramDatabase.max_size ProgramDatabase.programs
             ProgramDatabase._best_program ProgramDatabase._generation] ]
  end.

(** The example of the specification: capacity 3, candidates of fitness
    5, 3, 8 are accepted; 1 is rejected and the best stays at 8; 9 evicts
    the member of fitness 3 and becomes the best. *)
Example store_capacity_three :
  let db3 := run_ops (ProgramDatabase.__init__ 3)
               [AddProgram "a" 5 None None; AddProgram "b" 3 None None;
                AddProgram "c" 8 None None] in
  let r1 := ProgramDatabase.add_program db3 "d" 1 None None in
  let r9 := ProgramDatabase.add_program (fst r1) "e" 9 None None in
  map fitness (ProgramDatabase.programs db3) = [3; 5; 8]
  /\ best_fitness db3 = Some 8
  /\ snd r1 = Ok false
  /\ map fitness (ProgramDatabase.programs (fst r1)) = [3; 5; 8]
  /\ best_fitness (fst r1) = Some 8
  /\ snd r9 = Ok true
  /\ map fitness (ProgramDatabase.programs (fst r9)) = [5; 9; 8]
  /\ best_fitness (fst r9) = Some 9.
Proof.
  unfold run_ops, apply_op, best_fitness, ProgramDatabase.get_best_program,
    ProgramDatabase.__init__.
  cbn [fold_left fst]. repeat step_add. cbn. repeat split.
Qed.

(** ** Ranking and parent sampling *)

Section SortedFacts.
Context {A : Type} (key : A -> R).

Lemma insert_desc_perm x l : Permutation (insert_desc key x l) (x :: l).
Proof.
  induction l as [|y t IH]; simpl; [reflexivity|].
  destruct (float_lt (key x) (key y)); [|reflexivity].
  rewrite IH. apply perm_swap.
Qed.

Lemma sorted_reverse_perm l : Permutation (sorted_reverse key l) l.
Proof.
  induction l as [|x t IH]; simpl; [reflexivity|].
  rewrite insert_desc_perm. apply perm_skip. exact IH.
Qed.

Lemma sorted_reverse_length l : length (sorted_reverse key l) = length l.
Proof. apply Permutation_length, sorted_reverse_perm. Qed.

Let ge (a b : A) : Prop := key b <= key a.

Lemma insert_desc_sorted x l :
  StronglySorted ge l -> StronglySorted ge (insert_desc key x l).
Proof.
  induction 1 as [|y t Hs IH Hall]; simpl.
  - constructor; constructor.
  - destruct (float_lt (key x) (key y)) eqn:E.
    + apply float_lt_true in E. constructor; [exact IH|].
      apply Forall_forall. intros z Hz.
      apply (Permutation_in _ (insert_desc_perm x t)) in Hz.
      destruct Hz as [<-|Hz]; [unfold ge; lra|].
      rewrite Forall_forall in Hall. auto.
    + apply float_lt_false in E. constructor; [constructor; assumption|].
      constructor; [exact E|].
      apply Forall_forall. intros z Hz. rewrite Forall_forall in Hall.
      specialize (Hall z Hz). unfold ge in *. lra.
Qed.

Lemma sorted_reverse_sorted l : StronglySorted ge (sorted_reverse key l).
Proof.
  induction l as [|x t IH]; simpl; [constructor|].
  apply insert_desc_sorted; exact IH.
Qed.

Lemma in_skipn n (l : list A) q : In q (skipn n l) -> In q l.
Proof.
  revert n; induction l as [|y t IH]; intros [|n]; simpl; auto.
  intros H. right. eapply IH; eassumption.
Qed.

(** In a descending list nothing after the first [n] items is above any
    of them. *)
Lemma sorted_firstn_skipn n l p q :
  StronglySorted ge l -> In p (firstn n l) -> In q (skipn n l) -> key q <= key p.
Proof.
  intros Hs. revert n. induction Hs as [|y t Hs IH Hall]; intros n Hp Hq.
  - destruct n; simpl in Hp; contradiction.
  - destruct n as [|n]; simpl in Hp, Hq; [contradiction|].
    destruct Hp as [<-|Hp].
    + rewrite Forall_forall in Hall. apply Hall.
      eapply in_skipn; eassumption.
    + eapply IH; eassumption.
Qed.
End SortedFacts.

Lemma fifth_to_nat size :
  Z.to_nat (Z.max 1 (Z.of_nat size / 5)) = floor_fifth_min1 size.
Proof.
  unfold floor_fifth_min1.
  change 5%Z with (Z.of_nat 5). rewrite <- Nat2Z.inj_div.
  change 1%Z with (Z.of_nat 1). rewrite <- Nat2Z.inj_max.
  apply Nat2Z.id.
Qed.

Lemma floor_fifth_min1_le size : (0 < size)%nat -> (floor_fifth_min1 size <= size)%nat.
Proof.
  intros L. unfold floor_fifth_min1.
  pose proof (Nat.div_mod_eq size 5). lia.
Qed.

Lemma sample_pool_firstn db :
  sample_pool db =
  firstn (floor_fifth_min1 (length (ProgramDatabase.programs db)))
         (sorted_reverse fitness (ProgramDatabase.programs db)).
Proof.
  unfold sample_pool, ProgramDatabase.get_best, slice_to.
  destruct (Z.leb_spec 0 (Z.max 1 (Z.of_nat (length (ProgramDatabase.programs db)) / 5)));
    [|lia].
  rewrite fifth_to_nat. reflexivity.
Qed.

Lemma sample_pool_length db :
  ProgramDatabase.programs db <> [] ->
  length (sample_pool db) = floor_fifth_min1 (length (ProgramDatabase.programs db)).
Proof.
  intros Hne. rewrite sample_pool_firstn, length_firstn, sorted_reverse_length.
  apply Nat.min_l. apply floor_fifth_min1_le.
  destruct (ProgramDatabase.programs db); [congruence | simpl; lia].
Qed.

(** C3, as amended.  With no members [sample_program] returns [None].
    Otherwise the members are ranked by descending fitness, the pool is
    the first [max(1, size // 5)] of the ranking (so no member outside the
    pool is above a member of the pool), and the call returns the member of
    the pool at the index [random.choice] draws below the size of the
    pool: each position of the pool is returned for exactly its own
    index. *)
Theorem sample_program_elite_pool `{Runtime} (db : ProgramDatabase.t) (w : World) :
  match ProgramDatabase.programs db with
  | [] => ProgramDatabase.sample_program db w = (Ok None, w)
  | _ :: _ =>
      let ranked := sorted_reverse fitness (ProgramDatabase.programs db) in
      let n := floor_fifth_min1 (length (ProgramDatabase.programs db)) in
      Permutation ranked (ProgramDatabase.programs db)
      /\ StronglySorted fitness_ge ranked
      /\ sample_pool db = firstn n ranked
      /\ length (sample_pool db) = n
      /\ (forall p q, In p (sample_pool db) -> In q (skipn n ranked) ->
                      fitness q <= fitness p)
      /\ exists p,
           (fst (random_randbelow n w) < n)%nat
           /\ nth_error (sample_pool db) (fst (random_randbelow n w)) = Some p
           /\ ProgramDatabase.sample_program db w
              = (Ok (Some p), snd (random_randbelow n w))
  end.
Proof.
  destruct (ProgramDatabase.programs db) as [|p0 t] eqn:Ep; [unfold ProgramDatabase.sample_program; rewrite Ep; reflexivity|].
  intros ranked n.
  assert (Hne : ProgramDatabase.programs db <> []) by (rewrite Ep; discriminate).
  pose proof (sample_pool_length db Hne) as Hlen. rewrite Ep in Hlen. fold n in Hlen.
  pose proof (sample_pool_firstn db) as Hpool. rewrite Ep in Hpool.
  fold ranked in Hpool. fold n in Hpool.
  assert (Hn : (0 < n)%nat) by (unfold n, floor_fifth_min1; lia).
  split; [apply sorted_reverse_perm|].
  split; [apply (sorted_reverse_sorted fitness)|].
  split; [exact Hpool|]. split; [exact Hlen|]. split.
  - intros p q Hp Hq. rewrite Hpool in Hp.
    apply (sorted_firstn_skipn fitness n ranked p q); auto.
    apply (sorted_reverse_sorted fitness).
  - pose proof (randbelow_lt n w Hn) as Hi.
    destruct (nth_error_in_range (sample_pool db) (fst (random_randbelow n w)))
      as [p Hp]; [lia|].
    exists p. split; [exact Hi|]. split; [exact Hp|].
    unfold ProgramDatabase.sample_program. rewrite Ep.
    fold (sample_pool db). rewrite <- Ep.
    change (ProgramDatabase.get_best db
              (Z.max 1 (Z.of_nat (length (ProgramDatabase.programs db)) / 5)))
      with (sample_pool db).
    unfold bind, random_choice, ret.
    destruct (sample_pool db) as [|d pool] eqn:Epool; [simpl in Hlen; lia|].
    rewrite Hlen.
    destruct (random_randbelow n w) as [i w'] eqn:Er. simpl in *.
    rewrite <- (nth_of_nth_error _ _ _ d Hp). reflexivity.
Qed.

Lemma add_below_capacity_length db c f m p :
  (Z.of_nat (length (ProgramDatabase.programs db)) < ProgramDatabase.max_size db)%Z ->
  length (ProgramDatabase.programs (fst (ProgramDatabase.add_program db c f m p)))
  = S (length (ProgramDatabase.programs db)).
Proof.
  intros Hn.
  destruct (add_program_cases db c f m p)
    as [[_ E]|[(Hc & _ & _)|[(w & t & Hc & _)|(w & t & Hc & _)]]]; try lia.
  rewrite E. simpl.
  rewrite (Permutation_length (heappush_perm Program_lt _ _)). reflexivity.
Qed.

Lemma run_adds_length ops : forall db,
  Forall (fun op => op <> IncrementGeneration) ops ->
  (Z.of_nat (length (ProgramDatabase.programs db) + length ops)
   <= ProgramDatabase.max_size db)%Z ->
  length (ProgramDatabase.programs (run_ops db ops))
  = (length (ProgramDatabase.programs db) + length ops)%nat.
Proof.
  unfold run_ops.
  induction ops as [|op ops IH]; intros db Hall Hcap; simpl fold_left.
  - simpl. lia.
  - inversion Hall as [|? ? Hop Hrest]; subst.
    destruct op as [c f m p|]; [|congruence].
    simpl length in Hcap. simpl apply_op.
    rewrite IH; [| exact Hrest |];
      rewrite ?add_program_max_size, add_below_capacity_length; simpl length; lia.
Qed.

Lemma db_six_length : length (ProgramDatabase.programs db_six) = 6%nat.
Proof.
  unfold db_six. rewrite run_adds_length.
  - reflexivity.
  - unfold six_adds. repeat constructor; discriminate.
  - simpl. lia.
Qed.

(** C3 as stated fails on a store of six members: the pool holds one
    member, not the top [ceil(6 / 5) = 2]. *)
Lemma sample_pool_not_ceil_fifth :
  length (ProgramDatabase.programs db_six) = 6%nat
  /\ ceil_fifth 6 = 2%nat
  /\ length (sample_pool db_six) = 1%nat
  /\ sample_pool db_six
     <> firstn (ceil_fifth (length (ProgramDatabase.programs db_six)))
               (sorted_reverse fitness (ProgramDatabase.programs db_six)).
Proof.
  pose proof db_six_length as H6.
  assert (Hne : ProgramDatabase.programs db_six <> [])
    by (intros E; rewrite E in H6; discriminate).
  pose proof (sample_pool_length db_six Hne) as Hl. rewrite H6 in Hl.
  split; [exact H6|]. split; [reflexivity|]. split; [exact Hl|].
  intros E. apply (f_equal (@length Program)) in E.
  rewrite Hl, length_firstn, sorted_reverse_length, H6 in E.
  discriminate E.
Qed.

(** ** The simulation *)

(** The nested loops of the capture check as one pass over the mice. *)
Lemma check_captures_map self mice predators :
  PredatorPreyEnvironment.check_captures self mice predators
  = map (fun mouse =>
           if Agent.alive mouse && within_reach self predators mouse
           then Agent.set_alive mouse false else mouse)
        mice.
Proof.
  unfold PredatorPreyEnvironment.check_captures.
  revert mice. induction predators as [|p ps IH]; intros mice.
  - simpl. induction mice as [|m t IHm]; [reflexivity|].
    simpl. rewrite andb_false_r. f_equal. exact IHm.
  - cbn [fold_left]. rewrite IH. rewrite map_map. apply map_ext. intros m.
    cbn [within_reach existsb].
    destruct (Agent.alive m) eqn:Ea; cbn [andb].
    + destruct (float_lt (Agent.distance_to p m)
                         (PredatorPreyEnvironment.capture_distance self)) eqn:Ed;
        cbn [orb].
      * reflexivity.
      * rewrite Ea. reflexivity.
    + rewrite Ea. reflexivity.
Qed.

Section SimulationFacts.
Context `{Runtime}.
Import PredatorPreyEnvironment.

Lemma bind_ok {A B} (m : M A) (k : A -> M B) w a w1 :
  m w = (Ok a, w1) -> bind m k w = k a w1.
Proof. intros E. unfold bind. rewrite E. reflexivity. Qed.


(** What a [bind] that returns went through. *)
Lemma bind_inv_ok {A B} (m : M A) (k : A -> M B) w b w2 :
  bind m k w = (Ok b, w2) ->
  exists a w1, m w = (Ok a, w1) /\ k a w1 = (Ok b, w2).
Proof.
  unfold bind. destruct (m w) as [[a|e] w1]; intros E; [eauto | discriminate].
Qed.

Lemma distance_to_nonneg a b : 0 <= Agent.distance_to a b.
Proof. unfold Agent.distance_to. apply sqrt_pos. Qed.

(** *** The [try] statement around the behaviour *)

Lemma rbind_ok_inv {A B} (r : Result A) (k : A -> Result B) b :
  rbind r k = Ok b -> exists a, r = Ok a /\ k a = Ok b.
Proof. destruct r as [a|e]; simpl; [eauto | discriminate]. Qed.

Lemma rbind_raise_inv {A B} (r : Result A) (k : A -> Result B) e :
  rbind r k = Raise e -> r = Raise e \/ exists a, r = Ok a /\ k a = Raise e.
Proof. destruct r as [a|e0]; simpl; [eauto | intros [= ->]; auto]. Qed.

(** Whatever the unpacking and the arithmetic raise is an error. *)
Lemma unpack_raises_error v e : unpack_pair v = Raise e -> is_Exception e = true.
Proof.
  destruct v as [| | | | | | s | l | items | items | items]; simpl;
    try (intros [= <-]; reflexivity).
  - destruct s as [|c1 [|c2 [|c3 s]]]; intros [= <-]; reflexivity.
  - destruct l as [|i1 [|i2 [|i3 l]]]; intros [= <-]; reflexivity.
  - destruct items as [|i1 [|i2 [|i3 items]]]; intros [= <-]; reflexivity.
  - destruct items as [|i1 [|i2 [|i3 items]]]; intros [= <-]; reflexivity.
  - destruct items as [|i1 [|i2 [|i3 items]]]; intros [= <-]; reflexivity.
Qed.

Lemma as_number_raises_error v e : as_number v = Raise e -> is_Exception e = true.
Proof. destruct v; simpl; intros [= <-]; reflexivity. Qed.

Lemma to_float_raises_error n e : to_float n = Raise e -> is_Exception e = true.
Proof.
  destruct n as [z|f]; simpl; [|discriminate].
  destruct (overflows (IZR z)); intros [= <-]; reflexivity.
Qed.

Lemma py_pow2_raises_error n e : py_pow2 n = Raise e -> is_Exception e = true.
Proof.
  destruct n as [z|[x|s|]]; simpl; try discriminate.
  destruct (overflows (x * x)); intros [= <-]; reflexivity.
Qed.

Lemma py_add_raises_error a b e : py_add a b = Raise e -> is_Exception e = true.
Proof.
  unfold py_add. intros E.
  assert (Hg : match to_float a with
               | Raise e0 => Raise e0
               | Ok fa => match to_float b with
                          | Raise e0 => Raise e0
                          | Ok fb => Ok (NFloat (float_add fa fb))
                          end
               end = Raise e -> is_Exception e = true).
  { destruct (to_float a) eqn:E1;
      [|intros [= <-]; eapply to_float_raises_error; exact E1].
    destruct (to_float b) eqn:E2; [discriminate|].
    intros [= <-]. eapply to_float_raises_error; exact E2. }
  destruct a as [x|fa]; destruct b as [y|fb]; try discriminate E; exact (Hg E).
Qed.

Lemma float_sqrt_raises_error f e : float_sqrt f = Raise e -> is_Exception e = true.
Proof.
  destruct f as [x|[|]|]; simpl; try discriminate.
  - destruct (float_lt x 0); intros [= <-]; reflexivity.
  - intros [= <-]; reflexivity.
Qed.

Lemma math_sqrt_raises_error n e : math_sqrt n = Raise e -> is_Exception e = true.
Proof.
  unfold math_sqrt. destruct (to_float n) eqn:E1.
  - apply float_sqrt_raises_error.
  - intros [= <-]. eapply to_float_raises_error; exact E1.
Qed.

Lemma float_div_raises_error a b e : float_div a b = Raise e -> is_Exception e = true.
Proof.
  destruct a as [x|s|]; destruct b as [y|s'|]; simpl; try discriminate;
    destruct (Req_EM_T y 0); try discriminate; intros [= <-]; reflexivity.
Qed.

Lemma py_truediv_raises_error n d e : py_truediv n d = Raise e -> is_Exception e = true.
Proof.
  unfold py_truediv. destruct (to_float n) eqn:E1.
  - apply float_div_raises_error.
  - intros [= <-]. eapply to_float_raises_error; exact E1.
Qed.

Lemma py_add_float_raises_error a n e :
  py_add_float a n = Raise e -> is_Exception e = true.
Proof.
  unfold py_add_float. destruct (to_float n) eqn:E1; [discriminate|].
  intros [= <-]. eapply to_float_raises_error; exact E1.
Qed.

Lemma apply_direction_raises_error self mouse v e :
  apply_direction self mouse v = Raise e -> is_Exception e = true.
Proof.
  unfold apply_direction. intros E.
  apply rbind_raise_inv in E. destruct E as [E|([dx dy] & _ & E)];
    [eapply unpack_raises_error; exact E|].
  apply rbind_raise_inv in E. destruct E as [E|(nx & _ & E)];
    [eapply as_number_raises_error; exact E|].
  apply rbind_raise_inv in E. destruct E as [E|(x2 & _ & E)];
    [eapply py_pow2_raises_error; exact E|].
  apply rbind_raise_inv in E. destruct E as [E|(ny & _ & E)];
    [eapply as_number_raises_error; exact E|].
  apply rbind_raise_inv in E. destruct E as [E|(y2 & _ & E)];
    [eapply py_pow2_raises_error; exact E|].
  apply rbind_raise_inv in E. destruct E as [E|(total & _ & E)];
    [eapply py_add_raises_error; exact E|].
  apply rbind_raise_inv in E. destruct E as [E|(distance & _ & E)];
    [eapply math_sqrt_raises_error; exact E|].
  apply rbind_raise_inv in E. destruct E as [E|([sx sy] & _ & E)].
  { destruct (float_gt0 distance); [|discriminate E].
    apply rbind_raise_inv in E. destruct E as [E|(qx & _ & E)];
      [eapply py_truediv_raises_error; exact E|].
    apply rbind_raise_inv in E. destruct E as [E|(qy & _ & E)];
      [eapply py_truediv_raises_error; exact E | discriminate E]. }
  apply rbind_raise_inv in E. destruct E as [E|(x' & _ & E)];
    [eapply py_add_float_raises_error; exact E|].
  apply rbind_raise_inv in E. destruct E as [E|(y' & _ & E)];
    [eapply py_add_float_raises_error; exact E | discriminate E].
Qed.

(** A direction that moves the mouse puts it at a clipped position. *)
Lemma apply_direction_shape self mouse v m' :
  apply_direction self mouse v = Ok m' ->
  exists x' y', m' = Agent.set_position mouse (_clip_position self x' y').
Proof.
  unfold apply_direction. intros E.
  apply rbind_ok_inv in E. destruct E as ([dx dy] & _ & E).
  apply rbind_ok_inv in E. destruct E as (nx & _ & E).
  apply rbind_ok_inv in E. destruct E as (x2 & _ & E).
  apply rbind_ok_inv in E. destruct E as (ny & _ & E).
  apply rbind_ok_inv in E. destruct E as (y2 & _ & E).
  apply rbind_ok_inv in E. destruct E as (total & _ & E).
  apply rbind_ok_inv in E. destruct E as (distance & _ & E).
  apply rbind_ok_inv in E. destruct E as ([sx sy] & _ & E).
  apply rbind_ok_inv in E. destruct E as (x' & _ & E).
  apply rbind_ok_inv in E. destruct E as (y' & _ & E).
  injection E as <-. eauto.
Qed.


(** What the [try] statement comes to, by the result of the call. *)
Lemma try_move_by_call self b state mouse np w :
  try_move self b state mouse np w
  = match b state (Agent.x mouse, Agent.y mouse) (Agent.x np, Agent.y np) w with
    | (Ok v, w1) => match apply_direction self mouse v with
                    | Ok m' => (Ok m', w1)
                    | Raise _ => (Ok mouse, w1)
                    end
    | (Raise e, w1) => if is_Exception e then (Ok mouse, w1) else (Raise e, w1)
    end.
Proof.
  unfold try_move, try_except_Exception, bind, lift.
  destruct (b state (Agent.x mouse, Agent.y mouse) (Agent.x np, Agent.y np) w)
    as [[v|e] w1]; [|reflexivity].
  destruct (apply_direction self mouse v) as [m'|e] eqn:Ed; [reflexivity|].
  rewrite (apply_direction_raises_error _ _ _ _ Ed). reflexivity.
Qed.


(** Whatever the behaviour does, [try_move] returns a mouse with the
    same [alive] flag, or lets through an exception that is not an
    error. *)
Lemma try_move_cases self b state mouse np w :
  (exists m' w1, try_move self b state mouse np w = (Ok m', w1)
                 /\ Agent.alive m' = Agent.alive mouse
                 /\ w1 = snd (b state (Agent.x mouse, Agent.y mouse)
                                (Agent.x np, Agent.y np) w))
  \/ (exists e w1, try_move self b state mouse np w = (Raise e, w1)
                   /\ is_Exception e = false
                   /\ b state (Agent.x mouse, Agent.y mouse)
                        (Agent.x np, Agent.y np) w = (Raise e, w1)).
Proof.
  rewrite try_move_by_call.
  destruct (b state (Agent.x mouse, Agent.y mouse) (Agent.x np, Agent.y np) w)
    as [[v|e] w1].
  - left. destruct (apply_direction self mouse v) as [m'|e] eqn:Ed.
    + exists m', w1. split; [reflexivity|]. split; [|reflexivity].
      destruct (apply_direction_shape _ _ _ _ Ed) as (x' & y' & ->). reflexivity.
    + exists mouse, w1. auto.
  - destruct (is_Exception e) eqn:He.
    + left. exists mouse, w1. auto.
    + right. exists e, w1. auto.
Qed.
(** *** The loop over the mice *)

Lemma lift_inv_ok {A} (r : Result A) w a w1 :
  lift r w = (Ok a, w1) -> r = Ok a /\ w1 = w.
Proof. unfold lift. intros [= -> ->]. auto. Qed.

Lemma py_min_by_nearest mouse predators np :
  py_min_by (fun p => Agent.distance_to mouse p) predators = Ok np ->
  np = nearest_predator_of mouse predators /\ predators <> [].
Proof.
  destruct predators as [|p t]; simpl; [discriminate|].
  intros [= <-]. split; [reflexivity | discriminate].
Qed.

Lemma count_alive_cons m t :
  count_alive (m :: t) = ((if Agent.alive m then 1 else 0) + count_alive t)%Z.
Proof.
  unfold count_alive. simpl. destruct (Agent.alive m); simpl length; lia.
Qed.

Lemma count_alive_nonneg l : (0 <= count_alive l)%Z.
Proof. unfold count_alive. lia. Qed.

Lemma update_mice_spec self b state predators mice :
  forall totals w moved totals' w',
  update_mice self b state predators mice totals w = (Ok (moved, totals'), w') ->
  fst totals' = (fst totals + count_alive mice)%Z
  /\ snd totals' = snd totals + distance_sum predators mice moved
  /\ map Agent.alive moved = map Agent.alive mice.
Proof.
  induction mice as [|mouse rest IH]; intros totals w moved totals' w' E.
  - simpl in E. unfold ret in E. injection E as <- <- <-.
    simpl. split; [unfold count_alive; simpl; lia|]. split; [lra | reflexivity].
  - cbn [update_mice] in E. rewrite count_alive_cons.
    destruct (Agent.alive mouse) eqn:Ea; cbn [negb] in E.
    + apply bind_inv_ok in E. destruct E as (np & w1 & Enp & E).
      apply lift_inv_ok in Enp. destruct Enp as [Enp ->].
      apply py_min_by_nearest in Enp. destruct Enp as [-> _].
      apply bind_inv_ok in E. destruct E as (mouse' & w2 & Em & E).
      apply bind_inv_ok in E. destruct E as ([rest' tot2] & w3 & Er & E).
      unfold ret in E. injection E as <- <- <-.
      apply IH in Er. destruct Er as (E1 & E2 & E3). cbn [fst snd] in E1, E2.
      assert (Hal : Agent.alive mouse' = Agent.alive mouse).
      { destruct (try_move_cases self b state mouse
                    (nearest_predator_of mouse predators) w)
          as [(m' & w1' & Em' & Hal & _)|(e & w1' & Em' & _)];
          rewrite Em' in Em; [injection Em as <- _; exact Hal | discriminate]. }
      split; [lia|]. split.
      * rewrite E2. cbn [distance_sum]. rewrite Ea. lra.
      * cbn [map]. rewrite E3, Hal. reflexivity.
    + apply bind_inv_ok in E. destruct E as ([rest' tot2] & w3 & Er & E).
      unfold ret in E. injection E as <- <- <-.
      apply IH in Er. destruct Er as (E1 & E2 & E3).
      split; [lia|]. split.
      * rewrite E2. cbn [distance_sum]. rewrite Ea. lra.
      * cbn [map]. rewrite E3. reflexivity.
Qed.

(** With a predator to look at and a behaviour that raises nothing but
    errors, the loop over the mice returns. *)
Lemma update_mice_returns self b state predators mice :
  raises_only_errors b -> predators <> [] ->
  forall totals w, exists res w',
    update_mice self b state predators mice totals w = (Ok res, w').
Proof.
  intros Hb Hp. induction mice as [|mouse rest IH]; intros totals w.
  - simpl. unfold ret. eauto.
  - cbn [update_mice]. destruct (Agent.alive mouse); cbn [negb].
    + destruct predators as [|p t]; [congruence|].
      unfold py_min_by. unfold bind at 1, lift at 1.
      set (np := min_from _ p t).
      destruct (try_move_cases self b state mouse np w)
        as [(m' & w1 & Em & _)|(e & w1 & _ & He & Eb)].
      * rewrite (bind_ok _ _ _ _ _ Em).
        match goal with
        | |- context [update_mice self b state (p :: t) rest ?tot] =>
            destruct (IH tot w1) as ([rest' tot'] & w2 & Er)
        end.
        rewrite (bind_ok _ _ _ _ _ Er). unfold ret. eauto.
      * apply Hb in Eb. congruence.
    + destruct (IH totals w) as ([rest' tot'] & w2 & Er).
      rewrite (bind_ok _ _ _ _ _ Er). unfold ret. eauto.
Qed.

Lemma distance_sum_nonneg predators mice moved : 0 <= distance_sum predators mice moved.
Proof.
  revert moved; induction mice as [|m t IH]; intros [|m' t']; simpl; try lra.
  specialize (IH t').
  destruct (Agent.alive m); [pose proof (distance_to_nonneg m' (nearest_predator_of m predators))|]; lra.
Qed.

(** *** One step, and the loop over the steps *)

Lemma step_body_spec self b step s w s' w' :
  step_body self b step s w = (Ok s', w') ->
  exists moved totals,
    update_mice self b
      {| st_step := step; st_width := width self; st_height := height self;
         st_num_alive := count_alive (mice s) |}
      (predators s) (mice s) (total_survival_steps s, total_distance_score s) w
    = (Ok (moved, totals), w')
    /\ total_survival_steps s' = (total_survival_steps s + count_alive (mice s))%Z
    /\ total_distance_score s'
       = total_distance_score s + distance_sum (predators s) (mice s) moved
    /\ length (predators s') = length (predators s).
Proof.
  unfold step_body. intros E.
  apply bind_inv_ok in E. destruct E as ([moved totals] & w1 & Em & E).
  unfold ret in E. injection E as <- <-.
  exists moved, totals. split; [exact Em|].
  apply update_mice_spec in Em. destruct Em as (E1 & E2 & _).
  cbn [fst snd] in E1, E2. simpl.
  split; [exact E1|]. split; [exact E2|].
  unfold update_predators. apply length_map.
Qed.

Lemma step_body_returns self b step s w :
  raises_only_errors b -> predators s <> [] ->
  exists s' w', step_body self b step s w = (Ok s', w').
Proof.
  intros Hb Hp. unfold step_body.
  match goal with
  | |- context [update_mice self b ?st (predators s) (mice s) ?tot] =>
      destruct (update_mice_returns self b st (predators s) (mice s) Hb Hp tot w)
        as ([moved totals] & w1 & Em)
  end.
  rewrite (bind_ok _ _ _ _ _ Em). unfold ret. eauto.
Qed.

Lemma run_steps_totals self b steps :
  forall s w s' w',
  run_steps self b steps s w = (Ok s', w') ->
  total_survival_steps s'
  = (total_survival_steps s + survival_steps_of (steps_trace self b steps s w))%Z
  /\ total_distance_score s'
     = total_distance_score s + distance_score_of (steps_trace self b steps s w).
Proof.
  induction steps as [|step rest IH]; intros s w s' w' E.
  - simpl in E. unfold ret in E. injection E as <- <-. simpl. split; [lia | lra].
  - cbn [run_steps] in E.
    apply bind_inv_ok in E. destruct E as (s1 & w1 & Es & E).
    destruct (step_body_spec _ _ _ _ _ _ _ Es) as (moved & totals & Em & E1 & E2 & _).
    cbn [steps_trace]. rewrite Em, Es.
    unfold survival_steps_of, distance_score_of. cbn [fold_right rec_mice rec_predators rec_moved].
    fold (survival_steps_of
            (if negb (existsb Agent.alive (mice s1)) then []
             else steps_trace self b rest s1 w1)).
    fold (distance_score_of
            (if negb (existsb Agent.alive (mice s1)) then []
             else steps_trace self b rest s1 w1)).
    destruct (negb (existsb Agent.alive (mice s1))).
    + unfold ret in E. injection E as <- <-. simpl. split; [lia | lra].
    + apply IH in E. destruct E as [E3 E4]. split; [lia | lra].
Qed.

Lemma run_steps_returns self b steps :
  raises_only_errors b ->
  forall s w, predators s <> [] ->
  exists s' w', run_steps self b steps s w = (Ok s', w').
Proof.
  intros Hb. induction steps as [|step rest IH]; intros s w Hp.
  - simpl. unfold ret. eauto.
  - cbn [run_steps].
    destruct (step_body_returns self b step s w Hb Hp) as (s1 & w1 & Es).
    rewrite (bind_ok _ _ _ _ _ Es).
    destruct (negb (existsb Agent.alive (mice s1))); [unfold ret; eauto|].
    apply IH.
    destruct (step_body_spec _ _ _ _ _ _ _ Es) as (_ & _ & _ & _ & _ & Hl).
    destruct (predators s1); [|discriminate].
    destruct (predators s); [congruence | discriminate].
Qed.

Lemma survival_steps_of_nonneg tr : (0 <= survival_steps_of tr)%Z.
Proof.
  induction tr as [|r t IH]; simpl; [lia|].
  pose proof (count_alive_nonneg (rec_mice r)). lia.
Qed.

Lemma distance_score_of_nonneg tr : 0 <= distance_score_of tr.
Proof.
  induction tr as [|r t IH]; simpl; [lra|].
  pose proof (distance_sum_nonneg (rec_predators r) (rec_mice r) (rec_moved r)). lra.
Qed.

(** *** Placement *)

Lemma random_uniform_ok a b w :
  random_uniform a b w = (Ok (a + (b - a) * fst (random_random w)), snd (random_random w)).
Proof. unfold random_uniform. destruct (random_random w); reflexivity. Qed.

Lemma spawn_agents_returns self n : forall w,
  exists l w', spawn_agents self n w = (Ok l, w') /\ length l = n.
Proof.
  induction n as [|n IH]; intros w.
  - simpl. unfold ret. eauto.
  - cbn [spawn_agents].
    rewrite (bind_ok _ _ _ _ _ (random_uniform_ok _ _ _)).
    rewrite (bind_ok _ _ _ _ _ (random_uniform_ok _ _ _)).
    match goal with
    | |- context [bind (spawn_agents self n) _ ?w0] =>
        destruct (IH w0) as (l & w' & El & Hl)
    end.
    rewrite (bind_ok _ _ _ _ _ El). unfold ret.
    eexists _, w'. split; [reflexivity|]. simpl. lia.
Qed.

Lemma initialize_agents_returns self w :
  exists mice predators w',
    _initialize_agents self w = (Ok (mice, predators), w')
    /\ length mice = Z.to_nat (num_mice self)
    /\ length predators = Z.to_nat (num_predators self).
Proof.
  unfold _initialize_agents.
  destruct (spawn_agents_returns self (Z.to_nat (num_mice self)) w) as (m & w1 & Em & Hm).
  destruct (spawn_agents_returns self (Z.to_nat (num_predators self)) w1)
    as (p & w2 & Ep & Hp).
  rewrite (bind_ok _ _ _ _ _ Em), (bind_ok _ _ _ _ _ Ep). unfold ret.
  exists m, p, w2. auto.
Qed.

(** *** The score *)

Lemma py_true_div_inv a b r : py_true_div a b = Ok r -> b <> 0%Z /\ r = IZR a / IZR b.
Proof.
  unfold py_true_div. destruct (Z.eqb_spec b 0); [discriminate|].
  intros [= <-]. auto.
Qed.

Lemma fitness_of_inv self s w v w' :
  fitness_of self s w = (Ok v, w') ->
  (num_mice self * max_steps self)%Z <> 0%Z /\ num_mice self <> 0%Z /\ w' = w
  /\ v = 100 * (IZR (total_survival_steps s) / IZR (num_mice self * max_steps self))
         + 0.5 * (total_distance_score s / IZR (Z.max 1 (total_survival_steps s)))
         + 50 * (IZR (count_alive (mice s)) / IZR (num_mice self)).
Proof.
  unfold fitness_of. intros E.
  apply bind_inv_ok in E. destruct E as (a & w1 & Ea & E).
  apply lift_inv_ok in Ea. destruct Ea as [Ea ->].
  apply bind_inv_ok in E. destruct E as (f & w1 & Ef & E).
  apply lift_inv_ok in Ef. destruct Ef as [Ef ->].
  unfold ret in E. injection E as <- <-.
  apply py_true_div_inv in Ea, Ef. destruct Ea as [Hn ->]. destruct Ef as [Hm ->].
  repeat split; auto. lra.
Qed.

Lemma fitness_of_returns self s w :
  (num_mice self * max_steps self)%Z <> 0%Z ->
  exists v, fitness_of self s w = (Ok v, w).
Proof.
  intros Hn. unfold fitness_of, py_true_div, bind, lift, ret.
  destruct (Z.eqb_spec (num_mice self * max_steps self) 0); [contradiction|].
  destruct (Z.eqb_spec (num_mice self) 0); [lia|]. eauto.
Qed.

Lemma simulate_returns self b w :
  raises_only_errors b -> (0 < num_predators self)%Z ->
  exists s w', simulate self b w = (Ok s, w').
Proof.
  intros Hb Hp. unfold simulate.
  destruct (initialize_agents_returns self w) as (m & p & w1 & Ei & _ & Hl).
  rewrite (bind_ok _ _ _ _ _ Ei). cbv beta iota.
  apply run_steps_returns; [exact Hb|]. simpl.
  destruct p; [simpl in Hl; lia | discriminate].
Qed.

Lemma run_simulation_returns self b w :
  (0 < num_mice self)%Z -> (0 < max_steps self)%Z -> (0 < num_predators self)%Z ->
  raises_only_errors b ->
  exists v w', run_simulation self b w = (Ok v, w').
Proof.
  intros Hm Hs Hp Hb. unfold run_simulation.
  destruct (simulate_returns self b w Hb Hp) as (s & w1 & Es).
  rewrite (bind_ok _ _ _ _ _ Es).
  destruct (fitness_of_returns self s w1) as [v Ev]; [nia|]. eauto.
Qed.

Lemma simulate_totals self b w s w' :
  simulate self b w = (Ok s, w') ->
  total_survival_steps s = survival_steps_of (simulation_trace self b w)
  /\ total_distance_score s = distance_score_of (simulation_trace self b w).
Proof.
  unfold simulate, simulation_trace. intros E.
  apply bind_inv_ok in E. destruct E as ([m p] & w1 & Ei & E).
  rewrite Ei. apply run_steps_totals in E. simpl in E.
  destruct E as [E1 E2]. split; [lia | lra].
Qed.

(** C4.  The value one trial returns is
    [100*avgSurvival + 0.5*avgDistance + 50*finalAlive], where
    [avgSurvival = survivalSteps / (numPrey * maxSteps)],
    [avgDistance = distanceScore / max(1, survivalSteps)] and
    [finalAlive] is the fraction of prey alive when the loop is left;
    [survivalSteps] counts, over the executed steps, the prey alive at
    the start of the step, and [distanceScore] sums, over the same
    (prey, step) pairs, the distance from the prey after its move to its
    nearest predator. *)
Theorem run_simulation_fitness_formula self b w v w' :
  run_simulation self b w = (Ok v, w') ->
  let trace := simulation_trace self b w in
  let survivalSteps := survival_steps_of trace in
  let distanceScore := distance_score_of trace in
  exists s,
    simulate self b w = (Ok s, w')
    /\ total_survival_steps s = survivalSteps
    /\ total_distance_score s = distanceScore
    /\ v = 100 * (IZR survivalSteps / IZR (num_mice self * max_steps self))
           + 0.5 * (distanceScore / IZR (Z.max 1 survivalSteps))
           + 50 * (IZR (count_alive (mice s)) / IZR (num_mice self)).
Proof.
  intros E trace survivalSteps distanceScore. unfold run_simulation in E.
  apply bind_inv_ok in E. destruct E as (s & w1 & Es & Ef).
  apply fitness_of_inv in Ef. destruct Ef as (_ & _ & -> & Ev).
  destruct (simulate_totals _ _ _ _ _ Es) as [E1 E2].
  exists s. split; [exact Es|].
  fold trace in E1, E2. fold survivalSteps in E1. fold distanceScore in E2.
  rewrite E1, E2 in Ev. auto.
Qed.



End SimulationFacts.

Lemma example_raises_only_errors :
  @raises_only_errors Example.runtime Example.always_raises.
Proof. intros st mp pp w e w' [= <- _]. reflexivity. Qed.

(** *** Arithmetic inside the range of the doubles *)







(** *** The [try] statement at two results *)






(** The theorem at the trial of the same behaviour from the start of the
    random sequence. *)
Lemma run_simulation_fitness_formula_witness :
  exists v w',
    @PredatorPreyEnvironment.run_simulation Example.runtime Example.small_env
      Example.always_raises 0%nat = (Ok v, w')
    /\ exists s,
        @PredatorPreyEnvironment.simulate Example.runtime Example.small_env
          Example.always_raises 0%nat = (Ok s, w')
        /\ v = 100 * (IZR (@PredatorPreyEnvironment.total_survival_steps s) / IZR (1 * 2))
               + 0.5 * (@PredatorPreyEnvironment.total_distance_score s
                        / IZR (Z.max 1 (@PredatorPreyEnvironment.total_survival_steps s)))
               + 50 * (IZR (count_alive (PredatorPreyEnvironment.mice s)) / IZR 1).
Proof.
  destruct (@run_simulation_returns Example.runtime Example.small_env
              Example.always_raises 0%nat)
    as (v & w' & E);
    [simpl; lia | simpl; lia | simpl; lia | exact example_raises_only_errors|].
  exists v, w'. split; [exact E|].
  destruct (@run_simulation_fitness_formula Example.runtime Example.small_env
              Example.always_raises 0%nat v w' E) as (s & Es & E1 & E2 & Ev).
  exists s. split; [exact Es|]. rewrite E1, E2. exact Ev.
Defined.

(** ** Determinism of a trial *)

Section Determinism.
Context `{Runtime}.
Import PredatorPreyEnvironment.

Lemma pure_ret {A} (a : A) : pure_M (ret a).
Proof. exists (Ok a). reflexivity. Qed.

Lemma pure_lift {A} (r : Result A) : pure_M (lift r).
Proof. exists r. reflexivity. Qed.

Lemma pure_bind {A B} (m : M A) (k : A -> M B) :
  pure_M m -> (forall a, pure_M (k a)) -> pure_M (bind m k).
Proof.
  intros [r Hr] Hk. destruct r as [a|e].
  - destruct (Hk a) as [rb Hb]. exists rb. intros w.
    unfold bind. rewrite Hr. apply Hb.
  - exists (Raise e). intros w. unfold bind. rewrite Hr. reflexivity.
Qed.

Lemma pure_try {A} (body : M A) (handler : PyExc -> M A) :
  pure_M body -> (forall e, pure_M (handler e)) ->
  pure_M (try_except_Exception body handler).
Proof.
  intros [r Hr] Hh. destruct r as [a|e].
  - exists (Ok a). intros w. unfold try_except_Exception. rewrite Hr. reflexivity.
  - destruct (is_Exception e) eqn:He.
    + destruct (Hh e) as [rh Hrh]. exists rh. intros w.
      unfold try_except_Exception. rewrite Hr, He. apply Hrh.
    + exists (Raise e). intros w.
      unfold try_except_Exception. rewrite Hr, He. reflexivity.
Qed.

Lemma pure_call b st mp pp : deterministic b -> pure_M (b st mp pp).
Proof. intros [f Hf]. exists (f st mp pp). intros w. apply Hf. Qed.

Lemma pure_try_move self b state mouse np :
  deterministic b -> pure_M (try_move self b state mouse np).
Proof.
  intros Hb. unfold try_move. apply pure_try; [|intros; apply pure_ret].
  apply pure_bind; [apply pure_call; exact Hb|]. intros v.
  apply pure_lift.
Qed.

Lemma pure_update_mice self b state predators mice :
  deterministic b -> forall totals, pure_M (update_mice self b state predators mice totals).
Proof.
  intros Hb. induction mice as [|mouse rest IH]; intros totals; cbn [update_mice].
  - apply pure_ret.
  - destruct (negb (Agent.alive mouse)).
    + apply pure_bind; [apply IH|]. intros [rest' tot']. apply pure_ret.
    + apply pure_bind; [apply pure_lift|]. intros np.
      apply pure_bind; [apply pure_try_move; exact Hb|]. intros mouse'.
      apply pure_bind; [apply IH|]. intros [rest' tot']. apply pure_ret.
Qed.

Lemma pure_step_body self b step s : deterministic b -> pure_M (step_body self b step s).
Proof.
  intros Hb. unfold step_body.
  apply pure_bind; [apply pure_update_mice; exact Hb|].
  intros [mice1 totals]. apply pure_ret.
Qed.

Lemma pure_run_steps self b steps :
  deterministic b -> forall s, pure_M (run_steps self b steps s).
Proof.
  intros Hb. induction steps as [|step rest IH]; intros s; cbn [run_steps].
  - apply pure_ret.
  - apply pure_bind; [apply pure_step_body; exact Hb|]. intros s'.
    destruct (negb _); [apply pure_ret | apply IH].
Qed.

Lemma pure_fitness_of self s : pure_M (fitness_of self s).
Proof.
  unfold fitness_of.
  apply pure_bind; [apply pure_lift|]. intros a.
  apply pure_bind; [apply pure_lift|]. intros f. apply pure_ret.
Qed.

Lemma run_simulation_split self b w :
  run_simulation self b w = bind (_initialize_agents self) (after_placement self b) w.
Proof.
  unfold run_simulation, simulate, after_placement, bind.
  destruct (_initialize_agents self w) as [[[m p]|e] w1]; reflexivity.
Qed.

Lemma pure_after_placement self b agents :
  deterministic b -> pure_M (after_placement self b agents).
Proof.
  intros Hb. unfold after_placement.
  apply pure_bind; [apply pure_run_steps; exact Hb|].
  intros s. apply pure_fitness_of.
Qed.

(** *** The random sequence *)

Lemma draw_next w k : draw (snd (random_random w)) k = draw w (S k).
Proof.
  unfold draw, world_after. rewrite Nat.iter_succ_r. reflexivity.
Qed.

Lemma same_draws_next w1 w2 :
  same_draws w1 w2 -> same_draws (snd (random_random w1)) (snd (random_random w2)).
Proof. intros Hd k. rewrite !draw_next. apply Hd. Qed.

Lemma same_draws_first w1 w2 :
  same_draws w1 w2 -> fst (random_random w1) = fst (random_random w2).
Proof. intros Hd. apply (Hd 0%nat). Qed.

Lemma same_draws_seed s w1 w2 : same_draws (random_seed s w1) (random_seed s w2).
Proof. intros k. apply random_seed_draws. Qed.

Lemma respects_ret {A} (a : A) : respects_draws (ret a).
Proof. intros w1 w2 Hd. simpl. auto. Qed.

Lemma respects_pure {A} (m : M A) : pure_M m -> respects_draws m.
Proof. intros [r Hr] w1 w2 Hd. rewrite !Hr. simpl. auto. Qed.

Lemma respects_bind {A B} (m : M A) (k : A -> M B) :
  respects_draws m -> (forall a, respects_draws (k a)) -> respects_draws (bind m k).
Proof.
  intros Hm Hk w1 w2 Hd. destruct (Hm w1 w2 Hd) as [E1 E2]. unfold bind.
  destruct (m w1) as [[a1|e1] v1]; destruct (m w2) as [[a2|e2] v2];
    simpl in E1, E2; try discriminate; injection E1 as <-.
  - apply Hk; exact E2.
  - simpl. auto.
Qed.

Lemma respects_uniform a b : respects_draws (random_uniform a b).
Proof.
  intros w1 w2 Hd. unfold random_uniform.
  pose proof (same_draws_first _ _ Hd) as E1.
  pose proof (same_draws_next _ _ Hd) as E2.
  destruct (random_random w1) as [u1 v1]; destruct (random_random w2) as [u2 v2].
  simpl in *. subst u2. auto.
Qed.

Lemma respects_spawn_agents self n : respects_draws (spawn_agents self n).
Proof.
  induction n as [|n IH]; cbn [spawn_agents].
  - apply respects_ret.
  - apply respects_bind; [apply respects_uniform|]. intros x.
    apply respects_bind; [apply respects_uniform|]. intros y.
    apply respects_bind; [exact IH|]. intros rest. apply respects_ret.
Qed.

Lemma respects_initialize_agents self : respects_draws (_initialize_agents self).
Proof.
  unfold _initialize_agents.
  apply respects_bind; [apply respects_spawn_agents|]. intros m.
  apply respects_bind; [apply respects_spawn_agents|]. intros p.
  apply respects_ret.
Qed.

Lemma run_simulation_world self b w :
  deterministic b ->
  snd (run_simulation self b w) = snd (_initialize_agents self w).
Proof.
  intros Hb. rewrite run_simulation_split. unfold bind.
  destruct (_initialize_agents self w) as [[agents|e] w1]; [|reflexivity].
  destruct (pure_after_placement self b agents Hb) as [r Hr].
  rewrite Hr. reflexivity.
Qed.

Lemma run_simulation_placement self b w1 w2 :
  deterministic b ->
  fst (_initialize_agents self w1) = fst (_initialize_agents self w2) ->
  fst (run_simulation self b w1) = fst (run_simulation self b w2).
Proof.
  intros Hb E. rewrite !run_simulation_split. unfold bind.
  destruct (_initialize_agents self w1) as [[a1|e1] v1];
  destruct (_initialize_agents self w2) as [[a2|e2] v2];
    simpl in E; try discriminate; injection E as <-; [|reflexivity].
  destruct (pure_after_placement self b a1 Hb) as [r Hr].
  rewrite !Hr. reflexivity.
Qed.

Lemma respects_run_simulation self b :
  deterministic b -> respects_draws (run_simulation self b).
Proof.
  intros Hb w1 w2 Hd.
  destruct (respects_initialize_agents self _ _ Hd) as [E1 E2].
  split; [apply run_simulation_placement; assumption|].
  rewrite !run_simulation_world by exact Hb. exact E2.
Qed.

Lemma respects_run_trials ev b n :
  deterministic b -> respects_draws (Evaluator.run_trials ev b n).
Proof.
  intros Hb. induction n as [|n IH]; cbn [Evaluator.run_trials].
  - apply respects_ret.
  - apply respects_bind; [apply respects_run_simulation; exact Hb|]. intros score.
    apply respects_bind; [exact IH|]. intros scores. apply respects_ret.
Qed.

(** C7.  For a deterministic behaviour a trial draws on randomness only
    to place the agents: the world after the trial is the world after
    the placement, two trials with the same placement return the same
    score, and so do two trials, and two runs of the trials of an
    evaluation, each started right after [random.seed] with the same
    seed, whatever happened before the seed was set. *)
Theorem same_seed_same_fitness self b :
  deterministic b ->
  (forall w, snd (run_simulation self b w) = snd (_initialize_agents self w))
  /\ (forall w1 w2,
        fst (_initialize_agents self w1) = fst (_initialize_agents self w2) ->
        fst (run_simulation self b w1) = fst (run_simulation self b w2))
  /\ (forall seed w1 w2,
        fst (run_simulation self b (random_seed seed w1))
        = fst (run_simulation self b (random_seed seed w2)))
  /\ (forall n seed w1 w2,
        fst (Evaluator.run_trials {| Evaluator.environment := self |} b n
                                  (random_seed seed w1))
        = fst (Evaluator.run_trials {| Evaluator.environment := self |} b n
                                    (random_seed seed w2))).
Proof.
  intros Hb. split; [|split; [|split]].
  - intros w. apply run_simulation_world; exact Hb.
  - intros w1 w2. apply run_simulation_placement; exact Hb.
  - intros seed w1 w2.
    apply respects_run_simulation; [exact Hb | apply same_draws_seed].
  - intros n seed w1 w2.
    apply respects_run_trials; [exact Hb | apply same_draws_seed].
Qed.
End Determinism.

Lemma example_deterministic : @deterministic Example.runtime Example.go_right.
Proof.
  exists (fun _ _ _ => Ok (PyTuple [PyInt 1; PyInt 0])). reflexivity.
Qed.

(** The theorem at the behaviour [return (1, 0)], seed 7, before and after
    three draws. *)
Lemma same_seed_same_fitness_witness :
  fst (@PredatorPreyEnvironment.run_simulation Example.runtime Example.small_env
         Example.go_right (@random_seed Example.runtime 7 0%nat))
  = fst (@PredatorPreyEnvironment.run_simulation Example.runtime Example.small_env
           Example.go_right (@random_seed Example.runtime 7 3%nat)).
Proof.
  apply (@same_seed_same_fitness Example.runtime Example.small_env Example.go_right
           example_deterministic).
Defined.

(** ** The evaluator *)

Section EvaluatorFacts.
Context `{Runtime}.
Import PredatorPreyEnvironment.

Lemma div_nonneg a b : 0 <= a -> 0 < b -> 0 <= a / b.
Proof.
  intros Ha Hb. unfold Rdiv. apply Rmult_le_pos; [exact Ha|].
  left. apply Rinv_0_lt_compat. exact Hb.
Qed.

(** A trial that returns, in an environment with prey and steps,
    returns a score that is not negative. *)
Lemma run_simulation_nonneg self b w v w' :
  (0 < num_mice self)%Z -> (0 < max_steps self)%Z ->
  run_simulation self b w = (Ok v, w') -> 0 <= v.
Proof.
  intros Hm Hs E. unfold run_simulation in E.
  apply bind_inv_ok in E. destruct E as (s & w1 & Es & Ef).
  apply fitness_of_inv in Ef. destruct Ef as (_ & _ & _ & ->).
  destruct (simulate_totals _ _ _ _ _ Es) as [-> ->].
  pose proof (survival_steps_of_nonneg (simulation_trace self b w)) as HS.
  pose proof (distance_score_of_nonneg (simulation_trace self b w)) as HD.
  pose proof (count_alive_nonneg (mice s)) as HC.
  assert (0 <= IZR (survival_steps_of (simulation_trace self b w))
               / IZR (num_mice self * max_steps self)).
  { apply div_nonneg; [apply IZR_le; exact HS | apply IZR_lt; nia]. }
  assert (0 <= distance_score_of (simulation_trace self b w)
               / IZR (Z.max 1 (survival_steps_of (simulation_trace self b w)))).
  { apply div_nonneg; [exact HD | apply IZR_lt; lia]. }
  assert (0 <= IZR (count_alive (mice s)) / IZR (num_mice self)).
  { apply div_nonneg; [apply IZR_le; exact HC | apply IZR_lt; lia]. }
  lra.
Qed.

Lemma run_trials_nonneg ev b n : forall w scores w',
  (0 < num_mice (Evaluator.environment ev))%Z ->
  (0 < max_steps (Evaluator.environment ev))%Z ->
  Evaluator.run_trials ev b n w = (Ok scores, w') ->
  Forall (fun v => 0 <= v) scores /\ length scores = n.
Proof.
  induction n as [|n IH]; intros w scores w' Hm Hs E.
  - simpl in E. unfold ret in E. injection E as <- _. auto.
  - cbn [Evaluator.run_trials] in E.
    apply bind_inv_ok in E. destruct E as (v & w1 & Ev & E).
    apply bind_inv_ok in E. destruct E as (rest & w2 & Er & E).
    unfold ret in E. injection E as <- _.
    apply IH in Er; auto. destruct Er as [Hall Hlen].
    split; [|simpl; lia]. constructor; [|exact Hall].
    eapply run_simulation_nonneg; eassumption.
Qed.

Lemma fold_plus_nonneg l : forall acc,
  0 <= acc -> Forall (fun v => 0 <= v) l -> 0 <= fold_left Rplus l acc.
Proof.
  induction l as [|v t IH]; intros acc Ha Hall; simpl; [exact Ha|].
  inversion Hall; subst. apply IH; [lra | assumption].
Qed.

Lemma py_div_len_nonneg scores avg :
  Forall (fun v => 0 <= v) scores ->
  py_div_len (py_sum scores) scores = Ok avg -> 0 <= avg.
Proof.
  intros Hall E. unfold py_div_len in E.
  destruct scores as [|v t] eqn:Es; [discriminate|]. injection E as <-.
  apply div_nonneg.
  - apply fold_plus_nonneg; [lra | exact Hall].
  - apply (lt_0_INR (S (length t))). lia.
Qed.

(** What [evaluate] does with the outcome of its [try] body. *)
Lemma evaluate_by_body ev src n w :
  Evaluator.evaluate ev src n w =
  match Evaluator.evaluate_body ev src n w with
  | (Ok a, w') => (Ok a, w')
  | (Raise e, w') =>
      if is_Exception e
      then match py_str_exc e w' with
           | (Ok msg, w'') =>
               (Ok (-1.0, [("error", DStr msg);
                           ("traceback", DStr (format_exc e))]), w'')
           | (Raise e', w'') => (Raise e', w'')
           end
      else (Raise e, w')
  end.
Proof.
  unfold Evaluator.evaluate, try_except_Exception.
  destruct (Evaluator.evaluate_body ev src n w) as [[a|e] w']; [reflexivity|].
  destruct (is_Exception e); [|reflexivity].
  unfold bind, ret. destruct (py_str_exc e w') as [[msg|e'] w'']; reflexivity.
Qed.


(** C10.  With [num_trials = 0] and a source that defines the entry
    point, the mean over no trials is not returned: the division raises
    [ZeroDivisionError] inside the [try], and the call returns fitness
    -1.0 with the error text and the traceback. *)
Theorem evaluate_zero_trials ev src w scope behavior_fn w1 :
  py_exec src w = (Ok scope, w1) ->
  scope_get scope "mice_behavior" = Some behavior_fn ->
  Evaluator.evaluate_body ev src 0 w
  = (Raise (mkExc ZeroDivisionError "division by zero"), w1)
  /\ Evaluator.evaluate ev src 0 w
     = (Ok (-1.0,
            [("error", DStr "division by zero");
             ("traceback",
              DStr (format_exc (mkExc ZeroDivisionError "division by zero")))]),
        w1).
Proof.
  intros Ex Hs.
  assert (Eb : Evaluator.evaluate_body ev src 0 w
               = (Raise (mkExc ZeroDivisionError "division by zero"), w1)).
  { unfold Evaluator.evaluate_body. rewrite (bind_ok _ _ _ _ _ Ex), Hs. reflexivity. }
  split; [exact Eb|]. rewrite evaluate_by_body, Eb. reflexivity.
Qed.

(** C9.  In an environment with at least one prey and one step, a trial
    that returns a score returns one that is not negative, so never the
    sentinel -1.0; [evaluate] then returns fitness -1.0 exactly when its
    metadata carries an error. *)
Theorem trial_score_nonnegative self b w :
  (0 < num_mice self)%Z -> (0 < max_steps self)%Z ->
  (forall v w', run_simulation self b w = (Ok v, w') -> 0 <= v /\ v <> -1.0)
  /\ (forall src n w0 f meta w',
        Evaluator.evaluate {| Evaluator.environment := self |} src n w0
        = (Ok (f, meta), w') ->
        (f = -1.0 <-> dict_get meta "error" <> None)).
Proof.
  intros Hm Hs. split.
  - intros v w' E. pose proof (run_simulation_nonneg _ _ _ _ _ Hm Hs E). split; lra.
  - intros src n w0 f meta w' E. rewrite evaluate_by_body in E.
    destruct (Evaluator.evaluate_body _ src n w0) as [[a|e] w1] eqn:Eb.
    + injection E as -> _. unfold Evaluator.evaluate_body in Eb.
      apply bind_inv_ok in Eb. destruct Eb as (scope & w2 & _ & Eb).
      destruct (scope_get scope "mice_behavior") as [bf|].
      * apply bind_inv_ok in Eb. destruct Eb as (scores & w3 & Et & Eb).
        apply bind_inv_ok in Eb. destruct Eb as (avg & w4 & Ea & Eb).
        apply lift_inv_ok in Ea. destruct Ea as [Ea _].
        apply bind_inv_ok in Eb. destruct Eb as (mn & w5 & _ & Eb).
        apply bind_inv_ok in Eb. destruct Eb as (mx & w6 & _ & Eb).
        unfold ret in Eb. injection Eb as <- <- _.
        apply run_trials_nonneg in Et; [|exact Hm | exact Hs].
        pose proof (py_div_len_nonneg _ _ (proj1 Et) Ea).
        split; [lra|]. simpl. congruence.
      * unfold ret in Eb. injection Eb as <- <- _.
        split; [intros _; simpl; discriminate | reflexivity].
    + destruct (is_Exception e); [|discriminate].
      destruct (py_str_exc e w1) as [[msg|e0] w2]; [|discriminate].
      injection E as <- <- _.
      split; [intros _; simpl; discriminate | reflexivity].
Qed.
End EvaluatorFacts.


(** It also fails on a source that raises an error whose text cannot be
    computed: the [RuntimeError] that [str(e)] raises in the handler
    reaches the caller. *)
Lemma evaluate_raises_from_str :
  @Evaluator.evaluate Example.runtime
    {| Evaluator.environment := PredatorPreyEnvironment.default |}
    Example.src_bad_str 10 0%nat
  = (Raise (mkExc RuntimeError "no text"), 0%nat).
Proof. reflexivity. Qed.

(** The theorem at the source that defines [mice_behavior]. *)
Lemma evaluate_zero_trials_witness :
  @Evaluator.evaluate Example.runtime
    {| Evaluator.environment := PredatorPreyEnvironment.default |}
    Example.src_right 0 0%nat
  = (Ok (-1.0,
         [("error", DStr "division by zero");
          ("traceback",
           DStr (@format_exc Example.runtime
                   (mkExc ZeroDivisionError "division by zero")))]),
     0%nat).
Proof.
  apply (@evaluate_zero_trials Example.runtime _ Example.src_right 0%nat
           [("mice_behavior", Example.go_right)] Example.go_right 0%nat);
    reflexivity.
Defined.

(** The theorem at the default environment, for the trial that starts
    the random sequence. *)
Lemma trial_score_nonnegative_witness :
  exists v w',
    @PredatorPreyEnvironment.run_simulation Example.runtime
      PredatorPreyEnvironment.default Example.go_right 0%nat = (Ok v, w')
    /\ 0 <= v /\ v <> -1.0.
Proof.
  destruct (@run_simulation_returns Example.runtime PredatorPreyEnvironment.default
              Example.go_right 0%nat) as (v & w' & E);
    [simpl; lia | simpl; lia | simpl; lia | |].
  - intros st mp pp w e w1 E. discriminate E.
  - exists v, w'. split; [exact E|].
    apply (proj1 (@trial_score_nonnegative Example.runtime
                    PredatorPreyEnvironment.default Example.go_right 0%nat
                    ltac:(simpl; lia) ltac:(simpl; lia)) v w' E).
Defined.

(** ** The search loop *)

Section FunSearchFacts.
Context `{Runtime}.

(** C8.  When the source the sampler proposes fails [is_valid],
    [run_iteration] returns
    [{'success': False, 'reason': 'invalid_syntax', 'fitness': -1.0}];
    the calls it made are the sampling of a parent, the sampling of the
    candidate and the validity check, so neither [evaluate] nor
    [add_program] was called: the database and the world are as the
    sampler left them, [total_samples] is one more and the other
    statistics are unchanged. *)
Theorem run_iteration_invalid_syntax (self : FunSearch.t) w parent w1 new_program w2 :
  ProgramDatabase.sample_program (FunSearch.database self) w = (Ok parent, w1) ->
  FunSearch.sampler_sample (FunSearch.sampler self) FunSearch.prompt
    (match parent with Some p => Some [code p] | None => None end) w1
  = (Ok new_program, w2) ->
  Evaluator.is_valid (FunSearch.evaluator self) new_program = false ->
  exists self' calls,
    FunSearch.run_iteration self w
    = ((self', calls,
        Ok [("success", DBool false); ("reason", DStr "invalid_syntax");
            ("fitness", DFloat (-1.0))]), w2)
    /\ calls = [FunSearch.CallSampleProgram;
                FunSearch.CallSample
                  (match parent with Some p => Some [code p] | None => None end);
                FunSearch.CallIsValid new_program]
    /\ FunSearch.database self' = FunSearch.database self
    /\ FunSearch.total_samples (FunSearch.stats self')
       = (FunSearch.total_samples (FunSearch.stats self) + 1)%Z
    /\ FunSearch.valid_samples (FunSearch.stats self')
       = FunSearch.valid_samples (FunSearch.stats self)
    /\ FunSearch.accepted_samples (FunSearch.stats self')
       = FunSearch.accepted_samples (FunSearch.stats self)
    /\ FunSearch.best_fitness (FunSearch.stats self')
       = FunSearch.best_fitness (FunSearch.stats self).
Proof.
  intros Ep Es Ev.
  exists (FunSearch.incr_total_samples self). eexists.
  split; [|repeat split].
  unfold FunSearch.run_iteration. rewrite Ep, Es.
  change (FunSearch.evaluator (FunSearch.incr_total_samples self))
    with (FunSearch.evaluator self).
  rewrite Ev. reflexivity.
Qed.
End FunSearchFacts.

(** The theorem at a search whose sampler proposes [def mice_behavior(:]. *)
Lemma run_iteration_invalid_syntax_witness :
  exists self' calls,
    @FunSearch.run_iteration Example.runtime Example.broken_search 0%nat
    = ((self', calls,
        Ok [("success", DBool false); ("reason", DStr "invalid_syntax");
            ("fitness", DFloat (-1.0))]), 0%nat)
    /\ @FunSearch.database Example.runtime self'
       = @FunSearch.database Example.runtime Example.broken_search.
Proof.
  destruct (@run_iteration_invalid_syntax Example.runtime Example.broken_search
              0%nat None 0%nat Example.src_broken 0%nat
              eq_refl eq_refl eq_refl)
    as (self' & calls & E & _ & Hdb & _).
  exists self', calls. split; [exact E | exact Hdb].
Defined.

(** ** Further properties of the population store *)

Lemma sorted_firstn {A} (ge : A -> A -> Prop) n (l : list A) :
  StronglySorted ge l -> StronglySorted ge (firstn n l).
Proof.
  intros Hs. revert n. induction Hs as [|y t Hs IH Hall]; intros [|n]; simpl;
    try constructor.
  - apply IH.
  - rewrite Forall_forall in *. intros z Hz. apply Hall.
    rewrite <- (firstn_skipn n t). apply in_or_app. left. exact Hz.
Qed.

Lemma get_best_nonneg db n :
  (0 <= n)%Z ->
  ProgramDatabase.get_best db n
  = firstn (Z.to_nat n) (sorted_reverse fitness (ProgramDatabase.programs db)).
Proof.
  intros Hn. unfold ProgramDatabase.get_best, slice_to.
  destruct (Z.leb_spec 0 n); [reflexivity | lia].
Qed.

(** X1.  For [n >= 0], [get_best(n)] returns [min(n, size)] members in
    descending order of fitness, and no member left out is above a member
    returned. *)
Theorem get_best_top_n db n :
  (0 <= n)%Z ->
  let best := ProgramDatabase.get_best db n in
  length best = Nat.min (Z.to_nat n) (length (ProgramDatabase.programs db))
  /\ StronglySorted fitness_ge best
  /\ exists rest,
       Permutation (best ++ rest) (ProgramDatabase.programs db)
       /\ forall p q, In p best -> In q rest -> fitness q <= fitness p.
Proof.
  intros Hn best. unfold best. rewrite (get_best_nonneg db n Hn).
  split; [rewrite length_firstn, sorted_reverse_length; reflexivity|].
  split; [apply sorted_firstn; apply (sorted_reverse_sorted fitness)|].
  exists (skipn (Z.to_nat n) (sorted_reverse fitness (ProgramDatabase.programs db))).
  split.
  - rewrite firstn_skipn. apply sorted_reverse_perm.
  - intros p q Hp Hq.
    eapply (sorted_firstn_skipn fitness (Z.to_nat n)); eauto.
    apply (sorted_reverse_sorted fitness).
Qed.

Lemma get_best_top_n_witness :
  (0 <= 2)%Z
  /\ length (ProgramDatabase.get_best db_six 2)
     = Nat.min (Z.to_nat 2) (length (ProgramDatabase.programs db_six)).
Proof.
  split; [lia|]. apply (get_best_top_n db_six 2). lia.
Defined.

Lemma insert_desc_filter r x l :
  filter (has_fitness r) (insert_desc fitness x l)
  = filter (has_fitness r) (x :: l).
Proof.
  induction l as [|y t IH]; [reflexivity|].
  cbn [insert_desc]. destruct (float_lt (fitness x) (fitness y)) eqn:E;
    [|reflexivity].
  apply float_lt_true in E.
  cbn [filter] in *. rewrite IH.
  unfold has_fitness.
  destruct (Req_EM_T (fitness x) r) as [Hx|Hx];
    destruct (Req_EM_T (fitness y) r) as [Hy|Hy]; try reflexivity.
  lra.
Qed.

Lemma sorted_reverse_filter r l :
  filter (has_fitness r) (sorted_reverse fitness l) = filter (has_fitness r) l.
Proof.
  induction l as [|x t IH]; [reflexivity|].
  cbn [sorted_reverse]. rewrite insert_desc_filter. cbn [filter].
  rewrite IH. reflexivity.
Qed.

(** X2.  The ranking of [get_best] is stable: asked for all the members,
    it returns those of any one fitness in the order in which they stand
    in [programs]. *)
Theorem get_best_ties_keep_order db r :
  filter (has_fitness r)
         (ProgramDatabase.get_best db
            (Z.of_nat (length (ProgramDatabase.programs db))))
  = filter (has_fitness r) (ProgramDatabase.programs db).
Proof.
  rewrite get_best_nonneg by lia. rewrite Nat2Z.id.
  rewrite <- (sorted_reverse_length fitness (ProgramDatabase.programs db)).
  rewrite firstn_all. apply sorted_reverse_filter.
Qed.

Lemma add_program_size_mono db c f m p :
  db_inv db ->
  (length (ProgramDatabase.programs db)
   <= length (ProgramDatabase.programs (fst (ProgramDatabase.add_program db c f m p))))%nat.
Proof.
  intros Hdb.
  destruct (Z.ltb_spec (Z.of_nat (length (ProgramDatabase.programs db)))
                       (ProgramDatabase.max_size db)).
  - rewrite add_below_capacity_length by assumption. lia.
  - rewrite add_program_length_at_capacity by assumption. lia.
Qed.

(** X4.  A database built by the constructor and changed by its methods
    never holds more than [max(0, max_size)] members; [programs[0]] is a
    member of least fitness; and no call makes the number of members
    smaller. *)
Theorem store_bounded_min_first max_size ops :
  let db := run_ops (ProgramDatabase.__init__ max_size) ops in
  (Z.of_nat (length (ProgramDatabase.programs db)) <= Z.max 0 max_size)%Z
  /\ (forall worst q, nth_error (ProgramDatabase.programs db) 0 = Some worst ->
                      In q (ProgramDatabase.programs db) ->
                      fitness worst <= fitness q)
  /\ (forall op, (length (ProgramDatabase.programs db)
                  <= length (ProgramDatabase.programs (apply_op db op)))%nat).
Proof.
  intros db.
  pose proof (db_inv_run_ops _ ops (db_inv_init max_size)) as Hdb. fold db in Hdb.
  split; [|split].
  - pose proof (inv_size _ Hdb) as Hsize.
    unfold db in Hsize. rewrite run_ops_max_size in Hsize. exact Hsize.
  - intros worst q Hw Hq.
    apply (heap_root_min fitness _ worst (inv_heap _ Hdb) Hw q Hq).
  - intros [c f m p|]; simpl; [|lia].
    apply add_program_size_mono. exact Hdb.
Qed.

Lemma fold_max_spec t : forall a,
  let m := fold_left (fun best v => if float_gt v best then v else best) t a in
  (m = a \/ In m t) /\ a <= m /\ forall v, In v t -> v <= m.
Proof.
  induction t as [|x t IH]; intros a; simpl.
  - split; [auto|]. split; [lra | intros v []].
  - destruct (float_gt x a) eqn:E.
    + apply float_gt_true in E. destruct (IH x) as ([Hm|Hm] & Hle & Hall).
      * split; [right; left; congruence|]. split; [lra|].
        intros v [<-|Hv]; auto.
      * split; [auto|]. split; [lra|]. intros v [<-|Hv]; auto.
    + apply float_gt_false in E. destruct (IH a) as (Hm & Hle & Hall).
      split; [destruct Hm as [Hm|Hm]; [left; exact Hm | right; right; exact Hm]|].
      split; [exact Hle|]. intros v [<-|Hv]; [lra | auto].
Qed.

Lemma fold_min_spec t : forall a,
  let m := fold_left (fun best v => if float_lt v best then v else best) t a in
  (m = a \/ In m t) /\ m <= a /\ forall v, In v t -> m <= v.
Proof.
  induction t as [|x t IH]; intros a; simpl.
  - split; [auto|]. split; [lra | intros v []].
  - destruct (float_lt x a) eqn:E.
    + apply float_lt_true in E. destruct (IH x) as ([Hm|Hm] & Hle & Hall).
      * split; [right; left; congruence|]. split; [lra|].
        intros v [<-|Hv]; auto.
      * split; [auto|]. split; [lra|]. intros v [<-|Hv]; auto.
    + apply float_lt_false in E. destruct (IH a) as (Hm & Hle & Hall).
      split; [destruct Hm as [Hm|Hm]; [left; exact Hm | right; right; exact Hm]|].
      split; [exact Hle|]. intros v [<-|Hv]; [lra | auto].
Qed.

Lemma py_max_spec l m :
  py_max l = Ok m -> In m l /\ forall v, In v l -> v <= m.
Proof.
  destruct l as [|a t]; simpl; [discriminate|]. intros [= <-].
  destruct (fold_max_spec t a) as (Hm & Hle & Hall).
  split; [destruct Hm as [Hm|Hm]; [left; symmetry; exact Hm | right; exact Hm]|].
  intros v [<-|Hv]; auto.
Qed.

Lemma py_min_spec l m :
  py_min l = Ok m -> In m l /\ forall v, In v l -> m <= v.
Proof.
  destruct l as [|a t]; simpl; [discriminate|]. intros [= <-].
  destruct (fold_min_spec t a) as (Hm & Hle & Hall).
  split; [destruct Hm as [Hm|Hm]; [left; symmetry; exact Hm | right; exact Hm]|].
  intros v [<-|Hv]; auto.
Qed.

(** X5.  [get_statistics] never raises.  With no members the three fitness
    fields are [None]; otherwise they are floats, [best_fitness] and
    [worst_fitness] are the greatest and the least fitness of a member,
    the latter that of [programs[0]], and [best_fitness] is not above the
    fitness of [get_best_program()]. *)
Theorem get_statistics_summary max_size ops :
  let db := run_ops (ProgramDatabase.__init__ max_size) ops in
  match ProgramDatabase.programs db with
  | [] =>
      ProgramDatabase.get_statistics db
      = Ok [("size", DInt 0);
            ("generation", DInt (ProgramDatabase._generation db));
            ("best_fitness", DNone); ("avg_fitness", DNone);
            ("worst_fitness", DNone)]
  | first :: _ =>
      exists best avg worst,
        ProgramDatabase.get_statistics db
        = Ok [("size", DInt (Z.of_nat (length (ProgramDatabase.programs db))));
              ("generation", DInt (ProgramDatabase._generation db));
              ("best_fitness", DFloat best); ("avg_fitness", DFloat avg);
              ("worst_fitness", DFloat worst)]
        /\ worst = fitness first
        /\ (exists p, In p (ProgramDatabase.programs db) /\ fitness p = best)
        /\ (forall q, In q (ProgramDatabase.programs db) ->
                      worst <= fitness q <= best)
        /\ opt_le (Some best) (best_fitness db)
  end.
Proof.
  intros db.
  pose proof (db_inv_run_ops _ ops (db_inv_init max_size)) as Hdb. fold db in Hdb.
  unfold ProgramDatabase.get_statistics.
  destruct (ProgramDatabase.programs db) as [|first t] eqn:Ep; [reflexivity|].
  set (fs := map fitness (first :: t)).
  destruct (py_max fs) as [best|e] eqn:Emax; [|discriminate Emax].
  destruct (py_div_len (py_sum fs) fs) as [avg|e] eqn:Eavg; [|discriminate Eavg].
  destruct (py_min fs) as [worst|e] eqn:Emin; [|discriminate Emin].
  exists best, avg, worst.
  destruct (py_max_spec _ _ Emax) as [Hbin Hbmax].
  destruct (py_min_spec _ _ Emin) as [Hwin Hwmin].
  assert (Hall : forall v, In v fs -> worst <= v <= best) by (intros v Hv; split; auto).
  assert (Hq : forall q, In q (first :: t) -> worst <= fitness q <= best).
  { intros q Hin. apply Hall. unfold fs. apply in_map. exact Hin. }
  split; [reflexivity|].
  unfold fs in Hbin, Hwin. apply in_map_iff in Hbin, Hwin.
  destruct Hbin as (pb & Epb & Hpb). destruct Hwin as (pw & Epw & Hpw).
  split; [|split; [|split]].
  - pose proof (inv_heap _ Hdb) as Hheap. rewrite Ep in Hheap.
    pose proof (heap_root_min fitness _ first Hheap eq_refl pw Hpw).
    pose proof (Hq first (or_introl eq_refl)). lra.
  - exists pb. auto.
  - exact Hq.
  - destruct (inv_best _ Hdb pb) as (b & Eb & Hle); [rewrite Ep; exact Hpb|].
    unfold best_fitness, ProgramDatabase.get_best_program. rewrite Eb. simpl. lra.
Qed.

Lemma add_program_generation db c f m p :
  ProgramDatabase._generation (fst (ProgramDatabase.add_program db c f m p))
  = ProgramDatabase._generation db.
Proof.
  assert (E0 : forall prog, ProgramDatabase._generation (with_best_updated db prog)
                            = ProgramDatabase._generation db).
  { intros prog. unfold with_best_updated.
    destruct (match _ with None => _ | Some _ => _ end); reflexivity. }
  destruct (add_program_cases db c f m p)
    as [[_ E]|[(_ & _ & E)|[(w & t & _ & _ & _ & E)|(w & t & _ & _ & _ & E)]]];
    rewrite E; simpl; apply E0.
Qed.

Lemma add_program_members db c f m p q :
  db_inv db ->
  In q (ProgramDatabase.programs (fst (ProgramDatabase.add_program db c f m p))) ->
  q = new_program db c f m p \/ In q (ProgramDatabase.programs db).
Proof.
  intros Hdb.
  destruct (add_program_cases db c f m p)
    as [[_ E]|[(_ & _ & E)|[(w & t & _ & Ep & _ & E)|(w & t & _ & _ & _ & E)]]];
    rewrite E; simpl; rewrite ?with_best_updated_programs; auto.
  - intros Hq. apply (Permutation_in _ (heappush_perm Program_lt _ _)) in Hq.
    destruct Hq as [<-|Hq]; auto.
  - pose proof (inv_heap _ Hdb) as Hheap. rewrite Ep in *.
    destruct (siftup_root_spec w t (new_program db c f m p) Hheap) as [_ Hp].
    intros Hq. apply (Permutation_in _ Hp) in Hq.
    destruct Hq as [<-|Hq]; [auto | right; simpl; auto].
Qed.

Lemma add_program_best_cases db c f m p :
  ProgramDatabase._best_program (fst (ProgramDatabase.add_program db c f m p))
  = Some (new_program db c f m p)
  \/ ProgramDatabase._best_program (fst (ProgramDatabase.add_program db c f m p))
     = ProgramDatabase._best_program db.
Proof.
  rewrite add_program_best. unfold with_best_updated.
  destruct (match _ with None => _ | Some _ => _ end); auto.
Qed.

Lemma generation_inv_step db op :
  generation_inv db ->
  generation_inv (apply_op db op)
  /\ ProgramDatabase._generation (apply_op db op)
     = (ProgramDatabase._generation db + count_increments [op])%Z.
Proof.
  intros (Hdb & Hg & Hmem & Hbest).
  destruct op as [c f m p|]; simpl.
  - unfold generation_inv. rewrite !add_program_generation. split; [|lia].
    split; [apply db_inv_add; exact Hdb|]. split; [exact Hg|]. split.
    + intros q Hq. apply add_program_members in Hq; [|exact Hdb].
      destruct Hq as [->|Hq]; [simpl; lia | auto].
    + intros b Hb. destruct (add_program_best_cases db c f m p) as [E|E];
        rewrite E in Hb; [injection Hb as <-; simpl; lia | auto].
  - split; [|unfold ProgramDatabase.increment_generation; simpl; lia].
    split; [apply (db_inv_apply_op db IncrementGeneration Hdb)|].
    unfold ProgramDatabase.increment_generation; simpl.
    split; [lia|]. split.
    + intros q Hq. specialize (Hmem q Hq). lia.
    + intros b Hb. specialize (Hbest b Hb). lia.
Qed.

Lemma generation_inv_run ops : forall db,
  generation_inv db ->
  generation_inv (run_ops db ops)
  /\ ProgramDatabase._generation (run_ops db ops)
     = (ProgramDatabase._generation db + count_increments ops)%Z.
Proof.
  unfold run_ops. induction ops as [|op ops IH]; intros db Hdb; simpl fold_left.
  - split; [exact Hdb | simpl; lia].
  - destruct (generation_inv_step db op Hdb) as [H1 E1].
    destruct (IH _ H1) as [H2 E2]. split; [exact H2|].
    rewrite E2, E1. destruct op; cbn [count_increments]; lia.
Qed.

(** X6.  The generation counter counts the [increment_generation] calls,
    and every stored program, and the best program, carries a generation
    between 0 and the counter. *)
Theorem generation_counter max_size ops :
  let db := run_ops (ProgramDatabase.__init__ max_size) ops in
  ProgramDatabase._generation db = count_increments ops
  /\ (forall q, In q (ProgramDatabase.programs db) ->
                (0 <= generation q <= ProgramDatabase._generation db)%Z)
  /\ (forall b, ProgramDatabase.get_best_program db = Some b ->
                (0 <= generation b <= ProgramDatabase._generation db)%Z).
Proof.
  intros db.
  assert (H0 : generation_inv (ProgramDatabase.__init__ max_size)).
  { split; [apply db_inv_init|]. simpl. split; [lia|].
    split; [intros q [] | intros b [=]]. }
  destruct (generation_inv_run ops _ H0) as [(_ & _ & Hmem & Hbest) E].
  fold db in Hmem, Hbest, E. simpl in E.
  split; [exact E|]. split; [exact Hmem | exact Hbest].
Qed.

(** ** Further properties of the environment *)

Ltac minmax :=
  unfold Rmax, Rmin in *;
  repeat match goal with
         | |- context [Rle_dec ?a ?b] => destruct (Rle_dec a b)
         | H : context [Rle_dec ?a ?b] |- _ => destruct (Rle_dec a b)
         end; try lra.

Lemma clip_coordinate_bounds bound v :
  0 <= clip_coordinate bound v <= Rmax 0 bound.
Proof. destruct v as [x|[|]|]; simpl; minmax. Qed.

(** [_clip_position] returns a point of
    [[0, max(0, width)] x [0, max(0, height)]], whatever it is given. *)
Lemma clip_position_bounds self x y :
  let p := PredatorPreyEnvironment._clip_position self x y in
  0 <= fst p <= Rmax 0 (PredatorPreyEnvironment.width self)
  /\ 0 <= snd p <= Rmax 0 (PredatorPreyEnvironment.height self).
Proof.
  unfold PredatorPreyEnvironment._clip_position. simpl.
  split; apply clip_coordinate_bounds.
Qed.

Lemma sqrt_sum_sq_pos a b : 0 < sqrt (a ^ 2 + b ^ 2) -> 
  (a / sqrt (a ^ 2 + b ^ 2)) ^ 2 + (b / sqrt (a ^ 2 + b ^ 2)) ^ 2 = 1.
Proof.
  intros Hd.
  assert (Hs : sqrt (a ^ 2 + b ^ 2) * sqrt (a ^ 2 + b ^ 2) = a ^ 2 + b ^ 2).
  { apply sqrt_sqrt. nra. }
  set (d := sqrt (a ^ 2 + b ^ 2)) in *.
  replace ((a / d) ^ 2 + (b / d) ^ 2) with ((a ^ 2 + b ^ 2) / (d * d))
    by (field; lra).
  assert (Hp : 0 < d * d) by nra.
  rewrite Hs in *. field. lra.
Qed.

(** The direction a predator takes is the zero vector or has length 1. *)
Lemma predator_direction_norm predator mice :
  let d := PredatorPreyEnvironment._predator_behavior predator mice in
  (fst d = 0 /\ snd d = 0) \/ fst d ^ 2 + snd d ^ 2 = 1.
Proof.
  unfold PredatorPreyEnvironment._predator_behavior.
  destruct (filter Agent.alive mice) as [|m0 rest]; simpl.
  - left; auto.
  - match goal with |- context [float_gt ?a 0] => destruct (float_gt a 0) eqn:E end.
    + right. apply float_gt_true in E. simpl.
      match type of E with
      | 0 < sqrt (?a * (?a * 1) + ?b * (?b * 1)) =>
          pose proof (sqrt_sum_sq_pos a b) as Hu
      end.
      simpl in Hu. apply Hu. exact E.
    + left. auto.
Qed.

Lemma min_from_spec {A} (key : A -> R) l : forall best,
  In (min_from key best l) (best :: l)
  /\ forall a, In a (best :: l) -> key (min_from key best l) <= key a.
Proof.
  induction l as [|a t IH]; intros best; simpl.
  - split; [left; reflexivity|]. intros a [<-|[]]. lra.
  - destruct (float_lt (key a) (key best)) eqn:E.
    + apply float_lt_true in E. destruct (IH a) as [Hin Hle]. split.
      * destruct Hin as [Hin|Hin]; [right; left; exact Hin | right; right; exact Hin].
      * intros c [<-|[<-|Hc]].
        -- pose proof (Hle a (or_introl eq_refl)). lra.
        -- apply Hle. left. reflexivity.
        -- apply Hle. right. exact Hc.
    + apply float_lt_false in E. destruct (IH best) as [Hin Hle]. split.
      * destruct Hin as [Hin|Hin]; [left; exact Hin | right; right; exact Hin].
      * intros c [<-|[<-|Hc]].
        -- apply Hle. left. reflexivity.
        -- pose proof (Hle best (or_introl eq_refl)). lra.
        -- apply Hle. right. exact Hc.
Qed.


Lemma existsb_permutation {A} (f : A -> bool) l l' :
  Permutation l l' -> existsb f l = existsb f l'.
Proof.
  induction 1; simpl; try congruence.
  destruct (f x), (f y); reflexivity.
Qed.

(** X8.  The nested loops of the capture check come to one pass over the
    mice: a mouse is marked dead exactly when it is alive and within the
    capture distance of some predator, and nothing else about a mouse
    changes; so the order of the predators does not matter. *)
Theorem check_captures_single_pass self mice predators :
  PredatorPreyEnvironment.check_captures self mice predators
  = map (fun mouse =>
           if Agent.alive mouse && within_reach self predators mouse
           then Agent.set_alive mouse false else mouse)
        mice
  /\ forall predators',
       Permutation predators predators' ->
       PredatorPreyEnvironment.check_captures self mice predators'
       = PredatorPreyEnvironment.check_captures self mice predators.
Proof.
  split; [apply check_captures_map|].
  intros predators' Hp. rewrite !check_captures_map.
  apply map_ext. intros m. unfold within_reach.
  rewrite (existsb_permutation _ _ _ Hp). reflexivity.
Qed.

(** *** Moves *)

Lemma clip_coordinate_step bound x d :
  0 <= x <= Rmax 0 bound ->
  (Rmax 0 (Rmin bound (x + d)) - x) ^ 2 <= d ^ 2.
Proof.
  intros Hx.
  assert (Hc : (0 <= d /\ 0 <= Rmax 0 (Rmin bound (x + d)) - x <= d)
               \/ (d <= 0 /\ d <= Rmax 0 (Rmin bound (x + d)) - x <= 0)).
  { destruct (Rle_dec 0 d); [left | right]; minmax. }
  destruct Hc as [[H1 H2]|[H1 H2]]; nra.
Qed.

Lemma sqrt_le_abs a s : a <= s ^ 2 -> sqrt a <= Rabs s.
Proof.
  intros Ha. rewrite <- (sqrt_pow2 (Rabs s) (Rabs_pos s)).
  apply sqrt_le_1_alt. rewrite pow2_abs. exact Ha.
Qed.

(** An agent of the arena that steps by a vector no longer than [s] and
    is clipped stays in the arena and ends no farther than [|s|] from
    where it was. *)
Lemma clipped_step self a sx sy s :
  in_arena self a -> sx ^ 2 + sy ^ 2 <= s ^ 2 ->
  let a' := Agent.set_position a
              (PredatorPreyEnvironment._clip_position self
                 (Fin (Agent.x a + sx)) (Fin (Agent.y a + sy))) in
  in_arena self a' /\ Agent.distance_to a' a <= Rabs s
  /\ Agent.alive a' = Agent.alive a.
Proof.
  intros [Hx Hy] Hs a'.
  pose proof (clip_position_bounds self (Fin (Agent.x a + sx)) (Fin (Agent.y a + sy)))
    as (Cx & Cy).
  split; [split; [exact Cx | exact Cy]|]. split; [|reflexivity].
  unfold Agent.distance_to, a'. simpl.
  apply sqrt_le_abs.
  pose proof (clip_coordinate_step (PredatorPreyEnvironment.width self)
                (Agent.x a) sx Hx).
  pose proof (clip_coordinate_step (PredatorPreyEnvironment.height self)
                (Agent.y a) sy Hy).
  simpl in *. lra.
Qed.

Lemma distance_to_self a : Agent.distance_to a a = 0.
Proof.
  unfold Agent.distance_to.
  replace ((Agent.x a - Agent.x a) ^ 2 + (Agent.y a - Agent.y a) ^ 2) with 0 by ring.
  apply sqrt_0.
Qed.

Section MoveFacts.
Context `{Runtime}.
Import PredatorPreyEnvironment.

(** What the [try] statement can return: the mouse as it was, or the
    mouse at a clipped position. *)
Lemma try_move_shape self b state mouse np w m' w1 :
  try_move self b state mouse np w = (Ok m', w1) ->
  m' = mouse
  \/ exists x' y', m' = Agent.set_position mouse (_clip_position self x' y').
Proof.
  rewrite try_move_by_call.
  destruct (b state (Agent.x mouse, Agent.y mouse) (Agent.x np, Agent.y np) w)
    as [[v|e] w0].
  - destruct (apply_direction self mouse v) as [m1|e] eqn:Ed.
    + intros [= <- _]. right. eapply apply_direction_shape. exact Ed.
    + intros [= <- _]. left. reflexivity.
  - destruct (is_Exception e); [|discriminate].
    intros [= <- _]. left. reflexivity.
Qed.

Lemma try_move_facts self b state mouse np w m' w1 :
  try_move self b state mouse np w = (Ok m', w1) ->
  Agent.alive m' = Agent.alive mouse
  /\ (in_arena self mouse -> in_arena self m').
Proof.
  intros E. destruct (try_move_shape _ _ _ _ _ _ _ _ E) as [->|(x' & y' & ->)].
  - split; [reflexivity|]. intros Ha. exact Ha.
  - split; [reflexivity|]. intros _.
    exact (clip_position_bounds self x' y').
Qed.

(** How the loop over the mice relates each mouse to what it becomes. *)
Lemma update_mice_forall2 self b state predators mice :
  forall totals w moved totals' w',
  update_mice self b state predators mice totals w = (Ok (moved, totals'), w') ->
  Forall2 (fun m m' =>
             Agent.alive m' = Agent.alive m
             /\ (Agent.alive m = false -> m' = m)
             /\ (in_arena self m -> in_arena self m'))
          mice moved.
Proof.
  induction mice as [|mouse rest IH]; intros totals w moved totals' w' E.
  - simpl in E. unfold ret in E. injection E as <- _ _. constructor.
  - cbn [update_mice] in E.
    destruct (Agent.alive mouse) eqn:Ea; cbn [negb] in E.
    + apply bind_inv_ok in E. destruct E as (np & w1 & Enp & E).
      apply bind_inv_ok in E. destruct E as (mouse' & w2 & Em & E).
      apply bind_inv_ok in E. destruct E as ([rest' tot2] & w3 & Er & E).
      unfold ret in E. injection E as <- _ _.
      destruct (try_move_facts _ _ _ _ _ _ _ _ Em) as [Hal Har].
      constructor; [|eapply IH; exact Er].
      split; [congruence|]. split; [congruence | exact Har].
    + apply bind_inv_ok in E. destruct E as ([rest' tot2] & w3 & Er & E).
      unfold ret in E. injection E as <- _ _.
      constructor; [|eapply IH; exact Er].
      split; [reflexivity|]. split; [reflexivity|]. intros Ha. exact Ha.
Qed.

Lemma update_predators_forall2 self mice predators :
  Forall2 (fun p p' =>
             Agent.alive p' = Agent.alive p
             /\ in_arena self p'
             /\ (in_arena self p ->
                 Agent.distance_to p' p <= Rabs (predator_speed self)))
          predators (update_predators self mice predators).
Proof.
  unfold update_predators. induction predators as [|p ps IH]; simpl; constructor;
    [|exact IH].
  destruct (_predator_behavior p mice) as [dx dy] eqn:Ed.
  pose proof (predator_direction_norm p mice) as Hu. rewrite Ed in Hu.
  simpl in Hu.
  assert (Hs : (dx * predator_speed self) ^ 2 + (dy * predator_speed self) ^ 2
               <= predator_speed self ^ 2).
  { destruct Hu as [[-> ->]|Hu]; [nra|].
    replace ((dx * predator_speed self) ^ 2 + (dy * predator_speed self) ^ 2)
      with ((dx ^ 2 + dy ^ 2) * predator_speed self ^ 2) by ring.
    simpl in Hu |- *. rewrite Hu. lra. }
  split; [reflexivity|]. split.
  - exact (clip_position_bounds self
             (Fin (Agent.x p + dx * predator_speed self))
             (Fin (Agent.y p + dy * predator_speed self))).
  - intros Ha.
    apply (clipped_step self p _ _ (predator_speed self) Ha Hs).
Qed.
End MoveFacts.

(** *** What a step keeps *)

Lemma Forall2_map_r {A B C} (R : A -> B -> Prop) (R' : A -> C -> Prop)
      (g : B -> C) l l' :
  (forall a b, R a b -> R' a (g b)) -> Forall2 R l l' -> Forall2 R' l (map g l').
Proof. intros Hg Hf. induction Hf; simpl; constructor; auto. Qed.

Lemma Forall2_impl {A B} (R R' : A -> B -> Prop) l l' :
  (forall a b, R a b -> R' a b) -> Forall2 R l l' -> Forall2 R' l l'.
Proof. intros Hg Hf. induction Hf; constructor; auto. Qed.

Lemma Forall2_Forall_r {A B} (R : A -> B -> Prop) (P : A -> Prop) (Q : B -> Prop) l l' :
  (forall a b, P a -> R a b -> Q b) -> Forall P l -> Forall2 R l l' -> Forall Q l'.
Proof.
  intros Hg Hp Hf. induction Hf; constructor; inversion Hp; subst; eauto.
Qed.

Lemma Forall2_map_eq {A B} (f : A -> B) l l' :
  Forall2 (fun a a' => f a' = f a) l l' -> map f l' = map f l.
Proof. induction 1; simpl; [reflexivity | f_equal; assumption]. Qed.

Lemma count_alive_le l l' :
  Forall2 (fun m m' => Agent.alive m' = true -> Agent.alive m = true) l l' ->
  (count_alive l' <= count_alive l)%Z.
Proof.
  induction 1 as [|m m' l l' Hm Hf IH]; [reflexivity|].
  rewrite !count_alive_cons.
  destruct (Agent.alive m') eqn:E'; destruct (Agent.alive m) eqn:E; try lia.
Qed.

Lemma count_alive_le_length l : (count_alive l <= Z.of_nat (length l))%Z.
Proof.
  unfold count_alive. pose proof (filter_length_le Agent.alive l). lia.
Qed.

Section StepFacts.
Context `{Runtime}.
Import PredatorPreyEnvironment.

Lemma step_body_shape self b step s w s' w' :
  step_body self b step s w = (Ok s', w') ->
  exists moved totals,
    update_mice self b
      {| st_step := step; st_width := width self; st_height := height self;
         st_num_alive := count_alive (mice s) |}
      (predators s) (mice s) (total_survival_steps s, total_distance_score s) w
    = (Ok (moved, totals), w')
    /\ predators s' = update_predators self moved (predators s)
    /\ mice s' = check_captures self moved (predators s').
Proof.
  unfold step_body. intros E.
  apply bind_inv_ok in E. destruct E as ([moved totals] & w1 & Em & E).
  unfold ret in E. injection E as <- <-.
  exists moved, totals. auto.
Qed.

(** A step keeps the number of mice and of predators and marks no
    predator dead. *)
Lemma step_body_lengths self b step s w s' w' :
  step_body self b step s w = (Ok s', w') ->
  length (mice s') = length (mice s)
  /\ length (predators s') = length (predators s)
  /\ map Agent.alive (predators s') = map Agent.alive (predators s).
Proof.
  intros E. destruct (step_body_shape _ _ _ _ _ _ _ E) as (moved & totals & Em & Ep & Ec).
  pose proof (update_mice_forall2 _ _ _ _ _ _ _ _ _ _ Em) as Hf.
  split; [rewrite Ec, check_captures_map, length_map; symmetry;
          eapply Forall2_length; exact Hf|].
  split; [rewrite Ep; unfold update_predators; apply length_map|].
  rewrite Ep. apply Forall2_map_eq.
  eapply Forall2_impl; [|apply (update_predators_forall2 self moved (predators s))].
  intros p p' (Ha & _). exact Ha.
Qed.

(** X9.  A step keeps the number of mice and of predators and marks no
    predator dead; a mouse that is dead at the start of the step is the
    same at its end, and no mouse comes back to life, so the number of
    living mice does not grow. *)
Theorem step_keeps_population self b step s w s' w' :
  step_body self b step s w = (Ok s', w') ->
  length (mice s') = length (mice s)
  /\ length (predators s') = length (predators s)
  /\ map Agent.alive (predators s') = map Agent.alive (predators s)
  /\ Forall2 mouse_step (mice s) (mice s')
  /\ (count_alive (mice s') <= count_alive (mice s))%Z.
Proof.
  intros E. destruct (step_body_lengths _ _ _ _ _ _ _ E) as (L1 & L2 & L3).
  destruct (step_body_shape _ _ _ _ _ _ _ E) as (moved & totals & Em & Ep & Ec).
  pose proof (update_mice_forall2 _ _ _ _ _ _ _ _ _ _ Em) as Hf.
  assert (Hstep : Forall2 mouse_step (mice s) (mice s')).
  { rewrite Ec, check_captures_map.
    eapply Forall2_map_r; [|exact Hf].
    intros m m' (Hal & Hdead & _). cbv beta. split.
    - intros Hd. rewrite (Hdead Hd), Hd. reflexivity.
    - destruct (Agent.alive m' && within_reach self (predators s') m') eqn:Ew;
        simpl; [discriminate | congruence]. }
  split; [exact L1|]. split; [exact L2|]. split; [exact L3|].
  split; [exact Hstep|]. apply count_alive_le.
  apply (Forall2_impl _ _ _ _ (fun m m' Hm => proj2 Hm) Hstep).
Qed.

(** A property of the state that the constructor of the state gives and a
    step keeps holds when the loop is left. *)
Lemma run_steps_invariant self b (P : SimState -> Prop) :
  (forall step s w s' w', P s -> step_body self b step s w = (Ok s', w') -> P s') ->
  forall steps s w s' w',
    P s -> run_steps self b steps s w = (Ok s', w') -> P s'.
Proof.
  intros Hstep. induction steps as [|step rest IH]; intros s w s' w' Hp E.
  - simpl in E. unfold ret in E. injection E as <- _. exact Hp.
  - cbn [run_steps] in E. apply bind_inv_ok in E. destruct E as (s1 & w1 & Es & E).
    pose proof (Hstep _ _ _ _ _ Hp Es) as Hp1.
    destruct (negb (existsb Agent.alive (mice s1))).
    + unfold ret in E. injection E as <- _. exact Hp1.
    + eapply IH; eassumption.
Qed.

Lemma spawn_agents_spec self n : forall w l w',
  spawn_agents self n w = (Ok l, w') ->
  length l = n
  /\ Forall (fun a => Agent.alive a = true) l
  /\ ((forall w0, 0 <= fst (random_random w0) <= 1) ->
      0 <= width self -> 0 <= height self -> Forall (in_arena self) l).
Proof.
  induction n as [|n IH]; intros w l w' E.
  - simpl in E. unfold ret in E. injection E as <- _.
    split; [reflexivity|]. split; [constructor | intros; constructor].
  - cbn [spawn_agents] in E.
    rewrite (bind_ok _ _ _ _ _ (random_uniform_ok _ _ _)) in E.
    rewrite (bind_ok _ _ _ _ _ (random_uniform_ok _ _ _)) in E.
    apply bind_inv_ok in E. destruct E as (rest & w1 & Er & E).
    unfold ret in E. injection E as <- _.
    destruct (IH _ _ _ Er) as (Hl & Ha & Hin).
    split; [simpl; lia|]. split; [constructor; [reflexivity | exact Ha]|].
    intros Hr Hw Hh. constructor; [|apply Hin; assumption].
    unfold in_arena. simpl.
    pose proof (Hr w) as H1.
    pose proof (Hr (snd (random_random w))) as H2.
    rewrite !Rmax_right by assumption.
    split; split; nra.
Qed.

Lemma simulate_inv self b w s w' :
  simulate self b w = (Ok s, w') ->
  exists mice0 predators0 w0,
    _initialize_agents self w = (Ok (mice0, predators0), w0)
    /\ run_steps self b (py_range (max_steps self))
         {| mice := mice0; predators := predators0;
            total_survival_steps := 0; total_distance_score := 0 |} w0
       = (Ok s, w')
    /\ length mice0 = Z.to_nat (num_mice self)
    /\ length predators0 = Z.to_nat (num_predators self)
    /\ Forall (fun a => Agent.alive a = true) predators0
    /\ ((forall w0, 0 <= fst (random_random w0) <= 1) ->
        0 <= width self -> 0 <= height self ->
        Forall (in_arena self) mice0 /\ Forall (in_arena self) predators0).
Proof.
  unfold simulate. intros E.
  apply bind_inv_ok in E. destruct E as ([m p] & w0 & Ei & E).
  exists m, p, w0. split; [exact Ei|]. split; [exact E|].
  unfold _initialize_agents in Ei.
  apply bind_inv_ok in Ei. destruct Ei as (m1 & w1 & Em & Ei).
  apply bind_inv_ok in Ei. destruct Ei as (p1 & w2 & Ep & Ei).
  unfold ret in Ei. injection Ei as <- <- _.
  destruct (spawn_agents_spec _ _ _ _ _ Em) as (Hlm & _ & Hin_m).
  destruct (spawn_agents_spec _ _ _ _ _ Ep) as (Hlp & Hap & Hin_p).
  repeat split; auto.
Qed.

(** X10.  When the loop of a trial is left there are [num_mice] mice and
    [num_predators] predators (none for a negative number), and every
    predator is alive. *)
Theorem simulate_population self b w s w' :
  simulate self b w = (Ok s, w') ->
  length (mice s) = Z.to_nat (num_mice self)
  /\ length (predators s) = Z.to_nat (num_predators self)
  /\ Forall (fun p => Agent.alive p = true) (predators s)
  /\ (0 <= count_alive (mice s) <= Z.max 0 (num_mice self))%Z.
Proof.
  intros E.
  destruct (simulate_inv _ _ _ _ _ E) as (m0 & p0 & w0 & _ & Er & Hlm & Hlp & Hap & _).
  assert (Hinv : length (mice s) = Z.to_nat (num_mice self)
                 /\ length (predators s) = Z.to_nat (num_predators self)
                 /\ map Agent.alive (predators s) = map Agent.alive p0).
  { refine (run_steps_invariant self b
             (fun st => length (mice st) = Z.to_nat (num_mice self)
                        /\ length (predators st) = Z.to_nat (num_predators self)
                        /\ map Agent.alive (predators st) = map Agent.alive p0)
             _ _ _ _ _ _ _ Er); [|simpl; auto].
    intros step st w1 st' w2 (H1 & H2 & H3) Es.
    destruct (step_body_lengths _ _ _ _ _ _ _ Es) as (L1 & L2 & L3).
    repeat split; congruence. }
  destruct Hinv as (H1 & H2 & H3).
  split; [exact H1|]. split; [exact H2|]. split.
  - clear - H3 Hap. revert H3. generalize (predators s).
    induction Hap as [|p l Hp Hl IH]; intros [|q l'] E; simpl in E;
      try discriminate; constructor.
    + injection E as E1 E2. congruence.
    + injection E as E1 E2. apply IH. exact E2.
  - pose proof (count_alive_nonneg (mice s)).
    pose proof (count_alive_le_length (mice s)). lia.
Qed.

(** A step that starts with every mouse inside the arena ends with every
    mouse and every predator inside. *)
Lemma agents_arena_step self b step s w s' w' :
  step_body self b step s w = (Ok s', w') ->
  Forall (in_arena self) (mice s) ->
  Forall (in_arena self) (mice s') /\ Forall (in_arena self) (predators s').
Proof.
  intros E Hm.
  destruct (step_body_shape _ _ _ _ _ _ _ E) as (moved & totals & Em & Ep & Ec).
  pose proof (update_mice_forall2 _ _ _ _ _ _ _ _ _ _ Em) as Hf.
  split.
  - rewrite Ec, check_captures_map.
    eapply (Forall2_Forall_r (fun m c => in_arena self m -> in_arena self c));
      [|exact Hm|].
    + intros a c Ha Hr. exact (Hr Ha).
    + eapply Forall2_map_r; [|exact Hf].
      intros m m' (_ & _ & Har) Ha. pose proof (Har Ha) as Hin.
      destruct (Agent.alive m' && within_reach self (predators s') m'); exact Hin.
  - rewrite Ep.
    eapply (Forall2_Forall_r (fun _ c => in_arena self c) (fun _ => True));
      [| |eapply Forall2_impl;
          [|apply (update_predators_forall2 self moved (predators s))]].
    + intros a c _ Hc. exact Hc.
    + apply Forall_forall. intros; exact I.
    + intros p p' (_ & Hin & _). exact Hin.
Qed.

(** X11.  Agents never leave the arena: a step that starts with every
    mouse inside ends with every mouse and every predator inside; and with
    a width and a height that are not negative and a generator that
    returns values of [0, 1], every agent is inside when the loop of a
    trial is left. *)
Theorem agents_stay_in_arena self b :
  (forall step s w s' w',
      step_body self b step s w = (Ok s', w') ->
      Forall (in_arena self) (mice s) ->
      Forall (in_arena self) (mice s') /\ Forall (in_arena self) (predators s'))
  /\ (forall w s w',
        (forall w0, 0 <= fst (random_random w0) <= 1) ->
        0 <= width self -> 0 <= height self ->
        simulate self b w = (Ok s, w') ->
        Forall (in_arena self) (mice s) /\ Forall (in_arena self) (predators s)).
Proof.
  split; [exact (agents_arena_step self b)|].
  intros w s w' Hr Hw Hh E.
  destruct (simulate_inv _ _ _ _ _ E) as (m0 & p0 & w0 & _ & Er & _ & _ & _ & Hin).
  destruct (Hin Hr Hw Hh) as [Hm0 Hp0].
  refine (run_steps_invariant self b
            (fun st => Forall (in_arena self) (mice st)
                       /\ Forall (in_arena self) (predators st))
            _ _ _ _ _ _ _ Er); [|simpl; auto].
  intros step st w1 st' w2 [H1 _] Es. exact (agents_arena_step _ _ _ _ _ _ _ Es H1).
Qed.

End StepFacts.

Lemma example_step_returns :
  exists s' w',
    @PredatorPreyEnvironment.step_body Example.runtime Example.small_env
      Example.always_raises 0%Z example_state 0%nat = (Ok s', w').
Proof.
  apply (@step_body_returns Example.runtime).
  - exact example_raises_only_errors.
  - discriminate.
Qed.


Lemma step_keeps_population_witness :
  exists s' w',
    @PredatorPreyEnvironment.step_body Example.runtime Example.small_env
      Example.always_raises 0%Z example_state 0%nat = (Ok s', w')
    /\ length (PredatorPreyEnvironment.mice s') = 1%nat
    /\ (count_alive (PredatorPreyEnvironment.mice s') <= 1)%Z.
Proof.
  destruct example_step_returns as (s' & w' & E).
  exists s', w'. split; [exact E|].
  destruct (@step_keeps_population Example.runtime _ _ _ _ _ _ _ E)
    as (H1 & _ & _ & _ & H5).
  split; [exact H1 | exact H5].
Defined.

Lemma simulate_population_witness :
  exists s w',
    @PredatorPreyEnvironment.simulate Example.runtime Example.small_env
      Example.always_raises 0%nat = (Ok s, w')
    /\ length (PredatorPreyEnvironment.mice s) = 1%nat
    /\ length (PredatorPreyEnvironment.predators s) = 1%nat.
Proof.
  destruct (@simulate_returns Example.runtime Example.small_env
              Example.always_raises 0%nat example_raises_only_errors)
    as (s & w' & E); [simpl; lia|].
  exists s, w'. split; [exact E|].
  destruct (@simulate_population Example.runtime _ _ _ _ _ E) as (H1 & H2 & _).
  split; [exact H1 | exact H2].
Defined.


(** ** The score is bounded *)

Lemma arena_distance self a c :
  in_arena self a -> in_arena self c -> Agent.distance_to a c <= arena_diagonal self.
Proof.
  intros [Hx Hy] [Hx' Hy']. unfold Agent.distance_to, arena_diagonal.
  apply sqrt_le_1_alt.
  set (W := Rmax 0 (PredatorPreyEnvironment.width self)) in *.
  set (Hh := Rmax 0 (PredatorPreyEnvironment.height self)) in *.
  assert ((Agent.x a - Agent.x c) ^ 2 <= W ^ 2) by nra.
  assert ((Agent.y a - Agent.y c) ^ 2 <= Hh ^ 2) by nra.
  lra.
Qed.

Lemma arena_diagonal_nonneg self : 0 <= arena_diagonal self.
Proof. apply sqrt_pos. Qed.

Lemma nearest_predator_in_arena self mouse predators :
  in_arena self mouse -> Forall (in_arena self) predators ->
  in_arena self (nearest_predator_of mouse predators).
Proof.
  intros Hm Hp. destruct predators as [|p t]; [exact Hm|].
  cbn [nearest_predator_of].
  destruct (min_from_spec (fun q => Agent.distance_to mouse q) t p) as [Hin _].
  rewrite Forall_forall in Hp. apply Hp. exact Hin.
Qed.

Lemma distance_sum_bound self predators mice moved :
  Forall (in_arena self) predators ->
  Forall (in_arena self) mice ->
  Forall2 (fun m m' => in_arena self m -> in_arena self m') mice moved ->
  distance_sum predators mice moved <= IZR (count_alive mice) * arena_diagonal self.
Proof.
  intros Hp Hm Hf. induction Hf as [|m m' l l' Hmm Hl IH].
  - simpl. unfold count_alive. simpl. lra.
  - inversion Hm as [|? ? Ha Hrest]; subst.
    cbn [distance_sum]. rewrite count_alive_cons, plus_IZR.
    specialize (IH Hrest).
    destruct (Agent.alive m).
    + pose proof (arena_distance self m' (nearest_predator_of m predators)
                    (Hmm Ha) (nearest_predator_in_arena self m predators Ha Hp)).
      lra.
    + lra.
Qed.

Section ScoreBound.
Context `{Runtime}.
Import PredatorPreyEnvironment.

Lemma step_body_bounded self b step s w s' w' :
  step_body self b step s w = (Ok s', w') ->
  bounded_state self s ->
  bounded_state self s'
  /\ length (mice s') = length (mice s)
  /\ (total_survival_steps s'
      <= total_survival_steps s + Z.of_nat (length (mice s)))%Z.
Proof.
  intros E (Hm & Hp & HT & HD).
  destruct (agents_arena_step self b _ _ _ _ _ E Hm) as [Hm' Hp'].
  destruct (step_body_lengths _ _ _ _ _ _ _ E) as (L1 & _ & _).
  destruct (step_body_spec _ _ _ _ _ _ _ E) as (moved & totals & Em & ET & ED & _).
  pose proof (update_mice_forall2 _ _ _ _ _ _ _ _ _ _ Em) as Hf.
  assert (Hsum : distance_sum (predators s) (mice s) moved
                 <= IZR (count_alive (mice s)) * arena_diagonal self).
  { apply distance_sum_bound; [exact Hp | exact Hm|].
    eapply Forall2_impl; [|exact Hf].
    intros m m' (_ & _ & Har) Ha. apply Har. exact Ha. }
  pose proof (distance_sum_nonneg (predators s) (mice s) moved) as Hnn.
  pose proof (count_alive_nonneg (mice s)) as Hc.
  pose proof (count_alive_le_length (mice s)) as Hcl.
  split; [|split; [exact L1 | lia]].
  split; [exact Hm'|]. split; [exact Hp'|]. split; [lia|].
  rewrite ED, ET, plus_IZR. lra.
Qed.

Lemma run_steps_bounded self b steps : forall s w s' w',
  run_steps self b steps s w = (Ok s', w') ->
  bounded_state self s ->
  bounded_state self s'
  /\ length (mice s') = length (mice s)
  /\ (total_survival_steps s'
      <= total_survival_steps s
         + Z.of_nat (length (mice s)) * Z.of_nat (length steps))%Z.
Proof.
  induction steps as [|step rest IH]; intros s w s' w' E Hb.
  - simpl in E. unfold ret in E. injection E as <- _.
    split; [exact Hb|]. split; [reflexivity | simpl; lia].
  - cbn [run_steps] in E. apply bind_inv_ok in E. destruct E as (s1 & w1 & Es & E).
    destruct (step_body_bounded _ _ _ _ _ _ _ Es Hb) as (Hb1 & L1 & T1).
    cbn [length]. rewrite Nat2Z.inj_succ.
    destruct (negb (existsb Agent.alive (mice s1))).
    + unfold ret in E. injection E as <- _.
      split; [exact Hb1|]. split; [exact L1 | nia].
    + destruct (IH _ _ _ _ E Hb1) as (Hb' & L' & T').
      split; [exact Hb'|]. split; [congruence|]. rewrite L1 in T'. nia.
Qed.

(** X13.  In an arena whose width and height are not negative, with a
    generator that returns values of [0, 1], the score of a trial is at
    most [150 + 0.5 * diagonal of the arena] (and at least 0). *)
Theorem trial_score_bounded self b w v w' :
  (0 < num_mice self)%Z -> (0 < max_steps self)%Z ->
  0 <= width self -> 0 <= height self ->
  (forall w0, 0 <= fst (random_random w0) <= 1) ->
  run_simulation self b w = (Ok v, w') ->
  0 <= v <= 150 + 0.5 * arena_diagonal self.
Proof.
  intros Hnm Hms Hw Hh Hr E.
  split; [exact (run_simulation_nonneg self b w v w' Hnm Hms E)|].
  unfold run_simulation in E.
  apply bind_inv_ok in E. destruct E as (s & w1 & Es & Ef).
  apply fitness_of_inv in Ef. destruct Ef as (_ & _ & _ & ->).
  destruct (simulate_inv _ _ _ _ _ Es)
    as (m0 & p0 & w0 & _ & Er & Hlm & _ & _ & Hin).
  destruct (Hin Hr Hw Hh) as [Hm0 Hp0].
  destruct (run_steps_bounded _ _ _ _ _ _ _ Er) as ((_ & _ & HT & HD) & HL & HTs).
  { split; [exact Hm0|]. split; [exact Hp0|]. simpl. split; [lia | lra]. }
  simpl in HL, HTs. rewrite Hlm in HL.
  unfold py_range in HTs. rewrite length_map, length_seq, Hlm in HTs.
  rewrite !Z2Nat.id in HTs by lia.
  pose proof (count_alive_le_length (mice s)) as Hcl. rewrite HL in Hcl.
  rewrite Z2Nat.id in Hcl by lia.
  pose proof (count_alive_nonneg (mice s)) as Hc0.
  pose proof (arena_diagonal_nonneg self) as Hd0.
  set (T := total_survival_steps s) in *.
  set (D := total_distance_score s) in *.
  set (A := count_alive (mice s)) in *.
  assert (Hnmr : 0 < IZR (num_mice self)) by (apply IZR_lt; exact Hnm).
  assert (Hprod : 0 < IZR (num_mice self * max_steps self)) by (apply IZR_lt; nia).
  assert (H1 : IZR T / IZR (num_mice self * max_steps self) <= 1).
  { apply Rmult_le_reg_r with (IZR (num_mice self * max_steps self)); [exact Hprod|].
    replace (IZR T / IZR (num_mice self * max_steps self)
             * IZR (num_mice self * max_steps self)) with (IZR T) by (field; lra).
    rewrite Rmult_1_l. apply IZR_le. lia. }
  assert (H3 : IZR A / IZR (num_mice self) <= 1).
  { apply Rmult_le_reg_r with (IZR (num_mice self)); [exact Hnmr|].
    replace (IZR A / IZR (num_mice self) * IZR (num_mice self)) with (IZR A)
      by (field; lra).
    rewrite Rmult_1_l. apply IZR_le. exact Hcl. }
  assert (H2 : D / IZR (Z.max 1 T) <= arena_diagonal self).
  { assert (Hmx : 0 < IZR (Z.max 1 T)) by (apply IZR_lt; lia).
    apply Rmult_le_reg_r with (IZR (Z.max 1 T)); [exact Hmx|].
    replace (D / IZR (Z.max 1 T) * IZR (Z.max 1 T)) with D by (field; lra).
    assert (IZR T <= IZR (Z.max 1 T)) by (apply IZR_le; lia).
    nra. }
  lra.
Qed.
End ScoreBound.

Lemma example_draws_in_unit :
  forall w0, 0 <= fst (@random_random Example.runtime w0) <= 1.
Proof. intros w0. simpl. lra. Qed.

Lemma trial_score_bounded_witness :
  exists v w',
    @PredatorPreyEnvironment.run_simulation Example.runtime Example.small_env
      Example.always_raises 0%nat = (Ok v, w')
    /\ 0 <= v <= 150 + 0.5 * arena_diagonal Example.small_env.
Proof.
  destruct (@run_simulation_returns Example.runtime Example.small_env
              Example.always_raises 0%nat) as (v & w' & E);
    [simpl; lia | simpl; lia | simpl; lia | exact example_raises_only_errors|].
  exists v, w'. split; [exact E|].
  apply (@trial_score_bounded Example.runtime Example.small_env
           Example.always_raises 0%nat v w');
    [simpl; lia | simpl; lia | simpl; lra | simpl; lra
     | exact example_draws_in_unit | exact E].
Defined.

(** ** The recording of a trial *)

Lemma firstn_seq_le k : forall start n,
  (k <= n)%nat -> firstn k (seq start n) = seq start k.
Proof.
  induction k as [|k IH]; intros start n Hk; [reflexivity|].
  destruct n as [|n]; [lia|]. simpl. f_equal. apply IH. lia.
Qed.

Section Recording.
Context `{Runtime}.
Import PredatorPreyEnvironment.

(** The loop over the mice of [visualize_simulation] is the one of
    [run_simulation] without the totals. *)
Lemma move_mice_update_mice self b state predators mice : forall totals w,
  move_mice self b state predators mice w
  = match update_mice self b state predators mice totals w with
    | (Ok (moved, _), w') => (Ok moved, w')
    | (Raise e, w') => (Raise e, w')
    end.
Proof.
  induction mice as [|mouse rest IH]; intros totals w; [reflexivity|].
  cbn [move_mice update_mice].
  destruct (negb (Agent.alive mouse)).
  - unfold bind. rewrite (IH totals w).
    destruct (update_mice self b state predators rest totals w) as [[[r t]|e] w1];
      reflexivity.
  - unfold bind, lift.
    destruct (py_min_by (fun p => Agent.distance_to mouse p) predators) as [np|e];
      [|reflexivity].
    destruct (try_move self b state mouse np w) as [[m'|e] w1]; [|reflexivity].
    rewrite (IH ((fst totals + 1)%Z, snd totals + Agent.distance_to m' np) w1).
    destruct (update_mice self b state predators rest
                ((fst totals + 1)%Z, snd totals + Agent.distance_to m' np) w1)
      as [[[r t]|e] w2]; reflexivity.
Qed.

(** The loop of [visualize_simulation] against the loop of
    [run_simulation] over the same steps from the same state. *)
Lemma record_steps_run_steps self b steps : forall s frames w,
  record_steps self b steps (mice s) (predators s) frames w
  = match run_steps self b steps s w with
    | (Ok _, w') =>
        (Ok (frames ++ map frame_of_record (steps_trace self b steps s w)), w')
    | (Raise e, w') => (Raise e, w')
    end.
Proof.
  induction steps as [|step rest IH]; intros s frames w.
  - simpl. unfold ret. rewrite app_nil_r. reflexivity.
  - cbn [record_steps run_steps steps_trace].
    unfold step_body. unfold bind.
    rewrite (move_mice_update_mice self b _ (predators s) (mice s)
               (total_survival_steps s, total_distance_score s) w).
    destruct (update_mice self b
                {| st_step := step; st_width := width self;
                   st_height := height self;
                   st_num_alive := count_alive (mice s) |}
                (predators s) (mice s)
                (total_survival_steps s, total_distance_score s) w)
      as [[[moved totals]|e] w1]; [|reflexivity].
    unfold ret. cbn [mice predators].
    destruct (negb (existsb Agent.alive
                      (check_captures self moved
                         (update_predators self moved (predators s))))) eqn:Ea.
    + cbn [map]. reflexivity.
    + match goal with
      | |- context [run_steps self b rest ?s1 w1] =>
          pose proof (IH s1 (frames ++ [frame_of step (mice s) (predators s)]) w1)
            as IHs;
          cbn [mice predators] in IHs; rewrite IHs;
          destruct (run_steps self b rest s1 w1) as [[s2|e] w2]; [|reflexivity]
      end.
      cbn [map]. rewrite <- app_assoc. reflexivity.
Qed.

(** [visualize_simulation] in terms of the loop of [run_simulation]. *)
Lemma visualize_by_run_steps self b steps w :
  visualize_simulation self b steps w
  = match _initialize_agents self w with
    | (Raise e, w0) => (Raise e, w0)
    | (Ok (mice0, predators0), w0) =>
        let start := {| mice := mice0; predators := predators0;
                        total_survival_steps := 0;
                        total_distance_score := 0 |} in
        let l := py_range (match steps with
                           | None => max_steps self
                           | Some n => n
                           end) in
        match run_steps self b l start w0 with
        | (Ok _, w') =>
            (Ok (map frame_of_record (steps_trace self b l start w0)), w')
        | (Raise e, w') => (Raise e, w')
        end
    end.
Proof.
  unfold visualize_simulation. unfold bind.
  destruct (_initialize_agents self w) as [[[m0 p0]|e] w0]; [|reflexivity].
  cbv zeta.
  exact (record_steps_run_steps self b _
           {| mice := m0; predators := p0; total_survival_steps := 0;
              total_distance_score := 0 |} [] w0).
Qed.

Lemma visualize_by_simulate self b w :
  visualize_simulation self b None w
  = match simulate self b w with
    | (Ok _, w') => (Ok (map frame_of_record (simulation_trace self b w)), w')
    | (Raise e, w') => (Raise e, w')
    end.
Proof.
  rewrite (visualize_by_run_steps self b None w). unfold simulate, simulation_trace.
  unfold bind.
  destruct (_initialize_agents self w) as [[[m0 p0]|e] w0]; reflexivity.
Qed.

(** X14.  [visualize_simulation] replays a trial: it returns when the
    loop of [run_simulation] over the same number of steps returns from
    the same state of the random generator, raises what that loop raises,
    leaves the generator (and the rest of the world) as that loop does,
    and its frames show, in order, the agents at the start of each step
    that loop executes.  With [steps] omitted this is the loop of
    [run_simulation] itself. *)
Theorem visualize_replays_trial self b :
  (forall steps w,
      visualize_simulation self b steps w
      = match _initialize_agents self w with
        | (Raise e, w0) => (Raise e, w0)
        | (Ok (mice0, predators0), w0) =>
            let start := {| mice := mice0; predators := predators0;
                            total_survival_steps := 0;
                            total_distance_score := 0 |} in
            let l := py_range (match steps with
                               | None => max_steps self
                               | Some n => n
                               end) in
            match run_steps self b l start w0 with
            | (Ok _, w') =>
                (Ok (map frame_of_record (steps_trace self b l start w0)), w')
            | (Raise e, w') => (Raise e, w')
            end
        end)
  /\ (forall w,
        visualize_simulation self b None w
        = match simulate self b w with
          | (Ok _, w') => (Ok (map frame_of_record (simulation_trace self b w)), w')
          | (Raise e, w') => (Raise e, w')
          end).
Proof.
  split; [exact (visualize_by_run_steps self b) | exact (visualize_by_simulate self b)].
Qed.

Lemma move_mice_length self b state predators mice w moved w' :
  move_mice self b state predators mice w = (Ok moved, w') ->
  length moved = length mice.
Proof.
  rewrite (move_mice_update_mice self b state predators mice (0%Z, 0) w).
  destruct (update_mice self b state predators mice (0%Z, 0) w)
    as [[[mv t]|e] w1] eqn:Em; [|discriminate].
  intros E. injection E as <- _.
  symmetry. eapply Forall2_length.
  exact (update_mice_forall2 _ _ _ _ _ _ _ _ _ _ Em).
Qed.

Lemma frame_shows_living step mice predators :
  existsb (fun m => snd m) (frame_mice (frame_of step mice predators))
  = existsb Agent.alive mice.
Proof.
  unfold frame_of. cbn [frame_mice].
  induction mice as [|m t IH]; simpl; [reflexivity | rewrite IH; reflexivity].
Qed.

(** What the loop of [visualize_simulation] adds to the frames. *)
Lemma record_steps_frames self b steps : forall m p frames w res w',
  record_steps self b steps m p frames w = (Ok res, w') ->
  exists new,
    res = frames ++ new
    /\ (length new <= length steps)%nat
    /\ map frame_step new = firstn (length new) steps
    /\ (steps <> [] -> new <> [])
    /\ Forall (fun f => length (frame_mice f) = length m
                        /\ length (frame_predators f) = length p) new
    /\ (existsb Agent.alive m = true ->
        Forall (fun f => existsb (fun m => snd m) (frame_mice f) = true) new).
Proof.
  induction steps as [|step rest IH]; intros m p frames w res w' E.
  - simpl in E. unfold ret in E. injection E as <- _.
    exists []. rewrite app_nil_r. repeat split; auto.
  - cbn [record_steps] in E.
    apply bind_inv_ok in E. destruct E as (mice1 & w1 & Em & E).
    pose proof (move_mice_length _ _ _ _ _ _ _ _ Em) as Hl1.
    assert (Hfr : length (frame_mice (frame_of step m p)) = length m
                  /\ length (frame_predators (frame_of step m p)) = length p).
    { unfold frame_of. cbn [frame_mice frame_predators].
      rewrite !length_map. auto. }
    destruct (negb (existsb Agent.alive
                      (check_captures self mice1 (update_predators self mice1 p))))
      eqn:Ea.
    + unfold ret in E. injection E as <- _.
      exists [frame_of step m p]. split; [reflexivity|].
      split; [simpl; lia|]. split; [reflexivity|]. split; [discriminate|].
      split; [constructor; [exact Hfr | constructor]|].
      intros Hal. constructor; [|constructor].
      rewrite frame_shows_living. exact Hal.
    + destruct (IH _ _ _ _ _ _ E) as (new & -> & Hlen & Hst & _ & Hsz & Hlive).
      exists (frame_of step m p :: new).
      split; [rewrite <- app_assoc; reflexivity|].
      split; [simpl; lia|].
      split; [simpl; rewrite Hst; reflexivity|]. split; [discriminate|].
      split.
      * constructor; [exact Hfr|].
        rewrite check_captures_map, length_map in Hsz.
        unfold update_predators in Hsz. rewrite length_map, Hl1 in Hsz. exact Hsz.
      * intros Hal. constructor; [rewrite frame_shows_living; exact Hal|].
        apply Hlive. apply negb_false_iff in Ea. exact Ea.
Qed.

(** X15.  The frames [visualize_simulation] returns are numbered
    [0, 1, 2, ...] in their [step] entry and are no more than the steps
    asked for (none for a number that is not positive, at least one
    otherwise); every frame lists [num_mice] mice and [num_predators]
    predators, and with a positive [num_mice] every frame shows a living
    mouse. *)
Theorem visualize_frames self b steps w frames w' :
  visualize_simulation self b steps w = (Ok frames, w') ->
  let n := match steps with None => max_steps self | Some n => n end in
  (Z.of_nat (length frames) <= Z.max 0 n)%Z
  /\ ((0 < n)%Z -> frames <> [])
  /\ map frame_step frames = py_range (Z.of_nat (length frames))
  /\ Forall (fun f => length (frame_mice f) = Z.to_nat (num_mice self)
                      /\ length (frame_predators f) = Z.to_nat (num_predators self))
            frames
  /\ ((0 < num_mice self)%Z ->
      Forall (fun f => existsb (fun m => snd m) (frame_mice f) = true) frames).
Proof.
  intros E n. unfold visualize_simulation in E. fold n in E.
  apply bind_inv_ok in E. destruct E as ([m0 p0] & w0 & Ei & E).
  unfold _initialize_agents in Ei.
  apply bind_inv_ok in Ei. destruct Ei as (m1 & w1 & Em & Ei).
  apply bind_inv_ok in Ei. destruct Ei as (p1 & w2 & Ep & Ei).
  unfold ret in Ei. injection Ei as <- <- _.
  destruct (spawn_agents_spec _ _ _ _ _ Em) as (Hlm & Ham & _).
  destruct (spawn_agents_spec _ _ _ _ _ Ep) as (Hlp & _ & _).
  destruct (record_steps_frames _ _ _ _ _ _ _ _ _ E)
    as (new & -> & Hlen & Hst & Hne & Hsz & Hlive).
  cbn [app]. unfold py_range in Hlen, Hst, Hne. rewrite length_map, length_seq in Hlen.
  split; [lia|]. split.
  { intros Hn. apply Hne. destruct (Z.to_nat n) eqn:En; [lia | discriminate]. }
  split.
  { rewrite Hst, firstn_map, firstn_seq_le by exact Hlen. unfold py_range.
    rewrite Nat2Z.id. reflexivity. }
  split; [rewrite Hlm, Hlp in Hsz; exact Hsz|].
  intros Hnm. apply Hlive.
  destruct m1 as [|a t]; [simpl in Hlm; lia|].
  inversion Ham as [|? ? Ha _]; subst. simpl. rewrite Ha. reflexivity.
Qed.
End Recording.

Lemma visualize_frames_witness :
  exists frames w',
    @PredatorPreyEnvironment.visualize_simulation Example.runtime Example.small_env
      Example.always_raises None 0%nat = (Ok frames, w')
    /\ (Z.of_nat (length frames) <= 2)%Z /\ frames <> [].
Proof.
  destruct (@simulate_returns Example.runtime Example.small_env
              Example.always_raises 0%nat example_raises_only_errors)
    as (s & w' & Es); [simpl; lia|].
  pose proof (@visualize_by_simulate Example.runtime Example.small_env
                Example.always_raises 0%nat) as Ev.
  rewrite Es in Ev.
  eexists _, w'. split; [exact Ev|].
  destruct (@visualize_frames Example.runtime _ _ _ _ _ _ Ev) as (H1 & H2 & _).
  split; [exact H1 | apply H2; simpl; lia].
Defined.

(** ** Further properties of the evaluator *)

Section EvaluatorOutcomes.
Context `{Runtime}.

Lemma run_trials_length ev b n : forall w scores w',
  Evaluator.run_trials ev b n w = (Ok scores, w') -> length scores = n.
Proof.
  induction n as [|n IH]; intros w scores w' E.
  - simpl in E. unfold ret in E. injection E as <- _. reflexivity.
  - cbn [Evaluator.run_trials] in E.
    apply bind_inv_ok in E. destruct E as (v & w1 & _ & E).
    apply bind_inv_ok in E. destruct E as (rest & w2 & Er & E).
    unfold ret in E. injection E as <- _. simpl. f_equal. eapply IH. exact Er.
Qed.

(** X16.  What [evaluate] returns is one of two things: fitness -1.0
    with metadata that has an ['error'] entry and no ['avg_score'], or,
    for [num_trials > 0], metadata made of exactly ['trials'], ['scores'],
    ['avg_score'], ['min_score'], ['max_score'], where there are
    [num_trials] scores, the fitness is the ['avg_score'] entry, and
    ['min_score'] and ['max_score'] are among the scores and bound every
    score. *)
Theorem evaluate_outcomes ev src n w f meta w' :
  Evaluator.evaluate ev src n w = (Ok (f, meta), w') ->
  (f = -1.0
   /\ (exists msg, dict_get meta "error" = Some (DStr msg))
   /\ dict_get meta "avg_score" = None)
  \/ (exists scores mn mx,
        meta = [("trials", DInt n); ("scores", DFloats scores);
                ("avg_score", DFloat f); ("min_score", DFloat mn);
                ("max_score", DFloat mx)]
        /\ (0 < n)%Z
        /\ length scores = Z.to_nat n
        /\ In mn scores /\ In mx scores
        /\ (forall v, In v scores -> mn <= v <= mx)).
Proof.
  intros E. rewrite evaluate_by_body in E.
  destruct (Evaluator.evaluate_body ev src n w) as [[a|e] w1] eqn:Eb.
  - injection E as -> _. unfold Evaluator.evaluate_body in Eb.
    apply bind_inv_ok in Eb. destruct Eb as (scope & w2 & _ & Eb).
    destruct (scope_get scope "mice_behavior") as [bf|].
    + right.
      apply bind_inv_ok in Eb. destruct Eb as (scores & w3 & Et & Eb).
      apply bind_inv_ok in Eb. destruct Eb as (avg & w4 & Ea & Eb).
      apply lift_inv_ok in Ea. destruct Ea as [Ea _].
      apply bind_inv_ok in Eb. destruct Eb as (mn & w5 & Emn & Eb).
      apply lift_inv_ok in Emn. destruct Emn as [Emn _].
      apply bind_inv_ok in Eb. destruct Eb as (mx & w6 & Emx & Eb).
      apply lift_inv_ok in Emx. destruct Emx as [Emx _].
      unfold ret in Eb. injection Eb as <- <- _.
      pose proof (run_trials_length _ _ _ _ _ _ Et) as Hlen.
      destruct (py_min_spec _ _ Emn) as [Hmn Hmin].
      destruct (py_max_spec _ _ Emx) as [Hmx Hmax].
      exists scores, mn, mx. split; [reflexivity|].
      split.
      { destruct scores; [discriminate Ea|]. simpl in Hlen. lia. }
      split; [exact Hlen|].
      split; [exact Hmn|]. split; [exact Hmx|].
      intros v Hv; split; auto.
    + left. unfold ret in Eb. injection Eb as <- <- _.
      split; [reflexivity|]. split; [eexists; reflexivity | reflexivity].
  - left. destruct (is_Exception e); [|discriminate].
    destruct (py_str_exc e w1) as [[msg|e0] w2]; [|discriminate].
    injection E as <- <- _.
    split; [reflexivity|]. split; [eexists; reflexivity | reflexivity].
Qed.

(** X17.  A [num_trials] that is zero or negative runs no trial: with a
    source that defines the entry point, [evaluate] returns fitness -1.0
    with the text of the [ZeroDivisionError], and leaves the world as the
    execution of the source left it. *)
Theorem evaluate_no_trials ev src n w scope behavior_fn w1 :
  (n <= 0)%Z ->
  py_exec src w = (Ok scope, w1) ->
  scope_get scope "mice_behavior" = Some behavior_fn ->
  Evaluator.evaluate ev src n w
  = (Ok (-1.0,
         [("error", DStr "division by zero");
          ("traceback",
           DStr (format_exc (mkExc ZeroDivisionError "division by zero")))]),
     w1).
Proof.
  intros Hn Ex Hs. rewrite evaluate_by_body.
  unfold Evaluator.evaluate_body. rewrite (bind_ok _ _ _ _ _ Ex), Hs.
  replace (Z.to_nat n) with 0%nat by lia. reflexivity.
Qed.
End EvaluatorOutcomes.

Lemma evaluate_outcomes_witness :
  exists f meta w',
    @Evaluator.evaluate Example.runtime
      {| Evaluator.environment := Example.small_env |} Example.src_no_entry 10 0%nat
    = (Ok (f, meta), w')
    /\ f = -1.0.
Proof.
  exists (-1.0), [("error", DStr "No mice_behavior function found")], 0%nat.
  assert (E : @Evaluator.evaluate Example.runtime
                {| Evaluator.environment := Example.small_env |}
                Example.src_no_entry 10 0%nat
              = (Ok (-1.0, [("error", DStr "No mice_behavior function found")]),
                 0%nat)) by reflexivity.
  split; [exact E|].
  destruct (@evaluate_outcomes Example.runtime _ _ _ _ _ _ _ E)
    as [(Hf & _)|(scores & mn & mx & Hm & _)]; [exact Hf | discriminate Hm].
Defined.

Lemma evaluate_no_trials_witness :
  @Evaluator.evaluate Example.runtime
    {| Evaluator.environment := Example.small_env |} Example.src_right (-3) 0%nat
  = (Ok (-1.0,
         [("error", DStr "division by zero");
          ("traceback",
           DStr (@format_exc Example.runtime
                   (mkExc ZeroDivisionError "division by zero")))]),
     0%nat).
Proof.
  apply (@evaluate_no_trials Example.runtime _ Example.src_right (-3)%Z 0%nat
           [("mice_behavior", Example.go_right)] Example.go_right 0%nat);
    [lia | reflexivity | reflexivity].
Defined.


(** ** Further properties of the search loop *)

(** Case analysis on the path an iteration takes. *)
Ltac iteration_paths :=
  unfold FunSearch.run_iteration; cbv zeta;
  repeat match goal with
    | |- context [ProgramDatabase.sample_program ?db ?w] =>
        destruct (ProgramDatabase.sample_program db w) as [[? | ?] ?]
    | |- context [FunSearch.sampler_sample ?s ?p ?c ?w] =>
        destruct (FunSearch.sampler_sample s p c w) as [[? | ?] ?]
    | |- context [negb (Evaluator.is_valid ?e ?p)] =>
        destruct (negb (Evaluator.is_valid e p))
    | |- context [Evaluator.evaluate ?e ?p ?n ?w] =>
        destruct (Evaluator.evaluate e p n w) as [[[? ?] | ?] ?]
    end.

Section SearchFacts.
Context `{Runtime}.
Import FunSearch.

(** What one iteration does to the flags and the counters, whatever it
    returns. *)
Lemma run_iteration_counters (self : FunSearch.t) w :
  let self' := fst (fst (fst (run_iteration self w))) in
  let r := snd (fst (run_iteration self w)) in
  verbose self' = verbose self
  /\ ProgramDatabase._generation (database self')
     = ProgramDatabase._generation (database self)
  /\ (total_samples (stats self) <= total_samples (stats self')
      <= total_samples (stats self) + 1)%Z
  /\ (valid_samples (stats self) <= valid_samples (stats self'))%Z
  /\ (valid_samples (stats self') - valid_samples (stats self)
      <= total_samples (stats self') - total_samples (stats self))%Z
  /\ (accepted_samples (stats self) <= accepted_samples (stats self'))%Z
  /\ (accepted_samples (stats self') - accepted_samples (stats self)
      <= valid_samples (stats self') - valid_samples (stats self))%Z
  /\ ((exists d, r = Ok d) ->
      total_samples (stats self') = (total_samples (stats self) + 1)%Z).
Proof.
  iteration_paths;
    try (cbn; repeat split; try lia; intros [d Hd]; discriminate Hd).
  cbn [database incr_valid_samples incr_total_samples set_stats].
  match goal with
  | |- context [ProgramDatabase.add_program ?db ?c ?fi ?m ?p] =>
      pose proof (add_program_generation db c fi m p) as Hgen;
      destruct (ProgramDatabase.add_program db c fi m p) as [db' [accepted|e]]
  end; cbn [fst] in Hgen.
  - destruct accepted;
      match goal with
      | |- context [float_gt_ext ?a ?b] => destruct (float_gt_ext a b)
      end; cbn; repeat split; try lia; try exact Hgen.
  - cbn. repeat split; try lia; try exact Hgen.
Qed.


(** What the loop of [run] does to the flags and the counters, whatever
    it returns. *)
Lemma run_loop_counters li iterations : forall (self : FunSearch.t) w,
  let self' := fst (fst (run_loop self li iterations w)) in
  let r := snd (fst (run_loop self li iterations w)) in
  let dt := (total_samples (stats self') - total_samples (stats self))%Z in
  let dv := (valid_samples (stats self') - valid_samples (stats self))%Z in
  let da := (accepted_samples (stats self') - accepted_samples (stats self))%Z in
  let dg := (ProgramDatabase._generation (database self')
             - ProgramDatabase._generation (database self))%Z in
  verbose self' = verbose self
  /\ (0 <= da <= dv)%Z /\ (dv <= dt <= Z.of_nat (length iterations))%Z
  /\ (0 <= dg <= dt)%Z
  /\ (r = Ok tt -> dt = Z.of_nat (length iterations) /\ dg = dt).
Proof.
  induction iterations as [|iteration rest IH]; intros self w.
  - cbn. repeat split; lia.
  - cbn [run_loop length]. rewrite Nat2Z.inj_succ.
    pose proof (run_iteration_counters self w) as Hit.
    destruct (run_iteration self w) as [[[self1 calls] r1] w1].
    cbn [fst snd] in Hit. cbv zeta in Hit.
    destruct Hit as (Hv & Hg & Ht & Hv1 & Hv2 & Ha1 & Ha2 & Hok).
    destruct r1 as [d|e].
    2:{ cbn. repeat split; try lia; try exact Hv; congruence. }
    specialize (Hok (ex_intro _ d eq_refl)).
    destruct (if verbose self1
              then match py_mod (iteration + 1) li with
                   | Ok r => if (r =? 0)%Z then log_progress self1 else Ok tt
                   | Raise e => Raise e
                   end
              else Ok tt) as [u|e].
    2:{ cbn. repeat split; try lia; try exact Hv; congruence. }
    specialize (IH (set_database self1
                      (ProgramDatabase.increment_generation (database self1))) w1).
    cbv zeta in IH |- *.
    destruct (run_loop _ li rest w1) as [[self2 r2] w2].
    cbn [fst snd] in IH |- *. cbn in IH.
    destruct IH as (Iv & Ia & It & Ig & Iok).
    split; [congruence|]. split; [lia|]. split; [lia|]. split; [lia|].
    intros Hr. specialize (Iok Hr). lia.
Qed.

(** X19.  The counters of a search: whatever [run] returns or raises,
    the accepted samples it added are no more than the valid ones, those
    no more than the samples, those no more than the iterations asked for
    (none for a negative number), and the generation advanced no more
    than the samples; when [run] returns, samples and generation both
    advanced by exactly the number of iterations.  On a new search the
    counters themselves are in that order. *)
Theorem run_counters (self : FunSearch.t) n li w :
  let self' := fst (fst (run self n li w)) in
  let r := snd (fst (run self n li w)) in
  let dt := (total_samples (stats self') - total_samples (stats self))%Z in
  let dv := (valid_samples (stats self') - valid_samples (stats self))%Z in
  let da := (accepted_samples (stats self') - accepted_samples (stats self))%Z in
  let dg := (ProgramDatabase._generation (database self')
             - ProgramDatabase._generation (database self))%Z in
  (0 <= da <= dv)%Z /\ (dv <= dt <= Z.max 0 n)%Z /\ (0 <= dg <= dt)%Z
  /\ (r = Ok tt -> dt = Z.max 0 n /\ dg = Z.max 0 n)
  /\ (forall env sampler max_programs vb,
        self = __init__ env sampler max_programs vb ->
        (0 <= accepted_samples (stats self') <= valid_samples (stats self'))%Z
        /\ (valid_samples (stats self') <= total_samples (stats self')
            <= Z.max 0 n)%Z).
Proof.
  unfold run. pose proof (run_loop_counters li (py_range n) self w) as Hl.
  cbv zeta in Hl |- *.
  assert (Hlen : Z.of_nat (length (py_range n)) = Z.max 0 n).
  { unfold py_range. rewrite length_map, length_seq. lia. }
  rewrite Hlen in Hl.
  destruct Hl as (_ & Ha & Ht & Hg & Hok).
  split; [exact Ha|]. split; [exact Ht|]. split; [exact Hg|].
  split; [intros Hr; specialize (Hok Hr); lia|].
  intros env sampler max_programs vb ->. cbn in Ha, Ht. lia.
Qed.


(** X21.  With [verbose] set and [log_interval = 0], [run] over at least
    one iteration never returns: it raises what the first iteration
    raises, or [ZeroDivisionError] right after the first iteration, with
    one sample counted and the generation where it was. *)
Theorem run_zero_log_interval (self : FunSearch.t) n w :
  verbose self = true -> (0 < n)%Z ->
  exists self' e w',
    run self n 0 w = ((self', Raise e), w')
    /\ ProgramDatabase._generation (database self')
       = ProgramDatabase._generation (database self)
    /\ (forall d, snd (fst (run_iteration self w)) = Ok d ->
        exc_class e = ZeroDivisionError
        /\ total_samples (stats self') = (total_samples (stats self) + 1)%Z)
    /\ (forall e', snd (fst (run_iteration self w)) = Raise e' -> e = e').
Proof.
  intros Hv Hn. unfold run, py_range.
  destruct (Z.to_nat n) as [|k] eqn:En; [lia|].
  cbn [seq map run_loop].
  pose proof (run_iteration_counters self w) as Hit.
  destruct (run_iteration self w) as [[[self1 calls] r1] w1].
  cbn [fst snd] in Hit |- *. cbv zeta in Hit.
  destruct Hit as (Hv1 & Hg & _ & _ & _ & _ & _ & Hok).
  destruct r1 as [d|e].
  - rewrite Hv1, Hv. cbn [py_mod Z.eqb].
    exists self1, (mkExc ZeroDivisionError "integer modulo by zero"), w1.
    split; [reflexivity|]. split; [exact Hg|]. split.
    + intros d' _. split; [reflexivity|]. apply Hok. eauto.
    + intros e' He. discriminate He.
  - exists self1, e, w1. split; [reflexivity|]. split; [exact Hg|]. split.
    + intros d Hd. discriminate Hd.
    + intros e' He. congruence.
Qed.

(** The progress report raises exactly when the database is empty. *)
Lemma log_progress_cases (self : FunSearch.t) :
  match ProgramDatabase.programs (database self) with
  | [] => log_progress self
          = Raise (mkExc TypeError
                     "unsupported format string passed to NoneType.__format__")
  | _ => log_progress self = Ok tt
  end.
Proof.
  unfold log_progress, ProgramDatabase.get_statistics.
  destruct (ProgramDatabase.programs (database self)) as [|p t]; [reflexivity|].
  cbn [map py_max py_min py_div_len]. reflexivity.
Qed.

(** X22.  With [verbose] set, a report that falls on an empty database
    raises [TypeError]: when the database is empty, the first sample does
    not compile and [log_interval] is 1, [run] over at least one iteration
    raises [TypeError] after that one sample, before the generation
    advances. *)
Theorem run_reports_empty_database (self : FunSearch.t) n w new_program w2 :
  verbose self = true -> (0 < n)%Z ->
  ProgramDatabase.programs (database self) = [] ->
  sampler_sample (sampler self) prompt None w = (Ok new_program, w2) ->
  Evaluator.is_valid (evaluator self) new_program = false ->
  run self n 1 w
  = ((incr_total_samples self,
      Raise (mkExc TypeError
               "unsupported format string passed to NoneType.__format__")), w2).
Proof.
  intros Hv Hn Hp Hs Hval. unfold run, py_range.
  destruct (Z.to_nat n) as [|k] eqn:En; [lia|].
  cbn [seq map run_loop].
  unfold run_iteration, ProgramDatabase.sample_program. rewrite Hp.
  unfold ret. rewrite Hs. cbv zeta.
  change (evaluator (incr_total_samples self)) with (evaluator self).
  rewrite Hval. cbn [negb].
  change (verbose (incr_total_samples self)) with (verbose self). rewrite Hv.
  cbn [py_mod Z.of_nat Z.add Z.eqb Z.modulo Z.div_eucl Z.pos_div_eucl].
  pose proof (log_progress_cases (incr_total_samples self)) as Hl.
  change (database (incr_total_samples self)) with (database self) in Hl.
  rewrite Hp in Hl.
  replace (0 + 1)%Z with 1%Z by reflexivity.
  change (py_mod 1 1) with (Ok 0%Z). cbn [Z.eqb]. rewrite Hl. reflexivity.
Qed.

(** X23.  [initialize_with_seed] on a new search with room for a program
    stores the seed, whatever its fitness (a seed that failed evaluation
    has -1.0), as the only and the best program, and sets
    [stats['best_fitness']] to that fitness; with [max_programs <= 0] it
    raises [IndexError], the database stays empty and
    [stats['best_fitness']] stays [-inf] although [get_best_program]
    returns the seed. *)
Theorem initialize_with_seed_new env sampler max_programs vb seed_program w f meta w1 :
  let self := __init__ env sampler max_programs vb in
  Evaluator.evaluate (evaluator self) seed_program 10 w = (Ok (f, meta), w1) ->
  exists self' r,
    initialize_with_seed self seed_program w = ((self', r), w1)
    /\ get_best_program self' = Some seed_program
    /\ ProgramDatabase.get_best_program (database self')
       = Some (seed_entry seed_program f meta)
    /\ stats self' = (if (0 <? max_programs)%Z
                      then stats (set_best_fitness self f) else stats self)
    /\ (if (0 <? max_programs)%Z
        then r = Ok tt
             /\ ProgramDatabase.programs (database self')
                = [seed_entry seed_program f meta]
        else r = Raise (mkExc IndexError "list index out of range")
             /\ ProgramDatabase.programs (database self') = []).
Proof.
  intros self E. unfold initialize_with_seed. rewrite E.
  unfold ProgramDatabase.add_program. cbn [database self __init__].
  cbn [ProgramDatabase._best_program ProgramDatabase.__init__
       ProgramDatabase.set_best_program ProgramDatabase.programs
       ProgramDatabase.max_size ProgramDatabase._generation length Z.of_nat].
  destruct (0 <? max_programs)%Z.
  - eexists _, _. split; [reflexivity|]. cbn. repeat split; reflexivity.
  - eexists _, _. split; [reflexivity|]. cbn. repeat split; reflexivity.
Qed.
End SearchFacts.

Lemma run_zero_log_interval_witness :
  exists self' e w',
    @FunSearch.run Example.runtime Example.broken_search 1 0 0%nat
    = ((self', Raise e), w')
    /\ exc_class e = ZeroDivisionError.
Proof.
  destruct (@run_zero_log_interval Example.runtime Example.broken_search 1 0%nat
              eq_refl ltac:(lia)) as (self' & e & w' & E & _ & Hok & _).
  exists self', e, w'. split; [exact E|].
  exact (proj1 (Hok _ eq_refl)).
Defined.

Lemma run_reports_empty_database_witness :
  @FunSearch.run Example.runtime Example.broken_search 1 1 0%nat
  = ((@FunSearch.incr_total_samples Example.runtime Example.broken_search,
      Raise (mkExc TypeError
               "unsupported format string passed to NoneType.__format__")), 0%nat).
Proof.
  apply (@run_reports_empty_database Example.runtime Example.broken_search 1 0%nat
           Example.src_broken 0%nat);
    [reflexivity | lia | reflexivity | reflexivity | reflexivity].
Defined.

Lemma initialize_with_seed_new_witness :
  exists self' r,
    @FunSearch.initialize_with_seed Example.runtime
      (@FunSearch.__init__ Example.runtime (Some Example.small_env) None 5 false)
      Example.src_no_entry 0%nat
    = ((self', r), 0%nat)
    /\ @FunSearch.get_best_program Example.runtime self' = Some Example.src_no_entry.
Proof.
  destruct (@initialize_with_seed_new Example.runtime (Some Example.small_env) None 5
              false Example.src_no_entry 0%nat (-1.0)
              [("error", DStr "No mice_behavior function found")] 0%nat eq_refl)
    as (self' & r & E & Hb & _).
  exists self', r. split; [exact E | exact Hb].
Defined.
